(** * kathara-checker-scoring: matching, scoring formulas and aggregation

    A shallow embedding of [kathara_checker_scoring/models.py] and
    [kathara_checker_scoring/scoring.py].

    Conventions of the embedding.
    - A Python [int] is a [Z].  A Python [float] that carries points is a
      finite number and is kept as an exact rational ([Q]); the rounding
      error, the overflow and the infinities of binary64 are outside this
      model.  The [int | float] union keeps its tag ([PyInt] / [PyFloat]),
      since the code tests [isinstance(_, float)] and since [round] and
      [math.floor] turn a float into an int.
    - The strategies are embedded a second time, in [Binary64], with the
      floats of the machine (IEEE 754 binary64, round to nearest even, with
      their infinities and their NaN) and the exceptions of the conversions:
      this is where the rounding error and the overflow are visible.
    - [math.nan] only ever appears as a percentage: percentages have their
      own type [pyfloat] with a [nan] constructor.
    - A raised exception is the [Err] branch of [result].
    - An f-string is kept as the sequence of its parts ([piece]): literal
      text and formatted values, each formatted value tagged with the
      conversion applied to it.
    - A [dict] is an association list in insertion order, looked up with the
      key's [__eq__]. *)

From Stdlib Require Import ZArith QArith Qround Qabs Lqa List String Ascii Bool Lia.
From Stdlib Require Import Permutation SpecFloat.
Import ListNotations.

Set Implicit Arguments.

Local Open Scope Z_scope.

(* ===================================================================== *)
(** * Python values used by the program *)
(* ===================================================================== *)

(** ** [int | float] *)

Inductive number : Type :=
| PyInt (z : Z)
| PyFloat (q : Q).

(** The numeric value of a number. *)
Definition to_Q (x : number) : Q :=
  match x with
  | PyInt z => inject_Z z
  | PyFloat q => q
  end.

(** [isinstance(x, float)] *)
Definition is_float (x : number) : bool :=
  match x with
  | PyInt _ => false
  | PyFloat _ => true
  end.

(** [a * b]: an int when both operands are ints, a float otherwise. *)
Definition num_mul (a b : number) : number :=
  match a, b with
  | PyInt x, PyInt y => PyInt (x * y)
  | _, _ => PyFloat (to_Q a * to_Q b)
  end.

(** [a + b] *)
Definition num_add (a b : number) : number :=
  match a, b with
  | PyInt x, PyInt y => PyInt (x + y)
  | _, _ => PyFloat (to_Q a + to_Q b)
  end.

(** [a == b], [a <= b] and [a == 0] compare the numeric values, whatever
    the tags ([1 == 1.0] holds in Python). *)
Definition num_eq (a b : number) : Prop := to_Q a == to_Q b.
Definition num_le (a b : number) : Prop := (to_Q a <= to_Q b)%Q.
Definition num_eqb (a b : number) : bool := Qeq_bool (to_Q a) (to_Q b).
Definition is_zero (a : number) : bool := num_eqb a (PyInt 0).

(** A number whose value is a whole number, whatever its tag. *)
Definition integral (x : number) : Prop := exists z : Z, to_Q x == inject_Z z.

(** [sum(xs)]: starts from the int [0] and adds from the left. *)
Definition py_sum (xs : list number) : number := fold_left num_add xs (PyInt 0).

(** [sum(xs)] for ints. *)
Definition py_sum_int (xs : list Z) : Z := fold_left Z.add xs 0.

(** [len(xs)] *)
Definition len {A : Type} (xs : list A) : Z := Z.of_nat (List.length xs).

(** ** Floats that may be [math.nan] (percentages) *)

Inductive pyfloat : Type :=
| nan
| fin (q : Q).

(** ** [math.floor(x)] and [round(x)] of a float: both return an int *)

Definition py_floor (x : Q) : Z := Qfloor x.

(** [round] of a float without [ndigits]: the nearest integer, a tie goes
    to the even neighbour. *)
Definition py_round (x : Q) : Z :=
  let f := Qfloor x in
  match (x - inject_Z f ?= 1 # 2)%Q with
  | Lt => f
  | Gt => f + 1
  | Eq => if Z.even f then f else f + 1
  end.

(** ** Formatted text *)

(** The parts of an f-string, in order.  Literal text and the [str] of a
    string are [Text]; the other constructors are formatted values that
    are kept with the conversion the code applies to them. *)
Inductive piece : Type :=
| Text (s : string)
| ReprStr (s : string)      (* repr(s) of a str: quoted, escaped *)
| StrNum (x : number)       (* str(x) *)
| Fixed2 (x : number)       (* format(x, ".2f") *)
| Fixed2F (p : pyfloat).    (* format(p, ".2f") of a float that may be nan *)

Definition message : Type := list piece.

(** [sep.join(parts)] *)
Fixpoint join (sep : message) (parts : list message) : message :=
  match parts with
  | [] => []
  | [p] => p
  | p :: rest => p ++ sep ++ join sep rest
  end.

(** ** Exceptions and results *)

Inductive exn : Type :=
| ValueError (msg : message)
| ZeroDivisionError
| OverflowError
| KeyError.

Inductive result (A : Type) : Type :=
| Ok (a : A)
| Err (e : exn).

Arguments Ok {A} a.
Arguments Err {A} e.

Definition bind {A B : Type} (c : result A) (k : A -> result B) : result B :=
  match c with
  | Ok a => k a
  | Err e => Err e
  end.

Declare Scope result_scope.
Delimit Scope result_scope with result.
Notation "x <- c ;; k" := (bind c (fun x => k))
  (at level 61, c at next level, right associativity) : result_scope.
Local Open Scope result_scope.

(** A comprehension whose element expression may raise: the elements are
    evaluated from left to right and the first exception ends it. *)
Fixpoint mapM {A B : Type} (f : A -> result B) (l : list A) : result (list B) :=
  match l with
  | [] => Ok []
  | a :: l' => b <- f a ;; bs <- mapM f l' ;; Ok (b :: bs)
  end.

(** [a / b] of two ints: true division. *)
Definition int_truediv (a b : Z) : result Q :=
  if b =? 0 then Err ZeroDivisionError else Ok (inject_Z a / inject_Z b)%Q.

(** [a / b] of two numbers: true division, the result is a float. *)
Definition num_truediv (a b : number) : result Q :=
  if is_zero b then Err ZeroDivisionError else Ok (to_Q a / to_Q b)%Q.

(* ===================================================================== *)
(** * Compiled patterns ([re.Pattern]) *)
(* ===================================================================== *)

Local Open Scope string_scope.
Local Open Scope list_scope.

(** The compiled form of a pattern: the regular core of Python's syntax
    and the end anchor.  [Never] is the pattern that matches nothing; it is
    what is left of a pattern once a character it cannot read has been
    consumed.  Look-around, back-references and flags are not part of it,
    and a character is one of the 256 of [ascii]. *)
Inductive regex : Type :=
| Never
| Empty
| Lit (c : ascii)
| AnyChar                  (* [.]: any character but a newline *)
| EndOfString              (* [$] *)
| Seq (r1 r2 : regex)
| Or (r1 r2 : regex)       (* [r1|r2] *)
| Many (r : regex).        (* [r*] *)

Definition newline : ascii := ascii_of_nat 10.

(** Where [$] holds: at the end of the subject, and just before a newline
    that is its last character.  [rest] is what is left of the subject. *)
Definition at_end (rest : string) : bool :=
  match rest with
  | EmptyString => true
  | String c EmptyString => Ascii.eqb c newline
  | _ => false
  end.

(** [Matches r s rest]: the pattern matches [s] at a place of the subject
    where [rest] follows [s]. *)
Inductive Matches : regex -> string -> string -> Prop :=
| MEmpty rest : Matches Empty "" rest
| MLit c rest : Matches (Lit c) (String c "") rest
| MAnyChar c rest : c <> newline -> Matches AnyChar (String c "") rest
| MEndOfString rest : at_end rest = true -> Matches EndOfString "" rest
| MSeq r1 r2 s1 s2 rest :
    Matches r1 s1 (s2 ++ rest)%string -> Matches r2 s2 rest ->
    Matches (Seq r1 r2) (s1 ++ s2)%string rest
| MOrL r1 r2 s rest : Matches r1 s rest -> Matches (Or r1 r2) s rest
| MOrR r1 r2 s rest : Matches r2 s rest -> Matches (Or r1 r2) s rest
| MManyNil r rest : Matches (Many r) "" rest
| MManyCons r s1 s2 rest :
    Matches r s1 (s2 ++ rest)%string -> Matches (Many r) s2 rest ->
    Matches (Many r) (s1 ++ s2)%string rest.

(** Whether the pattern matches the empty string where [rest] is left of
    the subject. *)
Fixpoint nullable (rest : string) (r : regex) : bool :=
  match r with
  | Never | Lit _ | AnyChar => false
  | Empty | Many _ => true
  | EndOfString => at_end rest
  | Seq r1 r2 => nullable rest r1 && nullable rest r2
  | Or r1 r2 => nullable rest r1 || nullable rest r2
  end.

(** The pattern that is left after reading the character [c], which
    [rest] follows in the subject. *)
Fixpoint deriv (c : ascii) (rest : string) (r : regex) : regex :=
  match r with
  | Never | Empty | EndOfString => Never
  | Lit d => if Ascii.eqb c d then Empty else Never
  | AnyChar => if Ascii.eqb c newline then Never else Empty
  | Seq r1 r2 =>
      if nullable (String c rest) r1
      then Or (Seq (deriv c rest r1) r2) (deriv c rest r2)
      else Seq (deriv c rest r1) r2
  | Or r1 r2 => Or (deriv c rest r1) (deriv c rest r2)
  | Many r1 => Seq (deriv c rest r1) (Many r1)
  end.

(** [pattern.match(s) is not None]: the scan starts at position 0 and
    succeeds as soon as what was read so far is a match; it never skips a
    character to start later. *)
Fixpoint pattern_match (r : regex) (s : string) : bool :=
  nullable s r ||
  match s with
  | EmptyString => false
  | String c s' => pattern_match (deriv c s' r) s'
  end.

(** [pattern.fullmatch(s) is not None], for comparison: the whole string
    is read. *)
Fixpoint pattern_fullmatch (r : regex) (s : string) : bool :=
  match s with
  | EmptyString => nullable "" r
  | String c s' => pattern_fullmatch (deriv c s' r) s'
  end.

(** [pattern.search(s) is not None], for comparison: a match may start at
    any position. *)
Fixpoint pattern_search (r : regex) (s : string) : bool :=
  pattern_match r s ||
  match s with
  | EmptyString => false
  | String _ s' => pattern_search r s'
  end.

(** [p1 == p2] of two compiled patterns. *)
Fixpoint regex_eqb (a b : regex) : bool :=
  match a, b with
  | Never, Never | Empty, Empty | AnyChar, AnyChar | EndOfString, EndOfString => true
  | Lit c, Lit d => Ascii.eqb c d
  | Seq a1 a2, Seq b1 b2 | Or a1 a2, Or b1 b2 => regex_eqb a1 b1 && regex_eqb a2 b2
  | Many a1, Many b1 => regex_eqb a1 b1
  | _, _ => false
  end.

(** The pattern that reads exactly the characters of [s]. *)
Fixpoint literal (s : string) : regex :=
  match s with
  | EmptyString => Empty
  | String c s' => Seq (Lit c) (literal s')
  end.

(** The pattern has no [$]. *)
Fixpoint anchor_free (r : regex) : bool :=
  match r with
  | Never | Empty | Lit _ | AnyChar => true
  | EndOfString => false
  | Seq r1 r2 | Or r1 r2 => anchor_free r1 && anchor_free r2
  | Many r1 => anchor_free r1
  end.

(* ===================================================================== *)
(** * models.py *)
(* ===================================================================== *)

(** [_calc_percentage(part, whole)] *)
Definition _calc_percentage (part whole : number) : result pyfloat :=
  if is_zero whole then Ok nan
  else
    ratio <- num_truediv part whole ;;
    Ok (fin (ratio * 100)%Q).

(** ** [LabResultRecord] *)

Module LabResultRecord.

Record t : Type := mk {
  description : string;
  passed : bool;
  reason : string
}.

(** The [__eq__] of the frozen dataclass: field by field. *)
Definition eqb (a b : t) : bool :=
  String.eqb (description a) (description b)
  && Bool.eqb (passed a) (passed b)
  && String.eqb (reason a) (reason b).

(** The [__repr__] of the dataclass. *)
Definition repr (r : t) : message :=
  [ Text "LabResultRecord(description="; ReprStr (description r);
    Text ", passed="; Text (if passed r then "True" else "False");
    Text ", reason="; ReprStr (reason r); Text ")" ].

End LabResultRecord.

(** ** [GroupType] *)

Module GroupType.

Inductive t : Type :=
| EACH
| LINEAR
| LINEAR_ROUNDED
| LINEAR_FLOORED
| ALL
| ANY.

Definition eqb (a b : t) : bool :=
  match a, b with
  | EACH, EACH | LINEAR, LINEAR | LINEAR_ROUNDED, LINEAR_ROUNDED
  | LINEAR_FLOORED, LINEAR_FLOORED | ALL, ALL | ANY, ANY => true
  | _, _ => false
  end.

(** [sum(1 for rec in records if rec.passed)] *)
Definition count_passed (records : list LabResultRecord.t) : Z :=
  py_sum_int (map (fun _ => 1%Z) (filter LabResultRecord.passed records)).

Definition calculate_earned_points (self : t) (group_points : number)
    (records : list LabResultRecord.t) : result number :=
  let count_passed := count_passed records in
  match self with
  | EACH => Ok (num_mul group_points (PyInt count_passed))
  | LINEAR | LINEAR_ROUNDED | LINEAR_FLOORED =>
      ratio <- int_truediv count_passed (len records) ;;
      let earned := (ratio * to_Q group_points)%Q in
      match self with
      | LINEAR_ROUNDED => Ok (PyInt (py_round earned))
      | LINEAR_FLOORED => Ok (PyInt (py_floor earned))
      | _ => Ok (PyFloat earned)
      end
  | ALL => Ok (if (count_passed =? len records)%Z then group_points else PyInt 0)
  | ANY => Ok (if (count_passed >=? 1)%Z then group_points else PyInt 0)
  end.

Definition calculate_max_points (self : t) (group_points : number)
    (records : list LabResultRecord.t) : number :=
  match self with
  | EACH => num_mul group_points (PyInt (len records))
  | LINEAR | LINEAR_ROUNDED | LINEAR_FLOORED => group_points
  | ALL | ANY => group_points
  end.

End GroupType.

(** ** [GroupType] on the floats of the machine *)

(** The two methods of [GroupType] again, with the arithmetic of CPython:
    a float is a binary64 ([SpecFloat], 53 bits of mantissa), every float
    operation rounds to the nearest float, an int that meets a float is
    converted first, and a conversion that does not fit raises. *)
Module Binary64.

Definition prec : Z := 53.
Definition emax : Z := 1024.

(** [int | float] *)
Inductive number : Type :=
| Int (z : Z)
| Float (x : spec_float).

(** The int [z] written as the mantissa of a float, not rounded yet. *)
Definition unrounded (z : Z) : spec_float :=
  match z with
  | Z0 => S754_zero false
  | Zpos m => S754_finite false m 0
  | Zneg m => S754_finite true m 0
  end.

(** A result that is too large for a float raises. *)
Definition finite_or_overflow (x : spec_float) : result spec_float :=
  match x with
  | S754_infinity _ => Err OverflowError
  | _ => Ok x
  end.

(** [float(z)]: the nearest float, a tie going to the even mantissa;
    [OverflowError: int too large to convert to float]. *)
Definition of_int (z : Z) : result spec_float :=
  finite_or_overflow (binary_normalize prec emax z 0 false).

(** [a / b] of two ints: the float nearest to the quotient. *)
Definition int_truediv (a b : Z) : result spec_float :=
  if (b =? 0)%Z then Err ZeroDivisionError
  else finite_or_overflow (SFdiv prec emax (unrounded a) (unrounded b)).

(** The operand of a float operation: an int is converted first. *)
Definition to_float (x : number) : result spec_float :=
  match x with
  | Int z => of_int z
  | Float f => Ok f
  end.

(** [a * b]: an int when both operands are ints, a float otherwise; the
    product of two floats never raises, it overflows to an infinity. *)
Definition mul (a b : number) : result number :=
  match a, b with
  | Int x, Int y => Ok (Int (x * y))
  | _, _ =>
      x <- to_float a ;;
      y <- to_float b ;;
      Ok (Float (SFmul prec emax x y))
  end.

(** The value of a finite float. *)
Definition value (s : bool) (m : positive) (e : Z) : Q :=
  let z := if s then Zneg m else Zpos m in
  match e with
  | Zneg k => Qmake z (2 ^ k)
  | _ => inject_Z (z * 2 ^ e)
  end.

(** The int that [round] or [math.floor] makes of a float, [to_int]
    being the rounding:
    [ValueError: cannot convert float NaN to integer],
    [OverflowError: cannot convert float infinity to integer]. *)
Definition float_to_int (to_int : Q -> Z) (x : spec_float) : result Z :=
  match x with
  | S754_nan => Err (ValueError [Text "cannot convert float NaN to integer"])
  | S754_infinity _ => Err OverflowError
  | S754_zero _ => Ok 0%Z
  | S754_finite s m e => Ok (to_int (value s m e))
  end.

Definition calculate_earned_points (self : GroupType.t) (group_points : number)
    (records : list LabResultRecord.t) : result number :=
  let count_passed := GroupType.count_passed records in
  match self with
  | GroupType.EACH => mul group_points (Int count_passed)
  | GroupType.LINEAR | GroupType.LINEAR_ROUNDED | GroupType.LINEAR_FLOORED =>
      ratio <- int_truediv count_passed (len records) ;;
      earned <- mul (Float ratio) group_points ;;
      match self, earned with
      | GroupType.LINEAR_ROUNDED, Float x => z <- float_to_int py_round x ;; Ok (Int z)
      | GroupType.LINEAR_FLOORED, Float x => z <- float_to_int py_floor x ;; Ok (Int z)
      | _, _ => Ok earned
      end
  | GroupType.ALL =>
      Ok (if (count_passed =? len records)%Z then group_points else Int 0)
  | GroupType.ANY =>
      Ok (if (count_passed >=? 1)%Z then group_points else Int 0)
  end.

Definition calculate_max_points (self : GroupType.t) (group_points : number)
    (records : list LabResultRecord.t) : result number :=
  match self with
  | GroupType.EACH => mul group_points (Int (len records))
  | GroupType.LINEAR | GroupType.LINEAR_ROUNDED | GroupType.LINEAR_FLOORED =>
      Ok group_points
  | GroupType.ALL | GroupType.ANY => Ok group_points
  end.

End Binary64.

(** ** [CheckGroup] and [GroupCategory] *)

(** A group refers back to the category that owns it; the code reads the
    category's name (for the hash) and its multiplier (for the weight)
    through that reference.  [CategoryRef] is what the reference gives
    access to. *)
Module CategoryRef.

Record t : Type := mk {
  name : string;
  points_multiplier : number
}.

Definition eqb (a b : t) : bool :=
  String.eqb (name a) (name b)
  && num_eqb (points_multiplier a) (points_multiplier b).

End CategoryRef.

Module CheckGroup.

Record t : Type := mk {
  name : string;
  type : GroupType.t;
  description_regex : regex;
  points : number;
  category : CategoryRef.t
}.

Definition matches (self : t) (record : LabResultRecord.t) : bool :=
  pattern_match (description_regex self) (LabResultRecord.description record).

(** [__repr__]: [f"{self.__class__.__name__}('{self.name}')"]. *)
Definition repr (self : t) : message :=
  [ Text "CheckGroup"; Text "('"; Text (name self); Text "')" ].

(** The [__eq__] of the dataclass: field by field, the category through
    the reference.  [__hash__] is taken from the two names, which this
    equality compares, so that a lookup by hash and then by equality is a
    lookup by this equality. *)
Definition eqb (a b : t) : bool :=
  String.eqb (name a) (name b)
  && GroupType.eqb (type a) (type b)
  && regex_eqb (description_regex a) (description_regex b)
  && num_eqb (points a) (points b)
  && CategoryRef.eqb (category a) (category b).

End CheckGroup.

Module GroupCategory.

Record t : Type := mk {
  name : string;
  points_multiplier : number;
  groups : list CheckGroup.t
}.

(** The reference a group of this category holds to it. *)
Definition ref (self : t) : CategoryRef.t :=
  CategoryRef.mk (name self) (points_multiplier self).

End GroupCategory.

(** [repr] of a list of groups: [[CheckGroup('a'), CheckGroup('b')]]. *)
Definition repr_groups (gs : list CheckGroup.t) : message :=
  [Text "["] ++ join [Text ", "] (map CheckGroup.repr gs) ++ [Text "]"].

(** ** [ScoringConfig] *)

(** A [for] loop whose body may raise. *)
Fixpoint for_each {A : Type} (body : A -> result unit) (l : list A) : result unit :=
  match l with
  | [] => Ok tt
  | a :: l' => _ <- body a ;; for_each body l'
  end.

(** [len({name for ...})]: the number of distinct names. *)
Definition len_set (names : list string) : Z :=
  len (nodup string_dec names).

Module ScoringConfig.

Record t : Type := mk {
  categories : list GroupCategory.t
}.

(** The [groups] property: the groups of every category, in order. *)
Definition groups (self : t) : list CheckGroup.t :=
  flat_map GroupCategory.groups (categories self).

Definition msg_not_among : message :=
  [Text "The provided group must among this config's groups."].

(** [category_of(group)]: the first category whose groups hold a group
    equal to [group] ([group in cat.groups]). *)
Definition category_of (self : t) (group : CheckGroup.t) : result GroupCategory.t :=
  (fix loop (categories : list GroupCategory.t) : result GroupCategory.t :=
     match categories with
     | [] => Err (ValueError msg_not_among)
     | cat :: rest =>
         if existsb (fun g => CheckGroup.eqb g group) (GroupCategory.groups cat)
         then Ok cat
         else loop rest
     end) (categories self).

Definition msg_category_names : message :=
  [Text "Group category names must be unique"].
Definition msg_group_names : message :=
  [Text "Check group names within categories must be unique"].
Definition msg_empty_category : message :=
  [Text "Each category must contain at least one check group"].

Definition __post_init__ (self : t) : result unit :=
  if negb (len_set (map GroupCategory.name (categories self))
           =? len (categories self))%Z
  then Err (ValueError msg_category_names)
  else
    _ <- for_each
           (fun category =>
              if negb (len_set (map CheckGroup.name (GroupCategory.groups category))
                       =? len (GroupCategory.groups category))%Z
              then Err (ValueError msg_group_names)
              else Ok tt)
           (categories self) ;;
    if existsb (fun category => (len (GroupCategory.groups category) =? 0)%Z)
         (categories self)
    then Err (ValueError msg_empty_category)
    else Ok tt.

(** [ScoringConfig(categories=...)]: the dataclass constructor stores
    the field and runs [__post_init__]; the object only exists when
    that returns. *)
Definition new (categories : list GroupCategory.t) : result t :=
  let self := mk categories in
  _ <- __post_init__ self ;;
  Ok self.

End ScoringConfig.

(** ** The three levels of results *)

Module GroupResult.

Record t : Type := mk {
  group : CheckGroup.t;
  records : list LabResultRecord.t
}.

Definition total_checks_count (self : t) : Z := len (records self).

Definition passed_checks_count (self : t) : Z :=
  py_sum_int (map (fun _ => 1%Z) (filter LabResultRecord.passed (records self))).

Definition failed_check_count (self : t) : Z :=
  (total_checks_count self - passed_checks_count self)%Z.

Definition max_points (self : t) : number :=
  GroupType.calculate_max_points (CheckGroup.type (group self))
    (num_mul (CheckGroup.points (group self))
             (CategoryRef.points_multiplier (CheckGroup.category (group self))))
    (records self).

Definition earned_points (self : t) : result number :=
  GroupType.calculate_earned_points (CheckGroup.type (group self))
    (num_mul (CheckGroup.points (group self))
             (CategoryRef.points_multiplier (CheckGroup.category (group self))))
    (records self).

Definition earned_points_percentage (self : t) : result pyfloat :=
  earned <- earned_points self ;;
  _calc_percentage earned (max_points self).

End GroupResult.

Module CategoryResult.

Record t : Type := mk {
  category : GroupCategory.t;
  groups : list GroupResult.t
}.

Definition total_checks_count (self : t) : Z :=
  py_sum_int (map GroupResult.total_checks_count (groups self)).

Definition passed_checks_count (self : t) : Z :=
  py_sum_int (map GroupResult.passed_checks_count (groups self)).

Definition failed_check_count (self : t) : Z :=
  py_sum_int (map GroupResult.failed_check_count (groups self)).

Definition max_points (self : t) : number :=
  py_sum (map GroupResult.max_points (groups self)).

Definition earned_points (self : t) : result number :=
  earned <- mapM GroupResult.earned_points (groups self) ;;
  Ok (py_sum earned).

Definition earned_points_percentage (self : t) : result pyfloat :=
  earned <- earned_points self ;;
  _calc_percentage earned (max_points self).

End CategoryResult.

Module ScoringResult.

Record t : Type := mk {
  categories : list CategoryResult.t
}.

Definition total_checks_count (self : t) : Z :=
  py_sum_int (map CategoryResult.total_checks_count (categories self)).

Definition passed_checks_count (self : t) : Z :=
  py_sum_int (map CategoryResult.passed_checks_count (categories self)).

Definition failed_check_count (self : t) : Z :=
  py_sum_int (map CategoryResult.failed_check_count (categories self)).

Definition max_points (self : t) : number :=
  py_sum (map CategoryResult.max_points (categories self)).

Definition earned_points (self : t) : result number :=
  earned <- mapM CategoryResult.earned_points (categories self) ;;
  Ok (py_sum earned).

Definition earned_points_percentage (self : t) : result pyfloat :=
  earned <- earned_points self ;;
  _calc_percentage earned (max_points self).

End ScoringResult.

(* ===================================================================== *)
(** * scoring.py *)
(* ===================================================================== *)

(** ** [dict] *)

Section Dict.

Variables K V : Type.
Variable key_eqb : K -> K -> bool.

(** The items of the dict, in insertion order. *)
Definition dict : Type := list (K * V).

(** [d[k]] *)
Fixpoint dict_get (d : dict) (k : K) : result V :=
  match d with
  | [] => Err KeyError
  | (k', v) :: d' => if key_eqb k' k then Ok v else dict_get d' k
  end.

(** [d[k] = v]: an equal key keeps its place (and the key object that
    was stored first), a new key goes to the end. *)
Fixpoint dict_set (d : dict) (k : K) (v : V) : dict :=
  match d with
  | [] => [(k, v)]
  | (k', v') :: d' =>
      if key_eqb k' k then (k', v) :: d' else (k', v') :: dict_set d' k v
  end.

(** [{k: v for k in keys}] *)
Definition dict_from_keys (keys : list K) (v : V) : dict :=
  fold_left (fun d k => dict_set d k v) keys [].

End Dict.

(** [d[k].append(x)]: the list bound to [k] is extended in place. *)
Definition dict_append {K A : Type} (key_eqb : K -> K -> bool)
    (d : dict K (list A)) (k : K) (x : A) : result (dict K (list A)) :=
  l <- dict_get key_eqb d k ;;
  Ok (dict_set key_eqb d k (l ++ [x])).

(** A [for] loop that updates local state and whose body may raise. *)
Fixpoint for_fold {A S : Type} (body : S -> A -> result S) (l : list A) (s : S)
    : result S :=
  match l with
  | [] => Ok s
  | a :: l' => s' <- body s a ;; for_fold body l' s'
  end.

(** ** [RecordGroupMatching] *)

Module RecordGroupMatching.

Record t : Type := mk {
  record_to_groups : dict LabResultRecord.t (list CheckGroup.t);
  group_to_records : dict CheckGroup.t (list LabResultRecord.t)
}.

Definition records_matching_multiple_groups (self : t) : list LabResultRecord.t :=
  map fst (filter (fun item => (len (snd item) >? 1)%Z) (record_to_groups self)).

Definition records_without_group (self : t) : list LabResultRecord.t :=
  map fst (filter (fun item => (len (snd item) =? 0)%Z) (record_to_groups self)).

Definition groups_without_records (self : t) : list CheckGroup.t :=
  map fst (filter (fun item => (len (snd item) =? 0)%Z) (group_to_records self)).

Definition create (config : ScoringConfig.t) (records : list LabResultRecord.t)
    : result t :=
  let result :=
    mk (dict_from_keys LabResultRecord.eqb records [])
       (dict_from_keys CheckGroup.eqb (ScoringConfig.groups config) []) in
  for_fold
    (fun result group =>
       for_fold
         (fun result record =>
            if CheckGroup.matches group record then
              r2g <- dict_append LabResultRecord.eqb (record_to_groups result) record group ;;
              g2r <- dict_append CheckGroup.eqb (group_to_records result) group record ;;
              Ok (mk r2g g2r)
            else Ok result)
         records result)
    (ScoringConfig.groups config) result.

End RecordGroupMatching.

(** ** The logger *)

(** [score] writes to the module's logger before it raises.  The state of
    the logger is the list of the lines written so far; a computation
    that may log and may raise takes that state and returns it with its
    result. *)
Definition logged (A : Type) : Type := list message -> result A * list message.

Definition lbind {A B : Type} (c : logged A) (k : A -> logged B) : logged B :=
  fun log =>
    match c log with
    | (Ok a, log') => k a log'
    | (Err e, log') => (Err e, log')
    end.

Definition lret {A : Type} (a : A) : logged A := fun log => (Ok a, log).
Definition lift {A : Type} (r : result A) : logged A := fun log => (r, log).
Definition raise {A : Type} (e : exn) : logged A := fun log => (Err e, log).

(** [_logger.error(msg)] *)
Definition logger_error (msg : message) : logged unit :=
  fun log => (Ok tt, log ++ [msg]).

Declare Scope logged_scope.
Delimit Scope logged_scope with logged.
Notation "x <- c ;; k" := (lbind c (fun x => k))
  (at level 61, c at next level, right associativity) : logged_scope.

(** ** [score] *)

Definition msg_multiple (record : LabResultRecord.t) (groups : list CheckGroup.t)
    : message :=
  [Text "Some CSV records match multiple check groups, for example: "]
  ++ LabResultRecord.repr record ++ [Text " -> "] ++ repr_groups groups.

Definition msg_without_group (record : LabResultRecord.t) : message :=
  [Text "Some CSV records didn't match any check groups, for example: "]
  ++ LabResultRecord.repr record.

Definition msg_without_records (group : CheckGroup.t) : message :=
  [Text "Some check groups didn't match any CSV records, for example: "]
  ++ CheckGroup.repr group.

Definition create_group_result (matching : RecordGroupMatching.t)
    (group : CheckGroup.t) : result GroupResult.t :=
  records <- dict_get CheckGroup.eqb (RecordGroupMatching.group_to_records matching) group ;;
  Ok (GroupResult.mk group records).

Definition create_category_result (matching : RecordGroupMatching.t)
    (category : GroupCategory.t) : result CategoryResult.t :=
  groups <- mapM (create_group_result matching) (GroupCategory.groups category) ;;
  Ok (CategoryResult.mk category groups).

(** Each test [len(xs) > 0] guards the use of [xs[0]]: both are the match
    on the list below. *)
Definition score (config : ScoringConfig.t) (records : list LabResultRecord.t)
    : logged ScoringResult.t :=
  (matching <- lift (RecordGroupMatching.create config records) ;;
   let r2g := RecordGroupMatching.record_to_groups matching in
   match RecordGroupMatching.records_matching_multiple_groups matching with
   | (record :: _) as multiple_groups =>
       _ <- logger_error [Text "The following CSV records match multiple checks groups:"] ;;
       parts <- lift (mapM (fun record =>
                              (groups <- dict_get LabResultRecord.eqb r2g record ;;
                               Ok ([Text "["] ++ LabResultRecord.repr record
                                   ++ [Text " -> "] ++ repr_groups groups
                                   ++ [Text "]"]))%result)
                           multiple_groups) ;;
       _ <- logger_error (join [Text ", "] parts) ;;
       groups <- lift (dict_get LabResultRecord.eqb r2g record) ;;
       raise (ValueError (msg_multiple record groups))
   | [] =>
   match RecordGroupMatching.records_without_group matching with
   | (record :: _) as without_group =>
       _ <- logger_error [Text "The following CSV records don't match any check groups:"] ;;
       _ <- logger_error (join [Text ", "] (map LabResultRecord.repr without_group)) ;;
       raise (ValueError (msg_without_group record))
   | [] =>
   match RecordGroupMatching.groups_without_records matching with
   | (group :: _) as without_records =>
       _ <- logger_error [Text "The following check groups don't match any CSV records:"] ;;
       _ <- logger_error (join [Text ", "] (map CheckGroup.repr without_records)) ;;
       raise (ValueError (msg_without_records group))
   | [] =>
       categories <- lift (mapM (create_category_result matching)
                                (ScoringConfig.categories config)) ;;
       lret (ScoringResult.mk categories)
   end end end)%logged.

(** The part of [score] that follows the matching, on its own: [score] is
    [create] followed by it. *)
Definition decide (config : ScoringConfig.t) (matching : RecordGroupMatching.t)
    : logged ScoringResult.t :=
  (let r2g := RecordGroupMatching.record_to_groups matching in
   match RecordGroupMatching.records_matching_multiple_groups matching with
   | (record :: _) as multiple_groups =>
       _ <- logger_error [Text "The following CSV records match multiple checks groups:"] ;;
       parts <- lift (mapM (fun record =>
                              (groups <- dict_get LabResultRecord.eqb r2g record ;;
                               Ok ([Text "["] ++ LabResultRecord.repr record
                                   ++ [Text " -> "] ++ repr_groups groups
                                   ++ [Text "]"]))%result)
                           multiple_groups) ;;
       _ <- logger_error (join [Text ", "] parts) ;;
       groups <- lift (dict_get LabResultRecord.eqb r2g record) ;;
       raise (ValueError (msg_multiple record groups))
   | [] =>
   match RecordGroupMatching.records_without_group matching with
   | (record :: _) as without_group =>
       _ <- logger_error [Text "The following CSV records don't match any check groups:"] ;;
       _ <- logger_error (join [Text ", "] (map LabResultRecord.repr without_group)) ;;
       raise (ValueError (msg_without_group record))
   | [] =>
   match RecordGroupMatching.groups_without_records matching with
   | (group :: _) as without_records =>
       _ <- logger_error [Text "The following check groups don't match any CSV records:"] ;;
       _ <- logger_error (join [Text ", "] (map CheckGroup.repr without_records)) ;;
       raise (ValueError (msg_without_records group))
   | [] =>
       categories <- lift (mapM (create_category_result matching)
                                (ScoringConfig.categories config)) ;;
       lret (ScoringResult.mk categories)
   end end end)%logged.

(** ** [score] with the list objects in a store *)

(** The lists of Python are objects that a call can change under the eyes
    of its caller.  Here the lists that [score] is given and the lists
    that it makes are held in a store, and [create], the one place of the
    code that changes a list, reads and writes them through their
    references.  The iteration over a list reads the list when the loop is
    entered. *)

Module Store.

Definition ref : Type := nat.

(** A [GroupCategory] object: its [groups] are a list object. *)
Record category : Type := mk_category {
  name : string;
  points_multiplier : number;
  groups : ref
}.

(** A [ScoringConfig] object: its [categories] are a list object. *)
Record config : Type := mk_config {
  categories : ref
}.

(** A [RecordGroupMatching] object: the values of its dicts are list
    objects. *)
Record matching : Type := mk_matching {
  record_to_groups : dict LabResultRecord.t ref;
  group_to_records : dict CheckGroup.t ref
}.

(** The list objects, by the type of their items; a reference is the
    place of the object. *)
Record t : Type := mk {
  record_lists : list (list LabResultRecord.t);
  group_lists : list (list CheckGroup.t);
  category_lists : list (list category)
}.

(** [lists[r].append(x)] *)
Fixpoint append_at {A : Type} (r : ref) (x : A) (lists : list (list A)) {struct lists}
    : list (list A) :=
  match lists, r with
  | [], _ => []
  | l :: rest, O => (l ++ [x]) :: rest
  | l :: rest, S r' => l :: append_at r' x rest
  end.

(** A computation that reads and changes the store and may raise. *)
Definition stored (A : Type) : Type := t -> result A * t.

Definition sbind {A B : Type} (c : stored A) (k : A -> stored B) : stored B :=
  fun st =>
    match c st with
    | (Ok a, st') => k a st'
    | (Err e, st') => (Err e, st')
    end.

Definition sret {A : Type} (a : A) : stored A := fun st => (Ok a, st).
Definition slift {A : Type} (r : result A) : stored A := fun st => (r, st).

Declare Scope stored_scope.
Delimit Scope stored_scope with stored.
Notation "x <- c ;; k" := (sbind c (fun x => k))
  (at level 61, c at next level, right associativity) : stored_scope.

Local Open Scope stored_scope.

(** A [for] loop. *)
Fixpoint sfor {A : Type} (l : list A) (body : A -> stored unit) : stored unit :=
  match l with
  | [] => sret tt
  | a :: l' => _ <- body a ;; sfor l' body
  end.

(** A comprehension. *)
Fixpoint smapM {A B : Type} (f : A -> stored B) (l : list A) : stored (list B) :=
  match l with
  | [] => sret []
  | a :: l' => b <- f a ;; bs <- smapM f l' ;; sret (b :: bs)
  end.

(** Reading a list object. *)
Definition read_records (r : ref) : stored (list LabResultRecord.t) :=
  fun st => (Ok (nth r (record_lists st) []), st).

Definition read_groups (r : ref) : stored (list CheckGroup.t) :=
  fun st => (Ok (nth r (group_lists st) []), st).

Definition read_categories (r : ref) : stored (list category) :=
  fun st => (Ok (nth r (category_lists st) []), st).

(** [[]]: a new list object. *)
Definition new_record_list : stored ref :=
  fun st =>
    (Ok (List.length (record_lists st)),
     mk (record_lists st ++ [[]]) (group_lists st) (category_lists st)).

Definition new_group_list : stored ref :=
  fun st =>
    (Ok (List.length (group_lists st)),
     mk (record_lists st) (group_lists st ++ [[]]) (category_lists st)).

(** [l.append(x)] *)
Definition append_record (l : ref) (x : LabResultRecord.t) : stored unit :=
  fun st =>
    (Ok tt, mk (append_at l x (record_lists st)) (group_lists st) (category_lists st)).

Definition append_group (l : ref) (x : CheckGroup.t) : stored unit :=
  fun st =>
    (Ok tt, mk (record_lists st) (append_at l x (group_lists st)) (category_lists st)).

(** The [groups] property of the configuration: a new list each time. *)
Definition config_groups (self : config) : stored (list CheckGroup.t) :=
  cats <- read_categories (categories self) ;;
  lists <- smapM (fun category => read_groups (groups category)) cats ;;
  sret (List.concat lists).

(** [{k: [] for k in keys}]: every key is given a new list; a key that
    comes again keeps its place and is given the newer list. *)
Fixpoint new_dict {K : Type} (key_eqb : K -> K -> bool) (new_list : stored ref)
    (keys : list K) (d : dict K ref) : stored (dict K ref) :=
  match keys with
  | [] => sret d
  | k :: keys' =>
      l <- new_list ;;
      new_dict key_eqb new_list keys' (dict_set key_eqb d k l)
  end.

(** [RecordGroupMatching.create(config, records)] *)
Definition create (config : config) (records : ref) : stored matching :=
  keys <- read_records records ;;
  r2g <- new_dict LabResultRecord.eqb new_group_list keys [] ;;
  keys <- config_groups config ;;
  g2r <- new_dict CheckGroup.eqb new_record_list keys [] ;;
  groups <- config_groups config ;;
  _ <- sfor groups
         (fun group =>
            items <- read_records records ;;
            sfor items
              (fun record =>
                 if CheckGroup.matches group record then
                   l <- slift (dict_get LabResultRecord.eqb r2g record) ;;
                   _ <- append_group l group ;;
                   l <- slift (dict_get CheckGroup.eqb g2r group) ;;
                   append_record l record
                 else sret tt)) ;;
  sret (mk_matching r2g g2r).

(** The values that a configuration, a list of records and a matching
    hold in a store. *)
Definition category_value (st : t) (c : category) : GroupCategory.t :=
  GroupCategory.mk (name c) (points_multiplier c) (nth (groups c) (group_lists st) []).

Definition config_value (st : t) (c : config) : ScoringConfig.t :=
  ScoringConfig.mk (map (category_value st) (nth (categories c) (category_lists st) [])).

Definition records_value (st : t) (r : ref) : list LabResultRecord.t :=
  nth r (record_lists st) [].

Definition matching_value (st : t) (m : matching) : RecordGroupMatching.t :=
  RecordGroupMatching.mk
    (map (fun item => (fst item, nth (snd item) (group_lists st) [])) (record_to_groups m))
    (map (fun item => (fst item, nth (snd item) (record_lists st) [])) (group_to_records m)).

(** [score(config, records)]: the matching is built in the store; what
    follows reads the lists and writes to the logger. *)
Definition score (config : config) (records : ref) (st : t) (log : list message)
    : result ScoringResult.t * t * list message :=
  match create config records st with
  | (Ok m, st') =>
      let (outcome, log') :=
        decide (config_value st' config) (matching_value st' m) log in
      (outcome, st', log')
  | (Err e, st') => (Err e, st', log)
  end.

(** The configuration and the records are objects of the store. *)
Definition holds (st : t) (config : config) (records : ref) : Prop :=
  (records < List.length (record_lists st))%nat
  /\ (categories config < List.length (category_lists st))%nat
  /\ forall c, In c (nth (categories config) (category_lists st) []) ->
               (groups c < List.length (group_lists st))%nat.

(** Every list object of [st] is in [st'], with the same items. *)
Definition unchanged (st st' : t) : Prop :=
  (exists new, record_lists st' = record_lists st ++ new)
  /\ (exists new, group_lists st' = group_lists st ++ new)
  /\ category_lists st' = category_lists st.

End Store.

(** ** [format_result] *)

(** [any(isinstance(group.earned_points, float) for ... )]: the scan stops
    at the first float it meets. *)
Fixpoint any_earned_float (groups : list GroupResult.t) : result bool :=
  match groups with
  | [] => Ok false
  | group :: rest =>
      earned <- GroupResult.earned_points group ;;
      if is_float earned then Ok true else any_earned_float rest
  end.

(** The inner function [fmt]. *)
Definition fmt (use_float : bool) (number : number) : piece :=
  if use_float then Fixed2 number else StrNum number.

(** The line appended by the inner function [append_group]. *)
Definition group_line (use_float : bool) (group : GroupResult.t) : result message :=
  earned <- GroupResult.earned_points group ;;
  percentage <- GroupResult.earned_points_percentage group ;;
  Ok [ Text " - "; Text (CheckGroup.name (GroupResult.group group)); Text ": ";
       fmt use_float earned; Text " out of ";
       fmt use_float (GroupResult.max_points group);
       Text " ("; Fixed2F percentage; Text "%)" ].

(** The lines appended by the inner function [append_category]. *)
Definition category_lines (use_float display_category_summary : bool)
    (cat : CategoryResult.t) : result (list message) :=
  let header :=
    [ Text (GroupCategory.name (CategoryResult.category cat)); Text ":" ] in
  header <-
    (if display_category_summary then
       earned <- CategoryResult.earned_points cat ;;
       percentage <- CategoryResult.earned_points_percentage cat ;;
       Ok (header ++ [ Text " "; fmt use_float earned; Text " out of ";
                       fmt use_float (CategoryResult.max_points cat);
                       Text " ("; Fixed2F percentage; Text "%)" ])
     else Ok header) ;;
  groups <- mapM (group_line use_float) (CategoryResult.groups cat) ;;
  Ok (header :: groups).

Definition format_result (scoring_result : ScoringResult.t) (show_all : bool)
    : result (list message) :=
  use_float <- any_earned_float
                 (flat_map CategoryResult.groups (ScoringResult.categories scoring_result)) ;;
  earned <- ScoringResult.earned_points scoring_result ;;
  percentage <- ScoringResult.earned_points_percentage scoring_result ;;
  let lines :=
    [ [Text "Summary:"];
      [Text "Points: "; fmt use_float earned];
      [Text "   Max: "; fmt use_float (ScoringResult.max_points scoring_result)];
      [Text "Result: "; Fixed2F percentage; Text "%"] ] in
  let shown_categories :=
    if show_all then ScoringResult.categories scoring_result
    else filter
           (fun cat =>
              negb (is_zero (GroupCategory.points_multiplier (CategoryResult.category cat))))
           (ScoringResult.categories scoring_result) in
  let display_category_summary := (len shown_categories >? 1)%Z in
  blocks <- mapM (fun category =>
                    ls <- category_lines use_float display_category_summary category ;;
                    Ok ([Text ""] :: ls))
                 shown_categories ;;
  Ok (lines ++ List.concat blocks).

Unset Implicit Arguments.

(* ===================================================================== *)
(** * Vocabulary of the properties and sample inputs *)
(* ===================================================================== *)

(** ** Sums and rounding *)

(** The sum of a list of integers, by recursion on the list. *)
Fixpoint Zsum (l : list Z) : Z :=
  match l with
  | [] => 0
  | x :: l' => x + Zsum l'
  end.

(** The sum of a list of rationals, by recursion on the list. *)
Fixpoint Qsum (l : list Q) : Q :=
  match l with
  | [] => 0%Q
  | x :: l' => (x + Qsum l')%Q
  end.

(** [z] is the floor of [x]. *)
Definition is_floor (x : Q) (z : Z) : Prop :=
  (inject_Z z <= x /\ x < inject_Z (z + 1))%Q.

(** [z] is [x] rounded to the nearest integer, a tie going to the even
    neighbour. *)
Definition is_round_half_even (x : Q) (z : Z) : Prop :=
  (Qabs (inject_Z z - x) <= 1 # 2)%Q
  /\ (Qabs (inject_Z z - x) == 1 # 2 -> Z.even z = true).

(** The pass ratio times the weight, as the specification writes it. *)
Definition LINEAR_formula (k n : Z) (w : number) : Q :=
  (inject_Z k / inject_Z n * to_Q w)%Q.

(** ** Patterns *)

(** [p] is a prefix of [s] that the pattern matches where it stands: with
    the rest of [s] after it. *)
Definition matched_prefix (r : regex) (s p : string) : Prop :=
  exists rest, s = (p ++ rest)%string /\ Matches r p rest.

(** ** Percentages *)

(** What the specification asks of the percentage [p] of [earned] out
    of [max]. *)
Definition percentage_of (earned max : number) (p : pyfloat) : Prop :=
  (p = nan <-> num_eq max (PyInt 0))
  /\ (~ num_eq max (PyInt 0) ->
      exists q, p = fin q /\ q == (to_Q earned / to_Q max * 100)%Q).

(** ** Configurations *)

Definition duplicate_category_names (categories : list GroupCategory.t) : Prop :=
  ~ NoDup (map GroupCategory.name categories).

Definition duplicate_group_names (categories : list GroupCategory.t) : Prop :=
  exists category,
    In category categories
    /\ ~ NoDup (map CheckGroup.name (GroupCategory.groups category)).

Definition empty_category (categories : list GroupCategory.t) : Prop :=
  exists category, In category categories /\ GroupCategory.groups category = [].

(** Every group refers back to the category that holds it. *)
Definition well_referenced (config : ScoringConfig.t) : Prop :=
  forall category group,
    In category (ScoringConfig.categories config) ->
    In group (GroupCategory.groups category) ->
    CheckGroup.category group = GroupCategory.ref category.

(** Whether the text of the message contains [name]. *)
Definition mentions (msg : message) (name : string) : bool :=
  existsb (fun p => match p with
                    | Text s | ReprStr s =>
                        match index 0 name s with Some _ => true | None => false end
                    | _ => false
                    end) msg.

(** ** Result trees and reports *)

(** Every group result of the tree. *)
Definition all_groups (r : ScoringResult.t) : list GroupResult.t :=
  flat_map CategoryResult.groups (ScoringResult.categories r).

(** Each group result holds at least one record, which is what the checks
    of [score] ensure. *)
Definition no_empty_group (r : ScoringResult.t) : Prop :=
  forall g, In g (all_groups r) -> GroupResult.records g <> [].

(** Some group result has earned points of type float. *)
Definition some_earned_is_float (groups : list GroupResult.t) : Prop :=
  exists g earned,
    In g groups /\ GroupResult.earned_points g = Ok earned /\ is_float earned = true.


(** ** Dicts *)

(** The keys of [keys] without the later repetitions of a key. *)
Definition first_occurrences {K : Type} (key_eqb : K -> K -> bool) (keys : list K) : list K :=
  fold_left (fun seen k => if existsb (fun k' => key_eqb k' k) seen then seen else seen ++ [k])
            keys [].

(** No two keys at different places of the list are equal. *)
Definition distinct_keys {K : Type} (key_eqb : K -> K -> bool) (keys : list K) : Prop :=
  ForallOrdPairs (fun a b => key_eqb a b = false) keys.

(** The dict in which the list bound to each key [k] has grown by [extra k]. *)
Definition extend {K A : Type} (d : dict K (list A)) (extra : K -> list A) : dict K (list A) :=
  map (fun item => (fst item, snd item ++ extra (fst item))) d.

(** The dict holds a key equal to [k]. *)
Definition has_key {K V : Type} (key_eqb : K -> K -> bool) (d : dict K V) (k : K) : Prop :=
  exists k', In k' (map fst d) /\ key_eqb k' k = true.

(** ** The matcher and [score] *)

(** The groups that [create] appends to the list of the record key [k]:
    one for every pair of a group and a record equal to [k] that the
    group matches, in the order of the two loops. *)
Definition groups_appended (groups : list CheckGroup.t) (records : list LabResultRecord.t)
    (k : LabResultRecord.t) : list CheckGroup.t :=
  flat_map
    (fun g =>
       flat_map (fun r => if CheckGroup.matches g r && LabResultRecord.eqb k r then [g] else [])
                records)
    groups.

(** The records that [create] appends to the list of the group key [k]. *)
Definition records_appended (groups : list CheckGroup.t) (records : list LabResultRecord.t)
    (k : CheckGroup.t) : list LabResultRecord.t :=
  flat_map (fun g => if CheckGroup.eqb k g then filter (CheckGroup.matches g) records else [])
           groups.

(** The body of the loop over the records, for the group [group]. *)
Definition match_record (group : CheckGroup.t) (matching : RecordGroupMatching.t)
    (record : LabResultRecord.t) : result RecordGroupMatching.t :=
  if CheckGroup.matches group record then
    bind (dict_append LabResultRecord.eqb (RecordGroupMatching.record_to_groups matching)
            record group)
      (fun r2g =>
         bind (dict_append CheckGroup.eqb (RecordGroupMatching.group_to_records matching)
                 group record)
           (fun g2r => Ok (RecordGroupMatching.mk r2g g2r)))
  else Ok matching.

(** Every record is matched by exactly one group of the configuration. *)
Definition each_record_has_one_group (config : ScoringConfig.t)
    (records : list LabResultRecord.t) : Prop :=
  forall record, In record records ->
    List.length (filter (fun group => CheckGroup.matches group record)
                        (ScoringConfig.groups config)) = 1%nat.

(** Every group of the configuration matches at least one record. *)
Definition each_group_has_a_record (config : ScoringConfig.t)
    (records : list LabResultRecord.t) : Prop :=
  forall group, In group (ScoringConfig.groups config) ->
    exists record, In record records /\ CheckGroup.matches group record = true.

(** The result of a scoring pass that passes the three checks. *)
Definition expected_result (config : ScoringConfig.t) (records : list LabResultRecord.t)
    : ScoringResult.t :=
  ScoringResult.mk
    (map (fun category =>
            CategoryResult.mk category
              (map (fun group =>
                      GroupResult.mk group (filter (CheckGroup.matches group) records))
                   (GroupCategory.groups category)))
         (ScoringConfig.categories config)).

(** The record keys that hold more than one group, the record keys that
    hold none, and the group keys that hold no record. *)
Definition ambiguous_records (config : ScoringConfig.t) (records : list LabResultRecord.t)
    : list LabResultRecord.t :=
  filter (fun k => (len (groups_appended (ScoringConfig.groups config) records k) >? 1)%Z)
         (first_occurrences LabResultRecord.eqb records).

Definition unmatched_records (config : ScoringConfig.t) (records : list LabResultRecord.t)
    : list LabResultRecord.t :=
  filter (fun k => (len (groups_appended (ScoringConfig.groups config) records k) =? 0)%Z)
         (first_occurrences LabResultRecord.eqb records).

Definition unused_groups (config : ScoringConfig.t) (records : list LabResultRecord.t)
    : list CheckGroup.t :=
  filter (fun k => (len (records_appended (ScoringConfig.groups config) records k) =? 0)%Z)
         (first_occurrences CheckGroup.eqb (ScoringConfig.groups config)).

(** The result that [score] returns when the three lists are empty. *)
Definition scored (config : ScoringConfig.t) (records : list LabResultRecord.t)
    : ScoringResult.t :=
  ScoringResult.mk
    (map (fun category =>
            CategoryResult.mk category
              (map (fun group =>
                      GroupResult.mk group
                        (records_appended (ScoringConfig.groups config) records group))
                   (GroupCategory.groups category)))
         (ScoringConfig.categories config)).

(** What [score] returns and what it writes to the logger. *)
Definition score_outcome (config : ScoringConfig.t) (records : list LabResultRecord.t)
    : result ScoringResult.t * list message :=
  let groups := ScoringConfig.groups config in
  match ambiguous_records config records with
  | record :: _ =>
      (Err (ValueError (msg_multiple record (groups_appended groups records record))),
       [ [Text "The following CSV records match multiple checks groups:"];
         join [Text ", "]
           (map (fun record =>
                   [Text "["] ++ LabResultRecord.repr record ++ [Text " -> "]
                   ++ repr_groups (groups_appended groups records record) ++ [Text "]"])
                (ambiguous_records config records)) ])
  | [] =>
  match unmatched_records config records with
  | record :: _ =>
      (Err (ValueError (msg_without_group record)),
       [ [Text "The following CSV records don't match any check groups:"];
         join [Text ", "] (map LabResultRecord.repr (unmatched_records config records)) ])
  | [] =>
  match unused_groups config records with
  | group :: _ =>
      (Err (ValueError (msg_without_records group)),
       [ [Text "The following check groups don't match any CSV records:"];
         join [Text ", "] (map CheckGroup.repr (unused_groups config records)) ])
  | [] => (Ok (scored config records), [])
  end end end.

(** ** Results and reports, continued *)

(** The weight of the group of a result: its points times the multiplier
    of its category. *)
Definition weight (g : GroupResult.t) : number :=
  num_mul (CheckGroup.points (GroupResult.group g))
          (CategoryRef.points_multiplier (CheckGroup.category (GroupResult.group g))).

(** The groups of the configuration that match the record, in the order
    of the configuration. *)
Definition groups_matching (config : ScoringConfig.t) (record : LabResultRecord.t)
    : list CheckGroup.t :=
  filter (fun group => CheckGroup.matches group record) (ScoringConfig.groups config).

(** The categories that the report shows: all of them with [show_all],
    otherwise those whose multiplier is not zero. *)
Definition shown_categories (r : ScoringResult.t) (show_all : bool) : list CategoryResult.t :=
  if show_all then ScoringResult.categories r
  else filter
         (fun cat =>
            negb (is_zero (GroupCategory.points_multiplier (CategoryResult.category cat))))
         (ScoringResult.categories r).


(** Two group results of the same group with as many records and as many
    passed records, two category results of the same category whose group
    results are such, and two results whose category results are such. *)
Definition similar_group (g g' : GroupResult.t) : Prop :=
  GroupResult.group g = GroupResult.group g'
  /\ len (GroupResult.records g) = len (GroupResult.records g')
  /\ GroupType.count_passed (GroupResult.records g)
     = GroupType.count_passed (GroupResult.records g').

Definition similar_category (c c' : CategoryResult.t) : Prop :=
  CategoryResult.category c = CategoryResult.category c'
  /\ Forall2 similar_group (CategoryResult.groups c) (CategoryResult.groups c').

Definition similar_result (r r' : ScoringResult.t) : Prop :=
  Forall2 similar_category (ScoringResult.categories r) (ScoringResult.categories r').

(** ** The store *)

(** The dict whose values are the items of the list objects. *)
Definition dict_value {K A : Type} (lists : list (list A)) (d : dict K Store.ref)
    : dict K (list A) :=
  map (fun item => (fst item, nth (snd item) lists [])) d.

(** The keys of a dict comprehension that goes on from the keys [seen]. *)
Definition seen_keys {K : Type} (key_eqb : K -> K -> bool) (keys seen : list K) : list K :=
  fold_left (fun seen k => if existsb (fun k' => key_eqb k' k) seen then seen else seen ++ [k])
            keys seen.

(** The references of a dict are different from one another and are
    objects that lie from [base] on, among [size] objects. *)
Definition fresh_refs {K : Type} (base size : nat) (d : dict K Store.ref) : Prop :=
  NoDup (map snd d)
  /\ forall r, In r (map snd d) -> (base <= r < size)%nat.

(** The state of the store while the matching [m] is filled: the objects
    of [st0] are as they were, and the lists of [m] are objects made
    since, one for each key. *)
Definition kept (st0 st : Store.t) (m : Store.matching) : Prop :=
  Store.unchanged st0 st
  /\ fresh_refs (List.length (Store.group_lists st0)) (List.length (Store.group_lists st))
                (Store.record_to_groups m)
  /\ fresh_refs (List.length (Store.record_lists st0)) (List.length (Store.record_lists st))
                (Store.group_to_records m).

(** A step in the store does what the step on values does. *)
Definition simulates (st0 : Store.t) (m : Store.matching) (out : result unit * Store.t)
    (pure : result RecordGroupMatching.t) : Prop :=
  match fst out with
  | Ok _ => kept st0 (snd out) m /\ pure = Ok (Store.matching_value (snd out) m)
  | Err e => Store.unchanged st0 (snd out) /\ pure = Err e
  end.

(** The body of the loop over the records, in the store. *)
Definition store_match_record (m : Store.matching) (group : CheckGroup.t)
    (record : LabResultRecord.t) : Store.stored unit :=
  if CheckGroup.matches group record then
    Store.sbind (Store.slift (dict_get LabResultRecord.eqb (Store.record_to_groups m) record))
      (fun l =>
         Store.sbind (Store.append_group l group)
           (fun _ =>
              Store.sbind
                (Store.slift (dict_get CheckGroup.eqb (Store.group_to_records m) group))
                (fun l => Store.append_record l record)))
  else Store.sret tt.

(** ** Sample inputs *)

Definition connectivity : CategoryRef.t := CategoryRef.mk "connectivity" (PyInt 1).

Definition doubled : CategoryRef.t := CategoryRef.mk "connectivity" (PyInt 2).

Definition routing : CategoryRef.t := CategoryRef.mk "routing" (PyInt 1).

Definition ping_group : CheckGroup.t :=
  CheckGroup.mk "ping" GroupType.EACH (literal "ping") (PyInt 5) connectivity.

Definition ssh_group : CheckGroup.t :=
  CheckGroup.mk "ssh" GroupType.ALL (literal "ssh") (PyInt 8) connectivity.

(** The ping group with the pattern [ping$]. *)
Definition ping_end_group : CheckGroup.t :=
  CheckGroup.mk "ping" GroupType.EACH (Seq (literal "ping") EndOfString) (PyInt 5)
                connectivity.

(** A second group whose pattern also matches the ping records. *)
Definition p_group : CheckGroup.t :=
  CheckGroup.mk "p" GroupType.ANY (literal "p") (PyInt 1) connectivity.

Definition ospf_group : CheckGroup.t :=
  CheckGroup.mk "ospf" GroupType.ALL (literal "ospf") (PyInt 8) routing.

(** A group whose earned points are the float 10.0. *)
Definition linear_group : CheckGroup.t :=
  CheckGroup.mk "ping" GroupType.LINEAR (literal "ping") (PyInt 10) connectivity.

Definition ping_record : LabResultRecord.t :=
  LabResultRecord.mk "ping from A to B" true "".

Definition ssh_record : LabResultRecord.t :=
  LabResultRecord.mk "ssh to A" true "".

Definition one_passed : LabResultRecord.t :=
  LabResultRecord.mk "ping from A to B" true "".

Definition one_failed : LabResultRecord.t :=
  LabResultRecord.mk "ping from A to C" false "timeout".

Definition one_of_two : list LabResultRecord.t := [one_passed; one_failed].

Definition two_of_three : list LabResultRecord.t := [one_passed; one_failed; one_passed].


Definition passed_record (description : string) : LabResultRecord.t :=
  LabResultRecord.mk description true "".

Definition failed_record (description : string) : LabResultRecord.t :=
  LabResultRecord.mk description false "no reply".

Definition ping_only_config : ScoringConfig.t :=
  ScoringConfig.mk [GroupCategory.mk "connectivity" (PyInt 1) [ping_group]].

Definition two_group_config : ScoringConfig.t :=
  ScoringConfig.mk [GroupCategory.mk "connectivity" (PyInt 1) [ping_group; ssh_group]].

Definition overlapping_config : ScoringConfig.t :=
  ScoringConfig.mk [GroupCategory.mk "connectivity" (PyInt 1) [ping_group; p_group]].


Definition linear_result : ScoringResult.t :=
  ScoringResult.mk
    [CategoryResult.mk (GroupCategory.mk "connectivity" (PyInt 1) [linear_group])
                       [GroupResult.mk linear_group [ping_record]]].

(** A category without groups, and another one under another name. *)
Definition empty_routing : list GroupCategory.t :=
  [ GroupCategory.mk "connectivity" (PyInt 1) [ping_group];
    GroupCategory.mk "routing" (PyInt 1) [] ].

Definition empty_services : list GroupCategory.t :=
  [ GroupCategory.mk "connectivity" (PyInt 1) [ping_group];
    GroupCategory.mk "services" (PyInt 1) [] ].

(** Two categories under the same name. *)
Definition routing_twice : list GroupCategory.t :=
  [ GroupCategory.mk "routing" (PyInt 1) [ospf_group];
    GroupCategory.mk "routing" (PyInt 2) [ospf_group] ].

(** Two groups under the same name in a category. *)
Definition ospf_twice : list GroupCategory.t :=
  [ GroupCategory.mk "routing" (PyInt 1) [ospf_group; ospf_group] ].

(** Multiplier 2, a LINEAR group of 10 points, 2 records passed out of 3. *)
Definition scenario_1 : GroupResult.t :=
  GroupResult.mk
    (CheckGroup.mk "ping" GroupType.LINEAR (literal "ping") (PyInt 10) doubled)
    [passed_record "ping a"; passed_record "ping b"; failed_record "ping c"].

(** Multiplier 1, an EACH group of 5 points, 3 records passed out of 4. *)
Definition scenario_2 : GroupResult.t :=
  GroupResult.mk ping_group
    [passed_record "ping a"; passed_record "ping b"; passed_record "ping c";
     failed_record "ping d"].

(** Multiplier 1, an ALL group of 8 points, 4 records. *)
Definition scenario_3 (last_passed : bool) : GroupResult.t :=
  GroupResult.mk ssh_group
    [passed_record "ssh a"; passed_record "ssh b"; passed_record "ssh c";
     LabResultRecord.mk "ssh d" last_passed ""].



(** A configuration of two categories. *)
Definition two_category_config : ScoringConfig.t :=
  ScoringConfig.mk
    [ GroupCategory.mk "connectivity" (PyInt 1) [ping_group; ssh_group];
      GroupCategory.mk "routing" (PyInt 1) [ospf_group] ].

(** A store with a configuration of two groups and one record. *)
Definition sample_store : Store.t :=
  Store.mk [[ping_record]] [[ping_group; ssh_group]]
           [[Store.mk_category "connectivity" (PyInt 1) 0%nat]].

(* ===================================================================== *)
(** * Properties *)
(* ===================================================================== *)

(** ** Numbers *)

Lemma to_Q_num_mul (a b : number) : to_Q (num_mul a b) == to_Q a * to_Q b.
Proof.
  destruct a, b; simpl; try reflexivity.
Qed.

Lemma to_Q_num_add (a b : number) : to_Q (num_add a b) == to_Q a + to_Q b.
Proof.
  destruct a, b; simpl; try reflexivity.
  rewrite inject_Z_plus. reflexivity.
Qed.

Lemma is_zero_spec (a : number) : is_zero a = true <-> to_Q a == 0.
Proof. unfold is_zero, num_eqb. simpl. apply Qeq_bool_iff. Qed.

Lemma fold_left_Zadd (l : list Z) (a : Z) : fold_left Z.add l a = a + Zsum l.
Proof.
  revert a. induction l as [|x l IH]; intros a; simpl.
  - lia.
  - rewrite IH. lia.
Qed.

Lemma py_sum_int_Zsum (l : list Z) : py_sum_int l = Zsum l.
Proof. unfold py_sum_int. rewrite fold_left_Zadd. lia. Qed.

Lemma fold_left_num_add (l : list number) (a : number) :
  to_Q (fold_left num_add l a) == to_Q a + Qsum (map to_Q l).
Proof.
  revert a. induction l as [|x l IH]; intros a; simpl.
  - lra.
  - rewrite IH, to_Q_num_add. lra.
Qed.

Lemma py_sum_Qsum (l : list number) : to_Q (py_sum l) == Qsum (map to_Q l).
Proof. unfold py_sum. rewrite fold_left_num_add. change (to_Q (PyInt 0)) with 0%Q. lra. Qed.

Lemma Zsum_ones {A : Type} (l : list A) : Zsum (map (fun _ => 1) l) = len l.
Proof.
  unfold len. induction l as [|x l IH]; cbn [map Zsum List.length]; [reflexivity|].
  rewrite IH. lia.
Qed.

Lemma count_passed_filter (records : list LabResultRecord.t) :
  GroupType.count_passed records = len (filter LabResultRecord.passed records).
Proof. unfold GroupType.count_passed. rewrite py_sum_int_Zsum. apply Zsum_ones. Qed.

Lemma count_passed_bounds (records : list LabResultRecord.t) :
  0 <= GroupType.count_passed records <= len records.
Proof.
  rewrite count_passed_filter. unfold len.
  pose proof (filter_length_le LabResultRecord.passed records). lia.
Qed.

Lemma len_pos {A : Type} (l : list A) : l <> [] -> 1 <= len l.
Proof. destruct l; [congruence|]. unfold len. simpl List.length. lia. Qed.

(** ** Rounding *)

Lemma py_floor_spec (x : Q) : is_floor x (py_floor x).
Proof. split; [apply Qfloor_le | apply Qlt_floor]. Qed.

Lemma py_round_spec (x : Q) : is_round_half_even x (py_round x).
Proof.
  unfold is_round_half_even, py_round.
  pose proof (Qfloor_le x) as Hlo. pose proof (Qlt_floor x) as Hhi.
  rewrite inject_Z_plus in Hhi.
  change (inject_Z 1) with 1%Q in Hhi.
  generalize dependent (Qfloor x). intros f Hlo Hhi.
  destruct (Qcompare_spec (x - inject_Z f) (1 # 2)) as [He|Hl|Hg].
  - assert (Hf : Z.even (if Z.even f then f else f + 1) = true).
    { destruct (Z.even f) eqn:E; [exact E|].
      rewrite Z.even_add, E. reflexivity. }
    split; [|intros _; exact Hf].
    destruct (Z.even f).
    + apply Qabs_Qle_condition. split; lra.
    + rewrite inject_Z_plus. change (inject_Z 1) with 1%Q.
      apply Qabs_Qle_condition. split; lra.
  - split.
    + apply Qabs_Qle_condition. split; lra.
    + intros Ht. exfalso. revert Ht. apply Qabs_case; intros; lra.
  - rewrite inject_Z_plus. change (inject_Z 1) with 1%Q. split.
    + apply Qabs_Qle_condition. split; lra.
    + intros Ht. exfalso. revert Ht. apply Qabs_case; intros; lra.
Qed.



(** ** The scoring formulas *)

Lemma ratio_bounds (k n : Z) :
  0 <= k <= n -> 1 <= n -> (0 <= inject_Z k / inject_Z n <= 1)%Q.
Proof.
  intros Hk Hn.
  assert (Hn' : (0 < inject_Z n)%Q) by (change 0%Q with (inject_Z 0); rewrite <- Zlt_Qlt; lia).
  assert (Hk0 : (0 <= inject_Z k)%Q) by (change 0%Q with (inject_Z 0); rewrite <- Zle_Qle; lia).
  assert (Hkn : (inject_Z k <= inject_Z n)%Q) by (rewrite <- Zle_Qle; lia).
  split.
  - apply Qle_shift_div_l; [assumption | lra].
  - apply Qle_shift_div_r; [assumption | lra].
Qed.

Lemma LINEAR_formula_bounds (k n : Z) (w : number) :
  0 <= k <= n -> 1 <= n -> (0 <= to_Q w)%Q ->
  (0 <= LINEAR_formula k n w <= to_Q w)%Q.
Proof.
  intros Hk Hn Hw. unfold LINEAR_formula.
  destruct (ratio_bounds k n Hk Hn) as [H0 H1].
  generalize dependent (inject_Z k / inject_Z n)%Q. intros r H0 H1.
  split; nra.
Qed.

Lemma int_truediv_ok (k n : Z) :
  1 <= n -> int_truediv k n = Ok (inject_Z k / inject_Z n)%Q.
Proof.
  intros Hn. unfold int_truediv.
  destruct (Z.eqb_spec n 0); [lia | reflexivity].
Qed.

(** C1 (as amended).  For a weight [w >= 0] and a list of [n >= 1] records
    of which [k] passed, the earned points are computed without an
    exception and are at most the maximum points, for EACH, LINEAR,
    LINEAR_FLOORED, ALL and ANY, and for LINEAR_ROUNDED when [w] is a whole
    number.  ([0 <= k <= n] holds of every list: [count_passed_bounds].) *)
Theorem earned_points_le_max_points (self : GroupType.t) (w : number)
    (records : list LabResultRecord.t) :
  (0 <= to_Q w)%Q ->
  records <> [] ->
  (self = GroupType.LINEAR_ROUNDED -> integral w) ->
  exists earned,
    GroupType.calculate_earned_points self w records = Ok earned
    /\ num_le earned (GroupType.calculate_max_points self w records).
Proof.
  intros Hw Hne Hint.
  pose proof (count_passed_bounds records) as Hk.
  pose proof (len_pos records Hne) as Hn.
  pose proof (LINEAR_formula_bounds _ _ w Hk Hn Hw) as [Hl0 Hl1].
  unfold LINEAR_formula in Hl0, Hl1.
  unfold GroupType.calculate_earned_points, GroupType.calculate_max_points, num_le.
  rewrite (int_truediv_ok _ _ Hn). cbn [bind].
  destruct self.
  - (* EACH *)
    eexists; split; [reflexivity|].
    rewrite !to_Q_num_mul. cbn [to_Q].
    assert ((inject_Z (GroupType.count_passed records) <= inject_Z (len records))%Q)
      by (rewrite <- Zle_Qle; lia).
    nra.
  - (* LINEAR *)
    eexists; split; [reflexivity|]. exact Hl1.
  - (* LINEAR_ROUNDED *)
    eexists; split; [reflexivity|]. cbn [to_Q].
    destruct (Hint eq_refl) as [W HW].
    set (linear := (inject_Z (GroupType.count_passed records) / inject_Z (len records)
                    * to_Q w)%Q) in *.
    destruct (py_round_spec linear) as [Hr _].
    apply Qabs_Qle_condition in Hr.
    generalize dependent (py_round linear). intros z Hr.
    assert (Hz : (inject_Z z < inject_Z W + 1)%Q) by lra.
    change 1%Q with (inject_Z 1) in Hz.
    rewrite <- inject_Z_plus, <- Zlt_Qlt in Hz.
    rewrite HW, <- Zle_Qle. lia.
  - (* LINEAR_FLOORED *)
    eexists; split; [reflexivity|]. cbn [to_Q].
    set (linear := (inject_Z (GroupType.count_passed records) / inject_Z (len records)
                    * to_Q w)%Q) in *.
    pose proof (Qfloor_le linear). unfold py_floor. lra.
  - (* ALL *)
    eexists; split; [reflexivity|].
    destruct (GroupType.count_passed records =? len records)%Z; cbn [to_Q]; [lra|].
    change (inject_Z 0) with 0%Q. lra.
  - (* ANY *)
    eexists; split; [reflexivity|].
    destruct (GroupType.count_passed records >=? 1)%Z; cbn [to_Q]; [lra|].
    change (inject_Z 0) with 0%Q. lra.
Qed.

Lemma earned_points_le_max_points_witness :
  (0 <= to_Q (PyInt 10))%Q
  /\ two_of_three <> []
  /\ exists earned,
       GroupType.calculate_earned_points GroupType.LINEAR_ROUNDED (PyInt 10) two_of_three
       = Ok earned
       /\ num_le earned
            (GroupType.calculate_max_points GroupType.LINEAR_ROUNDED (PyInt 10) two_of_three).
Proof.
  split; [vm_compute; discriminate|]. split; [discriminate|].
  apply (earned_points_le_max_points GroupType.LINEAR_ROUNDED (PyInt 10)).
  - vm_compute; discriminate.
  - discriminate.
  - intros _. exists 10. reflexivity.
Defined.

(** C1 as stated fails: LINEAR_ROUNDED, weight 1.5, one record that
    passed.  [round(1.5)] is 2, above the maximum 1.5. *)
Lemma rounded_earned_exceeds_max :
  (0 <= to_Q (PyFloat (3 # 2)))%Q
  /\ [one_passed] <> []
  /\ GroupType.calculate_earned_points GroupType.LINEAR_ROUNDED (PyFloat (3 # 2)) [one_passed]
     = Ok (PyInt 2)
  /\ GroupType.calculate_max_points GroupType.LINEAR_ROUNDED (PyFloat (3 # 2)) [one_passed]
     = PyFloat (3 # 2)
  /\ ~ num_le (PyInt 2) (PyFloat (3 # 2)).
Proof.
  split; [vm_compute; discriminate|]. split; [discriminate|].
  split; [reflexivity|]. split; [reflexivity|].
  vm_compute. intros H. apply H. reflexivity.
Qed.

(** With exact numbers and at least one record, LINEAR earns
    [(k / n) * w]; LINEAR_ROUNDED earns the integer nearest to it, a tie
    going to the even neighbour; LINEAR_FLOORED earns the greatest integer
    below or equal to it; the maximum of both is [w]. *)
Lemma exact_linear_rounded_and_floored (w : number) (records : list LabResultRecord.t) :
  records <> [] ->
  let linear := LINEAR_formula (GroupType.count_passed records) (len records) w in
  GroupType.calculate_earned_points GroupType.LINEAR w records = Ok (PyFloat linear)
  /\ (exists z,
        GroupType.calculate_earned_points GroupType.LINEAR_ROUNDED w records = Ok (PyInt z)
        /\ is_round_half_even linear z)
  /\ (exists z,
        GroupType.calculate_earned_points GroupType.LINEAR_FLOORED w records = Ok (PyInt z)
        /\ is_floor linear z)
  /\ GroupType.calculate_max_points GroupType.LINEAR_ROUNDED w records = w
  /\ GroupType.calculate_max_points GroupType.LINEAR_FLOORED w records = w.
Proof.
  intros Hne linear.
  pose proof (len_pos records Hne) as Hn.
  unfold GroupType.calculate_earned_points. rewrite (int_truediv_ok _ _ Hn). cbn [bind].
  fold linear. repeat split.
  - exists (py_round linear). split; [reflexivity | apply py_round_spec].
  - exists (py_floor linear). split; [reflexivity | apply py_floor_spec].
Qed.

(** On the floats of the machine the two strategies round and floor the
    float that LINEAR returns, which is [k / n] rounded to a float, times
    [w], rounded again. *)
Lemma rounded_and_floored_of_the_float (w : Binary64.number)
    (records : list LabResultRecord.t) (x : spec_float) :
  Binary64.calculate_earned_points GroupType.LINEAR w records = Ok (Binary64.Float x) ->
  Binary64.calculate_earned_points GroupType.LINEAR_ROUNDED w records
  = (z <- Binary64.float_to_int py_round x ;; Ok (Binary64.Int z))
  /\ Binary64.calculate_earned_points GroupType.LINEAR_FLOORED w records
     = (z <- Binary64.float_to_int py_floor x ;; Ok (Binary64.Int z)).
Proof.
  unfold Binary64.calculate_earned_points.
  destruct (Binary64.int_truediv _ _) as [ratio|]; cbn [bind]; [|discriminate].
  destruct (Binary64.mul _ w) as [[z|y]|]; cbn [bind]; try discriminate.
  intros [= ->]. split; reflexivity.
Qed.


(** Every pair [(k, n)] with [0 <= k <= n] and [n >= 1] is the pair of
    counts of a list of records. *)
Lemma counts_are_realised (k n : nat) :
  (k <= n)%nat -> (1 <= n)%nat ->
  exists records,
    records <> []
    /\ GroupType.count_passed records = Z.of_nat k
    /\ len records = Z.of_nat n.
Proof.
  intros Hk Hn. exists (repeat one_passed k ++ repeat one_failed (n - k)).
  split; [|split].
  - destruct k; [|discriminate]. destruct n; [lia|discriminate].
  - rewrite count_passed_filter, filter_app. unfold len. rewrite length_app.
    replace (filter LabResultRecord.passed (repeat one_passed k)) with (repeat one_passed k).
    + replace (filter LabResultRecord.passed (repeat one_failed (n - k)))
        with (@nil LabResultRecord.t).
      * rewrite repeat_length. simpl. lia.
      * induction (n - k)%nat; simpl; auto.
    + induction k; simpl; [reflexivity|]. rewrite <- IHk; [reflexivity | lia].
  - unfold len. rewrite length_app, !repeat_length. lia.
Qed.

(** Ties go to the even neighbour, in both directions, and the floor of a
    negative number is below it. *)
Example rounding_examples :
  py_round (5 # 2) = 2 /\ py_round (7 # 2) = 4 /\ py_round (-5 # 2) = -2
  /\ py_round (13 # 5) = 3 /\ py_floor (7 # 2) = 3 /\ py_floor (-7 # 2) = -4.
Proof. repeat split; reflexivity. Qed.

(** The weight 7 on one record passed out of two: 3.5 rounds to 4 and
    floors to 3. *)
Example half_of_seven :
  GroupType.calculate_earned_points GroupType.LINEAR_ROUNDED (PyInt 7) one_of_two = Ok (PyInt 4)
  /\ GroupType.calculate_earned_points GroupType.LINEAR_FLOORED (PyInt 7) one_of_two
     = Ok (PyInt 3).
Proof. split; reflexivity. Qed.

(** ** Patterns *)

Lemma append_empty_r (s : string) : (s ++ "")%string = s.
Proof. induction s as [|c s IH]; simpl; [reflexivity | now rewrite IH]. Qed.

Lemma append_assoc (s1 s2 s3 : string) :
  ((s1 ++ s2) ++ s3)%string = (s1 ++ (s2 ++ s3))%string.
Proof. induction s1 as [|c s1 IH]; simpl; [reflexivity | now rewrite IH]. Qed.

Lemma append_is_empty (s1 s2 : string) :
  (s1 ++ s2)%string = "" -> s1 = "" /\ s2 = "".
Proof. destruct s1; simpl; [auto | discriminate]. Qed.

Lemma append_is_String (s1 s2 : string) (c : ascii) (s : string) :
  (s1 ++ s2)%string = String c s ->
  (s1 = "" /\ s2 = String c s)
  \/ (exists s1', s1 = String c s1' /\ s = (s1' ++ s2)%string).
Proof.
  destruct s1 as [|d s1']; simpl; intros H.
  - left. auto.
  - right. injection H as -> <-. eauto.
Qed.

Lemma nullable_Matches (r : regex) (rest : string) :
  nullable rest r = true -> Matches r "" rest.
Proof.
  induction r; simpl; intros H; try discriminate.
  - constructor.
  - constructor. assumption.
  - apply andb_true_iff in H as [H1 H2].
    change "" with ("" ++ "")%string. constructor; auto.
  - apply orb_true_iff in H as [H|H]; [apply MOrL | apply MOrR]; auto.
  - constructor.
Qed.

Lemma Matches_nullable (r : regex) (s rest : string) :
  Matches r s rest -> s = "" -> nullable rest r = true.
Proof.
  induction 1; simpl; intros E; try discriminate; try reflexivity.
  - assumption.
  - apply append_is_empty in E as [-> ->]. cbn [append] in IHMatches1.
    rewrite IHMatches1, IHMatches2; auto.
  - rewrite IHMatches; auto.
  - rewrite IHMatches; auto using orb_true_r.
Qed.

Lemma nullable_spec (r : regex) (rest : string) :
  nullable rest r = true <-> Matches r "" rest.
Proof.
  split; [apply nullable_Matches | intros H; exact (Matches_nullable r "" rest H eq_refl)].
Qed.

(** A non-empty match of [r*] starts with a non-empty match of [r]. *)
Lemma Matches_Many_String (r0 : regex) (s0 rest : string) :
  Matches r0 s0 rest ->
  forall r c s, r0 = Many r -> s0 = String c s ->
  exists s1 s2,
    s = (s1 ++ s2)%string
    /\ Matches r (String c s1) (s2 ++ rest)%string /\ Matches (Many r) s2 rest.
Proof.
  induction 1; intros r' c' s' Er Es; try discriminate.
  injection Er as ->.
  apply append_is_String in Es as [[-> ->] | [s1' [-> ->]]].
  - apply IHMatches2; reflexivity.
  - exists s1', s2. auto.
Qed.

Lemma deriv_sound (r : regex) :
  forall c s rest,
    Matches (deriv c (s ++ rest) r) s rest -> Matches r (String c s) rest.
Proof.
  induction r; intros c' s rest H; simpl in H.
  - inversion H.
  - inversion H.
  - destruct (Ascii.eqb_spec c' c) as [->|]; inversion H; subst. constructor.
  - destruct (Ascii.eqb_spec c' newline) as [->|]; inversion H; subst.
    constructor; assumption.
  - inversion H.
  - destruct (nullable (String c' (s ++ rest)) r1) eqn:N.
    + inversion H as [| | | | | ? ? ? ? H1 | ? ? ? ? H2 | |]; subst.
      * inversion H1 as [| | | | ? ? s1 s2 ? H3 H4 | | | |]; subst.
        change (String c' (s1 ++ s2)) with (String c' s1 ++ s2)%string.
        constructor; [|assumption]. apply IHr1. rewrite <- append_assoc. assumption.
      * change (String c' s) with ("" ++ String c' s)%string.
        constructor; [apply nullable_Matches; assumption | auto].
    + inversion H as [| | | | ? ? s1 s2 ? H3 H4 | | | |]; subst.
      change (String c' (s1 ++ s2)) with (String c' s1 ++ s2)%string.
      constructor; [|assumption]. apply IHr1. rewrite <- append_assoc. assumption.
  - inversion H; subst; [apply MOrL | apply MOrR]; auto.
  - inversion H as [| | | | ? ? s1 s2 ? H3 H4 | | | |]; subst.
    change (String c' (s1 ++ s2)) with (String c' s1 ++ s2)%string.
    constructor; [|assumption]. apply IHr. rewrite <- append_assoc. assumption.
Qed.

Lemma deriv_complete (r : regex) :
  forall c s rest,
    Matches r (String c s) rest -> Matches (deriv c (s ++ rest) r) s rest.
Proof.
  induction r; intros c' s rest H; simpl.
  - inversion H.
  - inversion H.
  - inversion H; subst. rewrite Ascii.eqb_refl. constructor.
  - inversion H; subst.
    destruct (Ascii.eqb_spec c' newline); [contradiction | constructor].
  - inversion H.
  - inversion H as [| | | | ? ? s1 s2 ? H1 H2 Er Es | | | |]; subst.
    apply append_is_String in Es as [[-> ->] | [s1' [-> ->]]].
    + cbn [append] in H1. rewrite (Matches_nullable r1 "" _ H1 eq_refl). apply MOrR. auto.
    + assert (H1' : Matches (deriv c' (s1' ++ s2 ++ rest) r1) s1' (s2 ++ rest))
        by (apply IHr1; assumption).
      rewrite <- append_assoc in H1'.
      destruct (nullable _ r1); [apply MOrL|]; constructor; auto.
  - inversion H; subst; [apply MOrL | apply MOrR]; auto.
  - destruct (Matches_Many_String _ _ _ H r c' s eq_refl eq_refl) as [s1 [s2 [-> [H1 H2]]]].
    constructor; [|assumption]. rewrite append_assoc. apply IHr. assumption.
Qed.

Lemma deriv_spec (r : regex) (c : ascii) (s rest : string) :
  Matches (deriv c (s ++ rest) r) s rest <-> Matches r (String c s) rest.
Proof. split; [apply deriv_sound | apply deriv_complete]. Qed.

Lemma pattern_match_spec (r : regex) (s : string) :
  pattern_match r s = true <-> exists p, matched_prefix r s p.
Proof.
  unfold matched_prefix. revert r. induction s as [|c s IH]; intros r; simpl.
  - rewrite orb_false_r, nullable_spec. split.
    + intros H. exists "", "". split; [reflexivity | assumption].
    + intros [p [rest [E H]]]. symmetry in E.
      apply append_is_empty in E as [-> ->]. assumption.
  - rewrite orb_true_iff, nullable_spec, IH. split.
    + intros [H | [p [rest [-> H]]]].
      * exists "", (String c s). split; [reflexivity | assumption].
      * exists (String c p), rest. split; [reflexivity | apply deriv_spec; assumption].
    + intros [p [rest [E H]]]. symmetry in E.
      apply append_is_String in E as [[-> ->] | [p' [-> ->]]].
      * left. assumption.
      * right. exists p', rest. split; [reflexivity | apply deriv_spec; assumption].
Qed.

Lemma pattern_fullmatch_spec (r : regex) (s : string) :
  pattern_fullmatch r s = true <-> Matches r s "".
Proof.
  revert r. induction s as [|c s IH]; intros r; simpl.
  - apply nullable_spec.
  - rewrite IH. rewrite <- (append_empty_r s) at 1. apply deriv_spec.
Qed.

(** What follows a match does not matter to a pattern without [$]. *)
Lemma Matches_anchor_free (r : regex) (s rest : string) :
  Matches r s rest -> anchor_free r = true -> forall rest', Matches r s rest'.
Proof.
  induction 1; simpl; intros A rest'; try discriminate;
    try (apply andb_true_iff in A as [A1 A2]).
  - constructor.
  - constructor.
  - constructor. assumption.
  - constructor; auto.
  - apply MOrL; auto.
  - apply MOrR; auto.
  - constructor.
  - constructor; auto.
Qed.

(** C3 (as amended).  A group matches a record exactly when its pattern
    matches at position 0 of the description: some prefix of the
    description is matched by the pattern where it stands, with the rest of
    the description after it.  For a pattern without [$] what follows does
    not matter, and the group matches exactly when the pattern matches some
    prefix taken alone. *)
Theorem matches_iff_prefix_match (group : CheckGroup.t) (record : LabResultRecord.t) :
  (CheckGroup.matches group record = true
   <-> exists p rest,
         LabResultRecord.description record = (p ++ rest)%string
         /\ Matches (CheckGroup.description_regex group) p rest)
  /\ (anchor_free (CheckGroup.description_regex group) = true ->
      (CheckGroup.matches group record = true
       <-> exists p rest,
             LabResultRecord.description record = (p ++ rest)%string
             /\ Matches (CheckGroup.description_regex group) p "")).
Proof.
  unfold CheckGroup.matches. rewrite pattern_match_spec. unfold matched_prefix.
  split; [reflexivity|]. intros A. split.
  - intros [p [rest [E H]]]. exists p, rest. split; [exact E|].
    exact (Matches_anchor_free _ _ _ H A "").
  - intros [p [rest [E H]]]. exists p, rest. split; [exact E|].
    exact (Matches_anchor_free _ _ _ H A rest).
Qed.

(** C3 as stated fails for a pattern with an end anchor: [ping$] matches
    the prefix [ping] of the description when that prefix is taken alone,
    and the group does not match the record, since the description goes
    on after it. *)
Lemma end_anchor_rejects_a_matched_prefix :
  CheckGroup.matches ping_end_group ping_record = false
  /\ pattern_fullmatch (CheckGroup.description_regex ping_end_group) "ping" = true
  /\ exists p rest,
       LabResultRecord.description ping_record = (p ++ rest)%string
       /\ Matches (CheckGroup.description_regex ping_end_group) p "".
Proof.
  split; [reflexivity|]. split; [reflexivity|].
  exists "ping", " from A to B". split; [reflexivity|].
  apply pattern_fullmatch_spec. reflexivity.
Qed.

(** A pattern that only occurs later in the description does not match
    it, although a search would find it. *)
Example mid_string_occurrence_is_not_a_match :
  pattern_match (literal "ping") "ping from A to B" = true
  /\ pattern_match (literal "from") "ping from A to B" = false
  /\ pattern_search (literal "from") "ping from A to B" = true.
Proof. repeat split; reflexivity. Qed.

(** ** Percentages *)

(** [_calc_percentage] never raises: the division is only reached with a
    divisor that is not zero. *)
Lemma _calc_percentage_spec (part whole : number) :
  exists p, _calc_percentage part whole = Ok p /\ percentage_of part whole p.
Proof.
  unfold percentage_of, _calc_percentage, num_truediv, num_eq.
  destruct (is_zero whole) eqn:Z; cbn [bind].
  - apply is_zero_spec in Z. eexists. split; [reflexivity|]. split.
    + split; [intros _; exact Z | reflexivity].
    + intros H. contradiction.
  - assert (Hnz : ~ to_Q whole == 0).
    { intros H. apply is_zero_spec in H. congruence. }
    eexists. split; [reflexivity|]. split.
    + split; [discriminate | intros H; contradiction].
    + intros _. eexists. split; reflexivity.
Qed.


(** ** Aggregation *)

(** A comprehension over values that are all computed is the list of
    these values; one that meets an exception raises. *)
Lemma mapM_all_ok {A B : Type} (f : A -> result B) (l : list A) (bs : list B) :
  Forall2 (fun a b => f a = Ok b) l bs -> mapM f l = Ok bs.
Proof.
  induction 1 as [|a b l bs Ha _ IH]; cbn [mapM]; [reflexivity|].
  rewrite Ha, IH. reflexivity.
Qed.

Lemma mapM_raises {A B : Type} (f : A -> result B) (l : list A) (a : A) (x : exn) :
  In a l -> f a = Err x -> exists x', mapM f l = Err x'.
Proof.
  induction l as [|a' l IH]; intros Hin Ha; [destruct Hin|]. cbn [mapM].
  destruct (f a') as [b|x'] eqn:E; cbn [bind]; [|eauto].
  destruct Hin as [->|Hin]; [congruence|].
  destruct (IH Hin Ha) as [x' ->]. cbn [bind]. eauto.
Qed.

(** C5.  The counts, the maximum points and the earned points of a
    category result are the sums of those of its group results, and those
    of the overall result are the sums of those of its category results,
    whatever the lists are: when the children earn the points [earned], the
    parent earns their sum, and when a child's earned points raise, so do
    the parent's. *)
Theorem aggregation_is_sum_of_children :
  (forall c : CategoryResult.t,
     let gs := CategoryResult.groups c in
     CategoryResult.total_checks_count c = Zsum (map GroupResult.total_checks_count gs)
     /\ CategoryResult.passed_checks_count c = Zsum (map GroupResult.passed_checks_count gs)
     /\ CategoryResult.failed_check_count c = Zsum (map GroupResult.failed_check_count gs)
     /\ to_Q (CategoryResult.max_points c)
        == Qsum (map (fun g => to_Q (GroupResult.max_points g)) gs)
     /\ (forall earned,
           Forall2 (fun g e => GroupResult.earned_points g = Ok e) gs earned ->
           exists e, CategoryResult.earned_points c = Ok e
                     /\ to_Q e == Qsum (map to_Q earned))
     /\ (forall g x,
           In g gs -> GroupResult.earned_points g = Err x ->
           exists x', CategoryResult.earned_points c = Err x'))
  /\ (forall r : ScoringResult.t,
     let cs := ScoringResult.categories r in
     ScoringResult.total_checks_count r = Zsum (map CategoryResult.total_checks_count cs)
     /\ ScoringResult.passed_checks_count r = Zsum (map CategoryResult.passed_checks_count cs)
     /\ ScoringResult.failed_check_count r = Zsum (map CategoryResult.failed_check_count cs)
     /\ to_Q (ScoringResult.max_points r)
        == Qsum (map (fun c => to_Q (CategoryResult.max_points c)) cs)
     /\ (forall earned,
           Forall2 (fun c e => CategoryResult.earned_points c = Ok e) cs earned ->
           exists e, ScoringResult.earned_points r = Ok e
                     /\ to_Q e == Qsum (map to_Q earned))
     /\ (forall c x,
           In c cs -> CategoryResult.earned_points c = Err x ->
           exists x', ScoringResult.earned_points r = Err x')).
Proof.
  split.
  - intros c gs.
    unfold CategoryResult.total_checks_count, CategoryResult.passed_checks_count,
      CategoryResult.failed_check_count, CategoryResult.max_points,
      CategoryResult.earned_points.
    fold gs. rewrite !py_sum_int_Zsum, py_sum_Qsum, map_map.
    repeat split; try reflexivity.
    + intros earned H. rewrite (mapM_all_ok _ _ _ H). cbn [bind].
      eexists. split; [reflexivity | apply py_sum_Qsum].
    + intros g x Hg Hx. destruct (mapM_raises _ _ _ _ Hg Hx) as [x' ->].
      cbn [bind]. eauto.
  - intros r cs.
    unfold ScoringResult.total_checks_count, ScoringResult.passed_checks_count,
      ScoringResult.failed_check_count, ScoringResult.max_points,
      ScoringResult.earned_points.
    fold cs. rewrite !py_sum_int_Zsum, py_sum_Qsum, map_map.
    repeat split; try reflexivity.
    + intros earned H. rewrite (mapM_all_ok _ _ _ H). cbn [bind].
      eexists. split; [reflexivity | apply py_sum_Qsum].
    + intros c x Hc Hx. destruct (mapM_raises _ _ _ _ Hc Hx) as [x' ->].
      cbn [bind]. eauto.
Qed.

(** ** Validation of the configuration *)

Lemma nodup_length_le (l : list string) :
  (List.length (nodup string_dec l) <= List.length l)%nat.
Proof.
  induction l as [|x l IH]; simpl; [lia|].
  destruct (in_dec string_dec x l); simpl; lia.
Qed.

Lemma len_set_spec (names : list string) :
  (len_set names =? len names)%Z = true <-> NoDup names.
Proof.
  unfold len_set, len. rewrite Z.eqb_eq, Nat2Z.inj_iff. split.
  - induction names as [|x l IH]; simpl; intros H; [constructor|].
    pose proof (nodup_length_le l) as Hle.
    destruct (in_dec string_dec x l) as [Hin|Hout]; simpl in H; [lia|].
    constructor; [assumption | apply IH; lia].
  - intros H. rewrite (nodup_fixed_point string_dec H). reflexivity.
Qed.

Lemma len_map {A B : Type} (f : A -> B) (l : list A) : len (map f l) = len l.
Proof. unfold len. rewrite length_map. reflexivity. Qed.

Lemma for_each_check {A : Type} (bad : A -> bool) (e : exn) (l : list A) :
  for_each (fun a => if bad a then Err e else Ok tt) l
  = if existsb bad l then Err e else Ok tt.
Proof.
  induction l as [|a l IH]; simpl; [reflexivity|].
  destruct (bad a); simpl; [reflexivity | exact IH].
Qed.

Lemma existsb_duplicate_group_names (categories : list GroupCategory.t) :
  existsb (fun category =>
             negb (len_set (map CheckGroup.name (GroupCategory.groups category))
                   =? len (GroupCategory.groups category))%Z)
          categories = true
  <-> duplicate_group_names categories.
Proof.
  unfold duplicate_group_names. rewrite existsb_exists.
  split; intros [c [Hin H]]; exists c; split; try assumption.
  - intros Hnd. apply len_set_spec in Hnd.
    rewrite len_map in Hnd. rewrite Hnd in H. discriminate.
  - apply negb_true_iff. apply not_true_is_false. intros Hnd. apply H.
    apply len_set_spec. rewrite len_map. exact Hnd.
Qed.

Lemma existsb_empty_category (categories : list GroupCategory.t) :
  existsb (fun category => (len (GroupCategory.groups category) =? 0)%Z) categories = true
  <-> empty_category categories.
Proof.
  unfold empty_category. rewrite existsb_exists.
  split; intros [c [Hin H]]; exists c; split; try assumption.
  - apply Z.eqb_eq in H. unfold len in H. destruct (GroupCategory.groups c); [reflexivity|].
    simpl in H. lia.
  - rewrite H. reflexivity.
Qed.

(** C7 (as amended).  The constructor raises a [ValueError] when two
    categories have the same name, else when two groups of a category have
    the same name, else when a category has no group; otherwise it returns
    the configuration with the categories it was given.  Each of the three
    messages is a fixed text.  No record is involved. *)
Theorem new_config_validation (categories : list GroupCategory.t) :
  (duplicate_category_names categories ->
   ScoringConfig.new categories = Err (ValueError ScoringConfig.msg_category_names))
  /\ (~ duplicate_category_names categories ->
      duplicate_group_names categories ->
      ScoringConfig.new categories = Err (ValueError ScoringConfig.msg_group_names))
  /\ (~ duplicate_category_names categories ->
      ~ duplicate_group_names categories ->
      empty_category categories ->
      ScoringConfig.new categories = Err (ValueError ScoringConfig.msg_empty_category))
  /\ (~ duplicate_category_names categories ->
      ~ duplicate_group_names categories ->
      ~ empty_category categories ->
      ScoringConfig.new categories = Ok (ScoringConfig.mk categories)).
Proof.
  unfold ScoringConfig.new, ScoringConfig.__post_init__, duplicate_category_names.
  cbn [ScoringConfig.categories].
  rewrite for_each_check.
  rewrite <- existsb_duplicate_group_names, <- existsb_empty_category.
  rewrite <- (len_set_spec (map GroupCategory.name categories)).
  rewrite len_map.
  destruct (len_set (map GroupCategory.name categories) =? len categories)%Z;
    cbn [negb bind].
  - repeat split; intros H; try (exfalso; apply H; reflexivity); clear H.
    + intros ->. reflexivity.
    + intros H. apply not_true_is_false in H. rewrite H. cbn [bind].
      intros ->. reflexivity.
    + intros H. apply not_true_is_false in H. rewrite H. cbn [bind].
      intros H'. apply not_true_is_false in H'. rewrite H'. reflexivity.
  - repeat split; intros H; try reflexivity; exfalso; apply H; discriminate.
Qed.

(** C7 as stated fails: the message of each of the three errors is the
    same whatever the name of the category or of the group at fault, and
    does not contain it. *)
Lemma validation_error_does_not_name_the_culprit :
  empty_category empty_routing
  /\ ScoringConfig.new empty_routing = Err (ValueError ScoringConfig.msg_empty_category)
  /\ mentions ScoringConfig.msg_empty_category "routing" = false
  /\ ScoringConfig.new empty_services = ScoringConfig.new empty_routing
  /\ duplicate_category_names routing_twice
  /\ ScoringConfig.new routing_twice = Err (ValueError ScoringConfig.msg_category_names)
  /\ mentions ScoringConfig.msg_category_names "routing" = false
  /\ duplicate_group_names ospf_twice
  /\ ScoringConfig.new ospf_twice = Err (ValueError ScoringConfig.msg_group_names)
  /\ mentions ScoringConfig.msg_group_names "ospf" = false.
Proof.
  repeat split; try reflexivity.
  - eexists. split; [right; left; reflexivity | reflexivity].
  - intros H. inversion H as [|? ? Hn _]; subst. apply Hn. left. reflexivity.
  - eexists. split; [left; reflexivity|].
    intros H. inversion H as [|? ? Hn _]; subst. apply Hn. left. reflexivity.
Qed.

Lemma new_config_validation_witness :
  (duplicate_category_names routing_twice
   /\ ScoringConfig.new routing_twice = Err (ValueError ScoringConfig.msg_category_names))
  /\ (~ duplicate_category_names ospf_twice
      /\ duplicate_group_names ospf_twice
      /\ ScoringConfig.new ospf_twice = Err (ValueError ScoringConfig.msg_group_names))
  /\ (~ duplicate_category_names empty_routing
      /\ ~ duplicate_group_names empty_routing
      /\ empty_category empty_routing
      /\ ScoringConfig.new empty_routing = Err (ValueError ScoringConfig.msg_empty_category))
  /\ (~ duplicate_category_names (ScoringConfig.categories two_group_config)
      /\ ~ duplicate_group_names (ScoringConfig.categories two_group_config)
      /\ ~ empty_category (ScoringConfig.categories two_group_config)
      /\ ScoringConfig.new (ScoringConfig.categories two_group_config) = Ok two_group_config).
Proof.
  assert (A1 : duplicate_category_names routing_twice).
  { intros H. inversion H as [|? ? Hn _]; subst. apply Hn. left. reflexivity. }
  assert (B1 : ~ duplicate_category_names ospf_twice).
  { intros H. apply H. repeat constructor. intros []. }
  assert (B2 : duplicate_group_names ospf_twice).
  { eexists. split; [left; reflexivity|].
    intros H. inversion H as [|? ? Hn _]; subst. apply Hn. left. reflexivity. }
  assert (C1 : ~ duplicate_category_names empty_routing).
  { intros H. apply H. repeat constructor; simpl; intuition discriminate. }
  assert (C2 : ~ duplicate_group_names empty_routing).
  { intros [c [[<-|[<-|[]]] H]]; apply H; repeat constructor. intros []. }
  assert (C3 : empty_category empty_routing).
  { eexists. split; [right; left; reflexivity | reflexivity]. }
  assert (D1 : ~ duplicate_category_names (ScoringConfig.categories two_group_config)).
  { intros H. apply H. repeat constructor. intros []. }
  assert (D2 : ~ duplicate_group_names (ScoringConfig.categories two_group_config)).
  { intros [c [[<-|[]] H]]. apply H. repeat constructor; simpl; intuition discriminate. }
  assert (D3 : ~ empty_category (ScoringConfig.categories two_group_config)).
  { intros [c [[<-|[]] H]]. discriminate. }
  split; [split; [exact A1|]|split; [split; [exact B1|split; [exact B2|]]|
    split; [split; [exact C1|split; [exact C2|split; [exact C3|]]]|
            split; [exact D1|split; [exact D2|split; [exact D3|]]]]]].
  - exact (proj1 (new_config_validation routing_twice) A1).
  - exact (proj1 (proj2 (new_config_validation ospf_twice)) B1 B2).
  - exact (proj1 (proj2 (proj2 (new_config_validation empty_routing))) C1 C2 C3).
  - exact (proj2 (proj2 (proj2
             (new_config_validation (ScoringConfig.categories two_group_config)))) D1 D2 D3).
Defined.

(** ** Comprehensions *)

Lemma mapM_ok {A B : Type} (f : A -> result B) (l : list A) :
  (forall a, In a l -> exists b, f a = Ok b) -> exists bs, mapM f l = Ok bs.
Proof.
  induction l as [|a l IH]; intros H; simpl.
  - eauto.
  - destruct (H a (or_introl eq_refl)) as [b ->].
    destruct IH as [bs ->]; [intros; apply H; right; assumption|].
    simpl. eauto.
Qed.


(** ** Results of a scoring pass *)

Lemma calculate_earned_points_ok (self : GroupType.t) (w : number)
    (records : list LabResultRecord.t) :
  records <> [] -> exists earned, GroupType.calculate_earned_points self w records = Ok earned.
Proof.
  intros Hne. unfold GroupType.calculate_earned_points.
  rewrite (int_truediv_ok _ _ (len_pos records Hne)). cbn [bind].
  destruct self; eauto.
Qed.

Lemma group_earned_points_ok (g : GroupResult.t) :
  GroupResult.records g <> [] -> exists earned, GroupResult.earned_points g = Ok earned.
Proof. apply calculate_earned_points_ok. Qed.

Lemma category_earned_points_ok (c : CategoryResult.t) :
  (forall g, In g (CategoryResult.groups c) -> GroupResult.records g <> []) ->
  exists earned, CategoryResult.earned_points c = Ok earned.
Proof.
  intros H. unfold CategoryResult.earned_points.
  destruct (mapM_ok GroupResult.earned_points (CategoryResult.groups c)) as [es ->].
  - intros g Hg. apply group_earned_points_ok, H, Hg.
  - simpl. eauto.
Qed.

Lemma no_empty_group_category (r : ScoringResult.t) (c : CategoryResult.t) :
  no_empty_group r -> In c (ScoringResult.categories r) ->
  forall g, In g (CategoryResult.groups c) -> GroupResult.records g <> [].
Proof.
  intros H Hc g Hg. apply H. unfold all_groups. apply in_flat_map. eauto.
Qed.

Lemma scoring_earned_points_ok (r : ScoringResult.t) :
  no_empty_group r -> exists earned, ScoringResult.earned_points r = Ok earned.
Proof.
  intros H. unfold ScoringResult.earned_points.
  destruct (mapM_ok CategoryResult.earned_points (ScoringResult.categories r)) as [es ->].
  - intros c Hc. apply category_earned_points_ok. eapply no_empty_group_category; eassumption.
  - simpl. eauto.
Qed.

(** ** The report *)

Lemma any_earned_float_ok (groups : list GroupResult.t) :
  (forall g, In g groups -> GroupResult.records g <> []) ->
  exists use_float,
    any_earned_float groups = Ok use_float
    /\ (use_float = true <-> some_earned_is_float groups).
Proof.
  unfold some_earned_is_float.
  induction groups as [|g gs IH]; intros H; simpl.
  - exists false. split; [reflexivity|]. split; [discriminate|].
    intros [g [e [[] _]]].
  - destruct (group_earned_points_ok g (H g (or_introl eq_refl))) as [e He].
    rewrite He. simpl. destruct (is_float e) eqn:Ef.
    + exists true. split; [reflexivity|]. split; [|reflexivity].
      intros _. exists g, e. auto.
    + destruct IH as [b [-> Hb]]; [intros; apply H; right; assumption|].
      exists b. split; [reflexivity|]. rewrite Hb. split.
      * intros [g' [e' [Hin Hr]]]. exists g', e'. auto.
      * intros [g' [e' [[<-|Hin] [He' Hf]]]].
        -- rewrite He in He'. injection He' as <-. congruence.
        -- exists g', e'. auto.
Qed.




Lemma group_line_ok (use_float : bool) (g : GroupResult.t) :
  GroupResult.records g <> [] -> exists line, group_line use_float g = Ok line.
Proof.
  intros H. unfold group_line, GroupResult.earned_points_percentage.
  destruct (group_earned_points_ok g H) as [e ->]. cbn [bind].
  destruct (_calc_percentage_spec e (GroupResult.max_points g)) as [p [-> _]].
  cbn [bind]. eauto.
Qed.

Lemma category_lines_ok (use_float display : bool) (c : CategoryResult.t) :
  (forall g, In g (CategoryResult.groups c) -> GroupResult.records g <> []) ->
  exists lines, category_lines use_float display c = Ok lines.
Proof.
  intros H. unfold category_lines, CategoryResult.earned_points_percentage.
  destruct (category_earned_points_ok c H) as [e ->].
  destruct (_calc_percentage_spec e (CategoryResult.max_points c)) as [p [Hp _]].
  destruct (mapM_ok (group_line use_float) (CategoryResult.groups c)) as [gl Hgl].
  { intros g Hg. apply group_line_ok, H, Hg. }
  destruct display; cbn [bind]; rewrite ?Hp; cbn [bind]; rewrite Hgl; cbn [bind]; eauto.
Qed.




(** ** Dicts *)

Section DictFacts.

Context {K A : Type}.
Variable key_eqb : K -> K -> bool.
Hypothesis key_eqb_refl : forall k, key_eqb k k = true.
Hypothesis key_eqb_sym : forall a b, key_eqb a b = key_eqb b a.
Hypothesis key_eqb_trans :
  forall a b c, key_eqb a b = true -> key_eqb b c = true -> key_eqb a c = true.

Lemma extend_keys (d : dict K (list A)) extra : map fst (extend d extra) = map fst d.
Proof. unfold extend. rewrite map_map. reflexivity. Qed.

Lemma extend_extend (d : dict K (list A)) e1 e2 :
  extend (extend d e1) e2 = extend d (fun k => e1 k ++ e2 k).
Proof.
  unfold extend. rewrite map_map. apply map_ext. intros [k l]. simpl.
  rewrite app_assoc. reflexivity.
Qed.

Lemma extend_ext (d : dict K (list A)) e1 e2 :
  (forall k, In k (map fst d) -> e1 k = e2 k) -> extend d e1 = extend d e2.
Proof.
  intros H. unfold extend. apply map_ext_in. intros [k l] Hin. simpl.
  rewrite (H k); [reflexivity|]. apply in_map_iff. exists (k, l). auto.
Qed.

Lemma extend_nil (d : dict K (list A)) : extend d (fun _ => []) = d.
Proof.
  unfold extend. rewrite <- (map_id d) at 2. apply map_ext. intros [k l]. simpl.
  rewrite app_nil_r. reflexivity.
Qed.

Lemma extend_cons (k : K) (l : list A) (d : dict K (list A)) extra :
  extend ((k, l) :: d) extra = (k, l ++ extra k) :: extend d extra.
Proof. reflexivity. Qed.

(** [d[k].append(x)] on a dict whose keys are distinct and hold [k]. *)
Lemma dict_append_extend (d : dict K (list A)) (k : K) (x : A) :
  distinct_keys key_eqb (map fst d) ->
  (exists k', In k' (map fst d) /\ key_eqb k' k = true) ->
  dict_append key_eqb d k x
  = Ok (extend d (fun k' => if key_eqb k' k then [x] else [])).
Proof.
  unfold dict_append.
  induction d as [|[k0 l0] d IH]; intros Hd [k' [Hin Hk]]; [destruct Hin|].
  simpl in Hd. inversion Hd as [|? ? Hk0 Hd']; subst.
  cbn [dict_get dict_set map fst]. rewrite extend_cons.
  destruct (key_eqb k0 k) eqn:E0.
  - cbn [bind]. f_equal. f_equal.
    rewrite <- (extend_nil d) at 1. apply extend_ext.
    intros k1 Hk1. destruct (key_eqb k1 k) eqn:E1; [|reflexivity].
    rewrite Forall_forall in Hk0. specialize (Hk0 k1 Hk1).
    rewrite key_eqb_sym in E1.
    rewrite (key_eqb_trans _ _ _ E0 E1) in Hk0. discriminate.
  - destruct Hin as [<-|Hin]; [simpl in Hk; congruence|].
    specialize (IH Hd' (ex_intro _ k' (conj Hin Hk))).
    destruct (dict_get key_eqb d k) as [l|]; cbn [bind] in *; [|discriminate].
    injection IH as IH. rewrite IH, app_nil_r. reflexivity.
Qed.

Lemma first_occurrences_fold (keys seen : list K) :
  distinct_keys key_eqb seen ->
  let result :=
    fold_left (fun seen k => if existsb (fun k' => key_eqb k' k) seen then seen else seen ++ [k])
              keys seen in
  distinct_keys key_eqb result
  /\ (forall k, In k result -> In k seen \/ In k keys)
  /\ (forall k, In k seen \/ In k keys -> exists k', In k' result /\ key_eqb k' k = true).
Proof.
  revert seen. induction keys as [|k keys IH]; intros seen Hs; cbn [fold_left].
  - split; [assumption|]. split; [auto|].
    intros k [Hk|[]]. exists k. auto.
  - set (seen' := if existsb _ seen then seen else seen ++ [k]).
    assert (Hs' : distinct_keys key_eqb seen').
    { unfold seen'. destruct (existsb _ seen) eqn:E; [assumption|].
      unfold distinct_keys in *.
      clear IH. induction seen as [|a seen IHs]; simpl.
      - repeat constructor.
      - inversion Hs; subst. simpl in E. apply orb_false_iff in E as [Ea E].
        constructor; [|auto].
        apply Forall_app. split; [assumption|]. constructor; [|constructor]. exact Ea. }
    assert (Hex : forall k0, In k0 seen \/ k0 = k ->
                             exists k', In k' seen' /\ key_eqb k' k0 = true).
    { intros k0 [H0| ->].
      - exists k0. split; [|auto]. unfold seen'. destruct (existsb _ seen); [assumption|].
        apply in_or_app. auto.
      - unfold seen'. destruct (existsb _ seen) eqn:E.
        + apply existsb_exists in E as [k' [Hin Hk']]. eauto.
        + exists k. split; [apply in_or_app; right; left; reflexivity | auto]. }
    destruct (IH seen' Hs') as [H1 [H2 H3]]. split; [exact H1|]. split.
    + intros k0 Hk0. destruct (H2 k0 Hk0) as [H|H]; [|right; right; assumption].
      unfold seen' in H. destruct (existsb _ seen); [auto|].
      apply in_app_or in H as [H|[<-|[]]]; [auto | right; left; reflexivity].
    + intros k0 [H0|[<-|H0]].
      * destruct (Hex k0 (or_introl H0)) as [k' [Hin Hk']].
        destruct (H3 k' (or_introl Hin)) as [k'' [Hin' Hk'']].
        exists k''. split; [assumption | eapply key_eqb_trans; eassumption].
      * destruct (Hex k (or_intror eq_refl)) as [k' [Hin Hk']].
        destruct (H3 k' (or_introl Hin)) as [k'' [Hin' Hk'']].
        exists k''. split; [assumption | eapply key_eqb_trans; eassumption].
      * auto.
Qed.

Lemma first_occurrences_spec (keys : list K) :
  distinct_keys key_eqb (first_occurrences key_eqb keys)
  /\ (forall k, In k (first_occurrences key_eqb keys) -> In k keys)
  /\ (forall k, In k keys ->
        exists k', In k' (first_occurrences key_eqb keys) /\ key_eqb k' k = true).
Proof.
  destruct (first_occurrences_fold keys [] (FOP_nil _)) as [H1 [H2 H3]].
  split; [exact H1|]. split.
  - intros k Hk. destruct (H2 k Hk) as [[]|H]. exact H.
  - intros k Hk. apply H3. auto.
Qed.

(** Keys that are already distinct are all first occurrences. *)
Lemma first_occurrences_distinct (keys : list K) :
  distinct_keys key_eqb keys -> first_occurrences key_eqb keys = keys.
Proof.
  unfold first_occurrences.
  assert (G : forall seen, distinct_keys key_eqb (seen ++ keys) ->
    fold_left (fun seen k => if existsb (fun k' => key_eqb k' k) seen then seen else seen ++ [k])
              keys seen = seen ++ keys).
  { induction keys as [|k keys IH]; intros seen H; cbn [fold_left].
    - rewrite app_nil_r. reflexivity.
    - assert (E : existsb (fun k' => key_eqb k' k) seen = false).
      { apply not_true_is_false. intros E. apply existsb_exists in E as [k' [Hin Hk']].
        unfold distinct_keys in H. clear IH.
        induction seen as [|a seen IHs]; [destruct Hin|].
        simpl in H. inversion H as [|? ? Ha H']; subst.
        destruct Hin as [->|Hin]; [|auto].
        rewrite Forall_forall in Ha.
        rewrite (Ha k) in Hk'; [discriminate|]. apply in_or_app. right. left. reflexivity. }
      rewrite E. rewrite IH; rewrite <- app_assoc; [reflexivity | exact H]. }
  intros H. apply (G [] H).
Qed.

Lemma dict_from_keys_nil (keys : list K) :
  dict_from_keys key_eqb keys (@nil A)
  = map (fun k => (k, [])) (first_occurrences key_eqb keys).
Proof.
  unfold dict_from_keys, first_occurrences.
  assert (G : forall seen,
    fold_left (fun d k => dict_set key_eqb d k (@nil A)) keys (map (fun k => (k, [])) seen)
    = map (fun k => (k, []))
        (fold_left
           (fun seen k => if existsb (fun k' => key_eqb k' k) seen then seen else seen ++ [k])
           keys seen)).
  { induction keys as [|k keys IH]; intros seen; cbn [fold_left]; [reflexivity|].
    rewrite <- IH. f_equal. clear IH.
    induction seen as [|a seen IHs]; cbn [map existsb dict_set]; [reflexivity|].
    destruct (key_eqb a k); cbn [orb]; [reflexivity|].
    rewrite IHs. destruct (existsb _ seen); reflexivity. }
  apply (G []).
Qed.

Lemma dict_get_map (keys : list K) (value : K -> list A) (k : K) :
  (exists k', In k' keys /\ key_eqb k' k = true) ->
  exists k', In k' keys /\ key_eqb k' k = true
             /\ dict_get key_eqb (map (fun k => (k, value k)) keys) k = Ok (value k').
Proof.
  induction keys as [|a keys IH]; intros [k' [Hin Hk]]; [destruct Hin|].
  cbn [map dict_get]. destruct (key_eqb a k) eqn:E.
  - exists a. split; [left; reflexivity | auto].
  - destruct Hin as [->|Hin]; [congruence|].
    destruct (IH (ex_intro _ k' (conj Hin Hk))) as [k'' [H1 [H2 H3]]].
    exists k''. split; [right; assumption | auto].
Qed.

End DictFacts.

(** ** Equality of keys *)

Lemma LabResultRecord_eqb_eq (a b : LabResultRecord.t) :
  LabResultRecord.eqb a b = true <-> a = b.
Proof.
  unfold LabResultRecord.eqb. destruct a as [d1 p1 r1], b as [d2 p2 r2]. simpl.
  rewrite !andb_true_iff, !String.eqb_eq, Bool.eqb_true_iff.
  split; [intros [[-> ->] ->]; reflexivity | intros [= -> -> ->]; auto].
Qed.

Lemma LabResultRecord_eqb_refl (a : LabResultRecord.t) : LabResultRecord.eqb a a = true.
Proof. apply LabResultRecord_eqb_eq. reflexivity. Qed.

Lemma LabResultRecord_eqb_sym (a b : LabResultRecord.t) :
  LabResultRecord.eqb a b = LabResultRecord.eqb b a.
Proof.
  destruct (LabResultRecord.eqb a b) eqn:E1, (LabResultRecord.eqb b a) eqn:E2;
    try reflexivity.
  - apply LabResultRecord_eqb_eq in E1 as ->. rewrite LabResultRecord_eqb_refl in E2.
    discriminate.
  - apply LabResultRecord_eqb_eq in E2 as ->. rewrite LabResultRecord_eqb_refl in E1.
    discriminate.
Qed.

Lemma LabResultRecord_eqb_trans (a b c : LabResultRecord.t) :
  LabResultRecord.eqb a b = true -> LabResultRecord.eqb b c = true ->
  LabResultRecord.eqb a c = true.
Proof. rewrite !LabResultRecord_eqb_eq. congruence. Qed.

Lemma regex_eqb_eq (a b : regex) : regex_eqb a b = true <-> a = b.
Proof.
  revert b. induction a; destruct b; simpl;
    try (split; [discriminate | intros [=]]); try (split; reflexivity).
  - rewrite Ascii.eqb_eq. split; [intros ->; reflexivity | intros [= ->]; reflexivity].
  - rewrite andb_true_iff, IHa1, IHa2.
    split; [intros [-> ->]; reflexivity | intros [= -> ->]; auto].
  - rewrite andb_true_iff, IHa1, IHa2.
    split; [intros [-> ->]; reflexivity | intros [= -> ->]; auto].
  - rewrite IHa. split; [intros ->; reflexivity | intros [= ->]; reflexivity].
Qed.

Lemma GroupType_eqb_eq (a b : GroupType.t) : GroupType.eqb a b = true <-> a = b.
Proof. destruct a, b; simpl; split; intros H; try reflexivity; discriminate. Qed.

Lemma num_eqb_refl (a : number) : num_eqb a a = true.
Proof. apply Qeq_bool_iff. reflexivity. Qed.

Lemma num_eqb_sym (a b : number) : num_eqb a b = num_eqb b a.
Proof.
  unfold num_eqb.
  destruct (Qeq_bool (to_Q a) (to_Q b)) eqn:E1, (Qeq_bool (to_Q b) (to_Q a)) eqn:E2;
    try reflexivity.
  - apply Qeq_bool_iff in E1. symmetry in E1. apply Qeq_bool_iff in E1. congruence.
  - apply Qeq_bool_iff in E2. symmetry in E2. apply Qeq_bool_iff in E2. congruence.
Qed.

Lemma num_eqb_trans (a b c : number) :
  num_eqb a b = true -> num_eqb b c = true -> num_eqb a c = true.
Proof.
  unfold num_eqb. rewrite !Qeq_bool_iff. intros H1 H2. rewrite H1. exact H2.
Qed.

Lemma String_eqb_trans (a b c : string) :
  String.eqb a b = true -> String.eqb b c = true -> String.eqb a c = true.
Proof. rewrite !String.eqb_eq. congruence. Qed.

Lemma CheckGroup_eqb_refl (a : CheckGroup.t) : CheckGroup.eqb a a = true.
Proof.
  unfold CheckGroup.eqb, CategoryRef.eqb.
  rewrite !String.eqb_refl, !num_eqb_refl.
  rewrite (proj2 (GroupType_eqb_eq _ _) eq_refl), (proj2 (regex_eqb_eq _ _) eq_refl).
  reflexivity.
Qed.

Lemma CheckGroup_eqb_sym (a b : CheckGroup.t) : CheckGroup.eqb a b = CheckGroup.eqb b a.
Proof.
  unfold CheckGroup.eqb, CategoryRef.eqb.
  rewrite (String.eqb_sym (CheckGroup.name a)),
    (String.eqb_sym (CategoryRef.name (CheckGroup.category a))),
    (num_eqb_sym (CheckGroup.points a)),
    (num_eqb_sym (CategoryRef.points_multiplier (CheckGroup.category a))).
  f_equal. f_equal. f_equal; [f_equal|].
  - destruct (GroupType.eqb (CheckGroup.type a) (CheckGroup.type b)) eqn:E1,
      (GroupType.eqb (CheckGroup.type b) (CheckGroup.type a)) eqn:E2; try reflexivity.
    + apply GroupType_eqb_eq in E1. rewrite E1, (proj2 (GroupType_eqb_eq _ _) eq_refl) in E2.
      discriminate.
    + apply GroupType_eqb_eq in E2. rewrite E2, (proj2 (GroupType_eqb_eq _ _) eq_refl) in E1.
      discriminate.
  - destruct (regex_eqb (CheckGroup.description_regex a) (CheckGroup.description_regex b)) eqn:E1,
      (regex_eqb (CheckGroup.description_regex b) (CheckGroup.description_regex a)) eqn:E2;
      try reflexivity.
    + apply regex_eqb_eq in E1. rewrite E1, (proj2 (regex_eqb_eq _ _) eq_refl) in E2.
      discriminate.
    + apply regex_eqb_eq in E2. rewrite E2, (proj2 (regex_eqb_eq _ _) eq_refl) in E1.
      discriminate.
Qed.

Lemma CheckGroup_eqb_trans (a b c : CheckGroup.t) :
  CheckGroup.eqb a b = true -> CheckGroup.eqb b c = true -> CheckGroup.eqb a c = true.
Proof.
  unfold CheckGroup.eqb, CategoryRef.eqb. rewrite !andb_true_iff.
  intros [[[[N1 T1] R1] P1] [C1 M1]] [[[[N2 T2] R2] P2] [C2 M2]].
  repeat split.
  - eapply String_eqb_trans; eassumption.
  - apply GroupType_eqb_eq in T1, T2. apply GroupType_eqb_eq. congruence.
  - apply regex_eqb_eq in R1, R2. apply regex_eqb_eq. congruence.
  - eapply num_eqb_trans; eassumption.
  - eapply String_eqb_trans; eassumption.
  - eapply num_eqb_trans; eassumption.
Qed.

(** ** The matcher *)

Lemma records_loop (group : CheckGroup.t) (records : list LabResultRecord.t) :
  forall r2g g2r,
    distinct_keys LabResultRecord.eqb (map fst r2g) ->
    distinct_keys CheckGroup.eqb (map fst g2r) ->
    (forall r, In r records -> has_key LabResultRecord.eqb r2g r) ->
    has_key CheckGroup.eqb g2r group ->
    for_fold (match_record group) records (RecordGroupMatching.mk r2g g2r)
    = Ok (RecordGroupMatching.mk
            (extend r2g (fun k => groups_appended [group] records k))
            (extend g2r (fun k => records_appended [group] records k))).
Proof.
  unfold groups_appended, records_appended. cbn [flat_map].
  induction records as [|r records IH]; intros r2g g2r D1 D2 H1 H2; cbn [for_fold].
  - cbn [flat_map filter app]. f_equal. f_equal.
    + symmetry. apply extend_nil.
    + rewrite <- (extend_nil g2r) at 1. apply extend_ext.
      intros k _. destruct (CheckGroup.eqb k group); reflexivity.
  - unfold match_record at 1. cbn [RecordGroupMatching.record_to_groups
                                    RecordGroupMatching.group_to_records].
    destruct (CheckGroup.matches group r) eqn:M.
    + rewrite (dict_append_extend LabResultRecord.eqb LabResultRecord_eqb_sym
                 LabResultRecord_eqb_trans r2g r group D1 (H1 r (or_introl eq_refl))).
      rewrite (dict_append_extend CheckGroup.eqb CheckGroup_eqb_sym
                 CheckGroup_eqb_trans g2r group r D2 H2).
      cbn [bind]. rewrite IH.
      * rewrite !extend_extend. f_equal. f_equal.
        -- apply extend_ext. intros k _. cbn [flat_map]. rewrite M. cbn [andb].
           rewrite !app_nil_r. reflexivity.
        -- apply extend_ext. intros k _. cbn [filter]. rewrite M. rewrite !app_nil_r.
           destruct (CheckGroup.eqb k group); reflexivity.
      * rewrite extend_keys. assumption.
      * rewrite extend_keys. assumption.
      * intros r' Hr'. unfold has_key. rewrite extend_keys. apply H1. right. assumption.
      * unfold has_key. rewrite extend_keys. assumption.
    + cbn [bind]. rewrite IH; try assumption.
      * f_equal. f_equal.
        -- apply extend_ext. intros k _. cbn [flat_map]. rewrite M. reflexivity.
        -- apply extend_ext. intros k _. cbn [filter]. rewrite M. reflexivity.
      * intros r' Hr'. apply H1. right. assumption.
Qed.

Lemma groups_loop (records : list LabResultRecord.t) (groups : list CheckGroup.t) :
  forall r2g g2r,
    distinct_keys LabResultRecord.eqb (map fst r2g) ->
    distinct_keys CheckGroup.eqb (map fst g2r) ->
    (forall r, In r records -> has_key LabResultRecord.eqb r2g r) ->
    (forall g, In g groups -> has_key CheckGroup.eqb g2r g) ->
    for_fold (fun result group => for_fold (match_record group) records result)
             groups (RecordGroupMatching.mk r2g g2r)
    = Ok (RecordGroupMatching.mk
            (extend r2g (fun k => groups_appended groups records k))
            (extend g2r (fun k => records_appended groups records k))).
Proof.
  induction groups as [|g groups IH]; intros r2g g2r D1 D2 H1 H2; cbn [for_fold].
  - unfold groups_appended, records_appended. cbn [flat_map].
    rewrite !extend_nil. reflexivity.
  - rewrite records_loop; try assumption; [|apply H2; left; reflexivity].
    cbn [bind]. rewrite IH.
    + rewrite !extend_extend. f_equal. f_equal.
      * apply extend_ext. intros k _. unfold groups_appended. cbn [flat_map].
        rewrite app_nil_r. reflexivity.
      * apply extend_ext. intros k _. unfold records_appended. cbn [flat_map].
        rewrite app_nil_r. reflexivity.
    + rewrite extend_keys. assumption.
    + rewrite extend_keys. assumption.
    + intros r Hr. unfold has_key. rewrite extend_keys. apply H1. assumption.
    + intros g' Hg'. unfold has_key. rewrite extend_keys. apply H2. right. assumption.
Qed.

(** The matching that [create] builds: it never raises, its keys are the
    first occurrences of the records and of the groups. *)
Theorem create_spec (config : ScoringConfig.t) (records : list LabResultRecord.t) :
  let groups := ScoringConfig.groups config in
  RecordGroupMatching.create config records
  = Ok (RecordGroupMatching.mk
          (map (fun k => (k, groups_appended groups records k))
               (first_occurrences LabResultRecord.eqb records))
          (map (fun k => (k, records_appended groups records k))
               (first_occurrences CheckGroup.eqb groups))).
Proof.
  intros groups. unfold RecordGroupMatching.create. fold groups.
  change (for_fold (fun result group => for_fold (match_record group) records result) groups
            (RecordGroupMatching.mk (dict_from_keys LabResultRecord.eqb records [])
               (dict_from_keys CheckGroup.eqb groups []))
          = Ok (RecordGroupMatching.mk
                  (map (fun k => (k, groups_appended groups records k))
                     (first_occurrences LabResultRecord.eqb records))
                  (map (fun k => (k, records_appended groups records k))
                     (first_occurrences CheckGroup.eqb groups)))).
  rewrite !dict_from_keys_nil.
  destruct (first_occurrences_spec LabResultRecord.eqb LabResultRecord_eqb_refl
              LabResultRecord_eqb_trans records) as [D1 [_ P1]].
  destruct (first_occurrences_spec CheckGroup.eqb CheckGroup_eqb_refl
              CheckGroup_eqb_trans groups) as [D2 [_ P2]].
  rewrite groups_loop.
  - unfold extend. rewrite !map_map. reflexivity.
  - rewrite map_map, map_id. assumption.
  - rewrite map_map, map_id. assumption.
  - intros r Hr. unfold has_key. rewrite map_map, map_id. apply P1. assumption.
  - intros g Hg. unfold has_key. rewrite map_map, map_id. apply P2. assumption.
Qed.

Section DistinctKeys.

Context {K : Type}.
Variable key_eqb : K -> K -> bool.
Hypothesis key_eqb_refl : forall k, key_eqb k k = true.
Hypothesis key_eqb_sym : forall a b, key_eqb a b = key_eqb b a.

Lemma distinct_keys_eq (keys : list K) (a b : K) :
  distinct_keys key_eqb keys -> In a keys -> In b keys -> key_eqb a b = true -> a = b.
Proof.
  unfold distinct_keys. induction 1 as [|k keys Hk _ IH]; intros Ha Hb E; [destruct Ha|].
  rewrite Forall_forall in Hk.
  destruct Ha as [<-|Ha], Hb as [<-|Hb]; auto.
  - rewrite (Hk b Hb) in E. discriminate.
  - rewrite key_eqb_sym, (Hk a Ha) in E. discriminate.
Qed.

(** Among distinct keys, only [k] itself contributes to a selection by
    equality with [k]. *)
Lemma flat_map_select {B : Type} (keys : list K) (k : K) (f : K -> list B) :
  distinct_keys key_eqb keys -> In k keys ->
  flat_map (fun k' => if key_eqb k k' then f k' else []) keys = f k.
Proof.
  intros D Hin.
  assert (G : forall keys', incl keys' keys ->
            distinct_keys key_eqb keys' ->
            flat_map (fun k' => if key_eqb k k' then f k' else []) keys'
            = if existsb (key_eqb k) keys' then f k else []).
  { induction keys' as [|a keys' IH]; intros Hi Hd; cbn [flat_map existsb]; [reflexivity|].
    inversion Hd as [|? ? Ha Hd']; subst.
    rewrite IH; [|intros x Hx; apply Hi; right; assumption | assumption].
    destruct (key_eqb k a) eqn:E; cbn [orb].
    - assert (a = k) as ->.
      { symmetry. apply (distinct_keys_eq keys); auto. apply Hi. left. reflexivity. }
      destruct (existsb (key_eqb k) keys') eqn:E'; [|apply app_nil_r].
      apply existsb_exists in E' as [x [Hx Ex]].
      rewrite Forall_forall in Ha. rewrite (Ha x Hx) in Ex. discriminate.
    - reflexivity. }
  rewrite G; [|apply incl_refl | assumption].
  replace (existsb (key_eqb k) keys) with true; [reflexivity|].
  symmetry. apply existsb_exists. exists k. auto.
Qed.

End DistinctKeys.

Lemma NoDup_distinct_records (records : list LabResultRecord.t) :
  NoDup records -> distinct_keys LabResultRecord.eqb records.
Proof.
  unfold distinct_keys. induction 1 as [|r records Hr _ IH]; constructor; [|assumption].
  apply Forall_forall. intros r' Hr'. apply not_true_is_false. intros E.
  apply LabResultRecord_eqb_eq in E as ->. contradiction.
Qed.

Lemma groups_appended_distinct (groups : list CheckGroup.t) (records : list LabResultRecord.t)
    (r : LabResultRecord.t) :
  NoDup records -> In r records ->
  groups_appended groups records r = filter (fun g => CheckGroup.matches g r) groups.
Proof.
  intros Hnd Hin. unfold groups_appended.
  induction groups as [|g groups IH]; cbn [flat_map filter]; [reflexivity|].
  rewrite IH.
  replace (flat_map _ records) with (if CheckGroup.matches g r then [g] else []).
  - destruct (CheckGroup.matches g r); reflexivity.
  - symmetry.
    rewrite (flat_map_ext _
               (fun r' =>
                  if LabResultRecord.eqb r r'
                  then (fun r' => if CheckGroup.matches g r' then [g] else []) r'
                  else [])).
    + apply (flat_map_select LabResultRecord.eqb LabResultRecord_eqb_refl
               LabResultRecord_eqb_sym records r
               (fun r' => if CheckGroup.matches g r' then [g] else []));
        [apply NoDup_distinct_records|]; assumption.
    + intros r'. destruct (CheckGroup.matches g r'), (LabResultRecord.eqb r r'); reflexivity.
Qed.

Lemma records_appended_distinct (groups : list CheckGroup.t) (records : list LabResultRecord.t)
    (g : CheckGroup.t) :
  distinct_keys CheckGroup.eqb groups -> In g groups ->
  records_appended groups records g = filter (CheckGroup.matches g) records.
Proof.
  intros D Hin. unfold records_appended.
  apply (flat_map_select CheckGroup.eqb CheckGroup_eqb_refl CheckGroup_eqb_sym groups g
           (fun g' => filter (CheckGroup.matches g') records)); assumption.
Qed.

(** The matching of distinct records against distinct groups. *)
Lemma create_distinct (config : ScoringConfig.t) (records : list LabResultRecord.t) :
  NoDup records ->
  distinct_keys CheckGroup.eqb (ScoringConfig.groups config) ->
  RecordGroupMatching.create config records
  = Ok (RecordGroupMatching.mk
          (map (fun r =>
                  (r, filter (fun g => CheckGroup.matches g r) (ScoringConfig.groups config)))
               records)
          (map (fun g => (g, filter (CheckGroup.matches g) records))
               (ScoringConfig.groups config))).
Proof.
  intros Hr Hg. rewrite create_spec. cbv zeta.
  rewrite (first_occurrences_distinct LabResultRecord.eqb records (NoDup_distinct_records _ Hr)).
  rewrite (first_occurrences_distinct CheckGroup.eqb _ Hg).
  f_equal. f_equal.
  - apply map_ext_in. intros r Hin. rewrite groups_appended_distinct; auto.
  - apply map_ext_in. intros g Hin. rewrite records_appended_distinct; auto.
Qed.

Lemma keys_selected {K V : Type} (keys : list K) (value : K -> V) (p : V -> bool) :
  map fst (filter (fun item => p (snd item)) (map (fun k => (k, value k)) keys))
  = filter (fun k => p (value k)) keys.
Proof.
  induction keys as [|k keys IH]; cbn [map filter fst snd]; [reflexivity|].
  destruct (p (value k)); cbn [map fst]; rewrite IH; reflexivity.
Qed.

Lemma filter_nil_iff {A : Type} (p : A -> bool) (l : list A) :
  filter p l = [] <-> forall a, In a l -> p a = false.
Proof.
  induction l as [|x l IH]; cbn [filter].
  - split; [intros _ a [] | reflexivity].
  - destruct (p x) eqn:E.
    + split; [discriminate|]. intros H. rewrite (H x (or_introl eq_refl)) in E. discriminate.
    + rewrite IH. split.
      * intros H a [<-|Ha]; auto.
      * intros H a Ha. apply H. right. assumption.
Qed.

Lemma dict_get_group (groups : list CheckGroup.t) (value : CheckGroup.t -> list LabResultRecord.t)
    (g : CheckGroup.t) :
  distinct_keys CheckGroup.eqb groups -> In g groups ->
  dict_get CheckGroup.eqb (map (fun k => (k, value k)) groups) g = Ok (value g).
Proof.
  intros D Hin.
  destruct (dict_get_map (A := LabResultRecord.t) CheckGroup.eqb groups value g)
    as [k' [Hk' [E ->]]].
  - exists g. split; [assumption | apply CheckGroup_eqb_refl].
  - rewrite (distinct_keys_eq CheckGroup.eqb CheckGroup_eqb_sym groups k' g D Hk' Hin E).
    reflexivity.
Qed.

Lemma mapM_map {A B : Type} (f : A -> result B) (g : A -> B) (l : list A) :
  (forall a, In a l -> f a = Ok (g a)) -> mapM f l = Ok (map g l).
Proof.
  induction l as [|a l IH]; intros H; cbn [mapM map]; [reflexivity|].
  rewrite (H a (or_introl eq_refl)), IH; [reflexivity|].
  intros a' Ha'. apply H. right. assumption.
Qed.

(** [score] on distinct records and distinct groups: the result is
    returned, and nothing is logged, exactly when every record is matched
    by one group and every group matches a record. *)
Theorem score_accepts_iff (config : ScoringConfig.t) (records : list LabResultRecord.t) :
  NoDup records ->
  distinct_keys CheckGroup.eqb (ScoringConfig.groups config) ->
  (each_record_has_one_group config records /\ each_group_has_a_record config records
   -> forall log, score config records log = (Ok (expected_result config records), log))
  /\ ((exists result log, fst (score config records log) = Ok result)
      -> each_record_has_one_group config records /\ each_group_has_a_record config records).
Proof.
  intros Hr Hg.
  unfold score, lbind, lift, lret, raise, logger_error.
  rewrite (create_distinct config records Hr Hg).
  unfold RecordGroupMatching.records_matching_multiple_groups,
    RecordGroupMatching.records_without_group, RecordGroupMatching.groups_without_records.
  cbn [RecordGroupMatching.record_to_groups RecordGroupMatching.group_to_records].
  rewrite (keys_selected records _ (fun groups => (len groups >? 1)%Z)),
    (keys_selected records _ (fun groups => (len groups =? 0)%Z)),
    (keys_selected (ScoringConfig.groups config) _ (fun records => (len records =? 0)%Z)).
  set (multiple := filter _ records).
  set (without := filter _ records).
  set (unused := filter _ (ScoringConfig.groups config)).
  assert (Hm : multiple = [] /\ without = [] <-> each_record_has_one_group config records).
  { unfold multiple, without, each_record_has_one_group. rewrite !filter_nil_iff. split.
    - intros [H1 H2] r Hin. specialize (H1 r Hin). specialize (H2 r Hin).
      cbv beta in H1, H2. unfold len in *. lia.
    - intros H. split; intros r Hin; specialize (H r Hin); cbv beta; unfold len; lia. }
  assert (Hu : unused = [] <-> each_group_has_a_record config records).
  { unfold unused, each_group_has_a_record. rewrite filter_nil_iff. split.
    - intros H g Hin. specialize (H g Hin). cbv beta in H.
      destruct (filter (CheckGroup.matches g) records) as [|r l] eqn:E;
        [discriminate H|].
      assert (Hr' : In r (filter (CheckGroup.matches g) records)) by (rewrite E; left; reflexivity).
      apply filter_In in Hr'. exists r. exact Hr'.
    - intros H g Hin. destruct (H g Hin) as [r [Hr1 Hr2]]. cbv beta.
      assert (Hr' : In r (filter (CheckGroup.matches g) records)) by (apply filter_In; auto).
      destruct (filter (CheckGroup.matches g) records); [destruct Hr' | reflexivity]. }
  split.
  - intros [H1 H2] log. apply Hm in H1 as [-> ->]. apply Hu in H2 as ->.
    rewrite (mapM_map _ (fun category =>
               CategoryResult.mk category
                 (map (fun group =>
                         GroupResult.mk group (filter (CheckGroup.matches group) records))
                      (GroupCategory.groups category)))); [reflexivity|].
    intros category Hc. unfold create_category_result.
    rewrite (mapM_map _ (fun group =>
               GroupResult.mk group (filter (CheckGroup.matches group) records)));
      [reflexivity|].
    intros group Hgr. unfold create_group_result.
    cbn [RecordGroupMatching.group_to_records].
    rewrite dict_get_group; [reflexivity | assumption|].
    unfold ScoringConfig.groups. apply in_flat_map. eauto.
  - intros [result [log H]]. rewrite <- Hm, <- Hu.
    destruct multiple as [|r1 l1].
    + destruct without as [|r2 l2].
      * destruct unused as [|g3 l3]; [auto|]. cbn in H. discriminate.
      * cbn in H. discriminate.
    + exfalso. revert H.
      match goal with |- context [mapM ?f ?l] => destruct (mapM f l) end;
        [|cbn; discriminate].
      match goal with |- context [dict_get ?e ?d ?k] => destruct (dict_get e d k) end;
        cbn; discriminate.
Qed.

Lemma post_init_ok (config : ScoringConfig.t) :
  ScoringConfig.__post_init__ config = Ok tt ->
  NoDup (map GroupCategory.name (ScoringConfig.categories config))
  /\ (forall category, In category (ScoringConfig.categories config) ->
        NoDup (map CheckGroup.name (GroupCategory.groups category))
        /\ GroupCategory.groups category <> []).
Proof.
  unfold ScoringConfig.__post_init__. rewrite for_each_check.
  destruct (len_set _ =? len (ScoringConfig.categories config))%Z eqn:E1;
    cbn [negb]; [|discriminate].
  destruct (existsb _ (ScoringConfig.categories config)) eqn:E2;
    cbn [bind]; [discriminate|].
  destruct (existsb (fun category => (len (GroupCategory.groups category) =? 0)%Z) _) eqn:E3;
    [discriminate|].
  intros _. split.
  - apply len_set_spec. rewrite len_map. exact E1.
  - intros category Hc. split.
    + apply len_set_spec. rewrite len_map.
      destruct (len_set (map CheckGroup.name (GroupCategory.groups category))
                =? len (GroupCategory.groups category))%Z eqn:E; [reflexivity|].
      assert (D : existsb
                    (fun category =>
                       negb (len_set (map CheckGroup.name (GroupCategory.groups category))
                             =? len (GroupCategory.groups category))%Z)
                    (ScoringConfig.categories config) = true).
      { apply existsb_exists. exists category. rewrite E. auto. }
      congruence.
    + intros H.
      assert (D : empty_category (ScoringConfig.categories config))
        by (exists category; auto).
      apply existsb_empty_category in D. congruence.
Qed.

Lemma distinct_keys_app {K : Type} (key_eqb : K -> K -> bool) (l1 l2 : list K) :
  distinct_keys key_eqb l1 -> distinct_keys key_eqb l2 ->
  (forall a b, In a l1 -> In b l2 -> key_eqb a b = false) ->
  distinct_keys key_eqb (l1 ++ l2).
Proof.
  unfold distinct_keys. induction 1 as [|a l1 Ha _ IH]; intros H2 H; simpl; [assumption|].
  constructor.
  - apply Forall_app. split; [assumption|].
    apply Forall_forall. intros b Hb. apply H; [left; reflexivity | assumption].
  - apply IH; [assumption|]. intros x y Hx Hy. apply H; [right|]; assumption.
Qed.

Lemma distinct_names_distinct_groups (groups : list CheckGroup.t) :
  NoDup (map CheckGroup.name groups) -> distinct_keys CheckGroup.eqb groups.
Proof.
  unfold distinct_keys. induction groups as [|g groups IH]; simpl; intros H; [constructor|].
  inversion H as [|? ? Hg Hrest]; subst. constructor; [|auto].
  apply Forall_forall. intros g' Hg'. unfold CheckGroup.eqb.
  replace (String.eqb (CheckGroup.name g) (CheckGroup.name g')) with false; [reflexivity|].
  symmetry. apply String.eqb_neq. intros E. apply Hg. rewrite E. apply in_map. assumption.
Qed.

(** The groups of a validated configuration are distinct keys. *)
Lemma validated_groups_distinct (config : ScoringConfig.t) :
  ScoringConfig.__post_init__ config = Ok tt ->
  well_referenced config ->
  distinct_keys CheckGroup.eqb (ScoringConfig.groups config).
Proof.
  intros Hv Hw. apply post_init_ok in Hv as [Hc Hg].
  unfold ScoringConfig.groups, well_referenced in *.
  induction (ScoringConfig.categories config) as [|c cs IH]; cbn [flat_map].
  - constructor.
  - simpl in Hc. inversion Hc as [|? ? Hn Hc']; subst.
    apply distinct_keys_app.
    + apply distinct_names_distinct_groups. apply Hg. left. reflexivity.
    + apply IH; [assumption | |].
      * intros c' Hc''. apply Hg. right. assumption.
      * intros c' g Hc'' Hg'. apply Hw; [right|]; assumption.
    + intros a b Ha Hb. apply in_flat_map in Hb as [c' [Hc'' Hb]].
      unfold CheckGroup.eqb, CategoryRef.eqb.
      rewrite (Hw c a (or_introl eq_refl) Ha), (Hw c' b (or_intror Hc'') Hb).
      cbn [GroupCategory.ref CategoryRef.name].
      replace (String.eqb (GroupCategory.name c) (GroupCategory.name c')) with false.
      * rewrite !andb_false_r. reflexivity.
      * symmetry. apply String.eqb_neq. intros E. apply Hn. rewrite E.
        apply in_map. assumption.
Qed.

Lemma dict_get_record (records : list LabResultRecord.t)
    (value : LabResultRecord.t -> list CheckGroup.t) (r : LabResultRecord.t) :
  In r records ->
  dict_get LabResultRecord.eqb (map (fun k => (k, value k)) records) r = Ok (value r).
Proof.
  intros Hin.
  destruct (dict_get_map (A := CheckGroup.t) LabResultRecord.eqb records value r)
    as [k' [Hk' [E ->]]].
  - exists r. split; [assumption | apply LabResultRecord_eqb_refl].
  - apply LabResultRecord_eqb_eq in E as ->. reflexivity.
Qed.

Lemma CheckGroup_eqb_congr (a b c : CheckGroup.t) :
  CheckGroup.eqb a b = true -> CheckGroup.eqb a c = CheckGroup.eqb b c.
Proof.
  intros E. destruct (CheckGroup.eqb a c) eqn:E1, (CheckGroup.eqb b c) eqn:E2;
    try reflexivity.
  - rewrite CheckGroup_eqb_sym in E.
    rewrite (CheckGroup_eqb_trans _ _ _ E E1) in E2. discriminate.
  - rewrite (CheckGroup_eqb_trans _ _ _ E E2) in E1. discriminate.
Qed.

Lemma records_appended_congr (groups : list CheckGroup.t) (records : list LabResultRecord.t)
    (a b : CheckGroup.t) :
  CheckGroup.eqb a b = true ->
  records_appended groups records a = records_appended groups records b.
Proof.
  intros E. unfold records_appended. apply flat_map_ext. intros g.
  rewrite (CheckGroup_eqb_congr a b g E). reflexivity.
Qed.

(** The closed form of [score]. *)
Theorem score_eval (config : ScoringConfig.t) (records : list LabResultRecord.t)
    (log : list message) :
  score config records log
  = (fst (score_outcome config records), log ++ snd (score_outcome config records)).
Proof.
  unfold score_outcome, ambiguous_records, unmatched_records, unused_groups, scored.
  set (groups := ScoringConfig.groups config).
  unfold score, lbind, lift, lret, raise, logger_error.
  rewrite create_spec. fold groups. cbv zeta.
  destruct (first_occurrences_spec CheckGroup.eqb CheckGroup_eqb_refl
              CheckGroup_eqb_trans groups) as [_ [_ G2]].
  unfold RecordGroupMatching.records_matching_multiple_groups,
    RecordGroupMatching.records_without_group, RecordGroupMatching.groups_without_records.
  cbn [RecordGroupMatching.record_to_groups RecordGroupMatching.group_to_records].
  rewrite (keys_selected _ _ (fun groups => (len groups >? 1)%Z)),
    (keys_selected _ _ (fun groups => (len groups =? 0)%Z)),
    (keys_selected _ _ (fun records => (len records =? 0)%Z)).
  set (keys := first_occurrences LabResultRecord.eqb records) in *.
  destruct (filter _ keys) as [|r1 l1] eqn:E1.
  - destruct (filter (fun k => (len (groups_appended groups records k) =? 0)%Z) keys)
      as [|r2 l2] eqn:E2.
    + destruct (filter _ (first_occurrences CheckGroup.eqb groups)) as [|g3 l3] eqn:E3.
      * cbn [fst snd]. rewrite app_nil_r.
        rewrite (mapM_map _ (fun category =>
                   CategoryResult.mk category
                     (map (fun group =>
                             GroupResult.mk group (records_appended groups records group))
                          (GroupCategory.groups category)))); [reflexivity|].
        intros category Hc. unfold create_category_result.
        rewrite (mapM_map _ (fun group =>
                   GroupResult.mk group (records_appended groups records group)));
          [reflexivity|].
        intros group Hgr. unfold create_group_result.
        cbn [RecordGroupMatching.group_to_records].
        destruct (dict_get_map (A := LabResultRecord.t) CheckGroup.eqb
                    (first_occurrences CheckGroup.eqb groups)
                    (fun k => records_appended groups records k) group)
          as [k' [_ [E ->]]].
        -- apply G2. unfold groups, ScoringConfig.groups. apply in_flat_map. eauto.
        -- cbn [bind]. rewrite (records_appended_congr groups records k' group E).
           reflexivity.
      * cbn [fst snd]. rewrite <- app_assoc. reflexivity.
    + cbn [fst snd]. rewrite <- app_assoc. reflexivity.
  - assert (Hall : forall r, In r (r1 :: l1) -> In r keys).
    { intros r Hr. rewrite <- E1 in Hr. apply filter_In in Hr. tauto. }
    rewrite (mapM_map _ (fun record =>
               [Text "["] ++ LabResultRecord.repr record ++ [Text " -> "]
               ++ repr_groups (groups_appended groups records record) ++ [Text "]"])).
    + rewrite dict_get_record; [|apply Hall; left; reflexivity].
      cbn [fst snd]. rewrite <- app_assoc. reflexivity.
    + intros r Hr. rewrite dict_get_record; [reflexivity | auto].
Qed.

Lemma flat_map_length_ge {A B : Type} (f : A -> list B) (l : list A) (a : A) :
  In a l -> (List.length (f a) <= List.length (flat_map f l))%nat.
Proof.
  induction l as [|x l IH]; intros Hin; [destruct Hin|].
  cbn [flat_map]. rewrite length_app. destruct Hin as [->|Hin]; [lia|].
  specialize (IH Hin). lia.
Qed.

Lemma matched_copies (g : CheckGroup.t) (r : LabResultRecord.t)
    (records : list LabResultRecord.t) :
  CheckGroup.matches g r = true ->
  List.length
    (flat_map (fun r' => if CheckGroup.matches g r' && LabResultRecord.eqb r r' then [g] else [])
              records)
  = List.length (filter (LabResultRecord.eqb r) records).
Proof.
  intros M. induction records as [|r' records IH]; cbn [flat_map filter]; [reflexivity|].
  rewrite length_app, IH.
  destruct (LabResultRecord.eqb r r') eqn:E.
  - apply LabResultRecord_eqb_eq in E as <-. rewrite M. reflexivity.
  - rewrite andb_false_r. reflexivity.
Qed.

(** A record that occurs more than once in the input and that a group
    matches is held against the configuration as an ambiguous record,
    whatever the patterns of the other groups. *)
Theorem repeated_record_is_rejected (config : ScoringConfig.t)
    (records : list LabResultRecord.t) (r : LabResultRecord.t) (g : CheckGroup.t) :
  In g (ScoringConfig.groups config) ->
  CheckGroup.matches g r = true ->
  (2 <= List.length (filter (LabResultRecord.eqb r) records))%nat ->
  exists record,
    In record (ambiguous_records config records)
    /\ forall log,
         fst (score config records log)
         = Err (ValueError
                  (msg_multiple record
                     (groups_appended (ScoringConfig.groups config) records record))).
Proof.
  intros Hg M Hcount.
  assert (Hamb : In r (ambiguous_records config records)).
  { unfold ambiguous_records. apply filter_In. split.
    - destruct (filter (LabResultRecord.eqb r) records) as [|r' l] eqn:E;
        [simpl in Hcount; lia|].
      assert (Hr' : In r' (filter (LabResultRecord.eqb r) records))
        by (rewrite E; left; reflexivity).
      apply filter_In in Hr' as [Hin Er]. apply LabResultRecord_eqb_eq in Er as <-.
      destruct (first_occurrences_spec LabResultRecord.eqb LabResultRecord_eqb_refl
                  LabResultRecord_eqb_trans records) as [_ [_ P]].
      destruct (P r Hin) as [k [Hk Ek]]. apply LabResultRecord_eqb_eq in Ek as <-.
      exact Hk.
    - apply Z.gtb_lt. unfold len, groups_appended.
      pose proof (flat_map_length_ge
                    (fun g => flat_map
                                (fun r' => if CheckGroup.matches g r' && LabResultRecord.eqb r r'
                                           then [g] else []) records)
                    (ScoringConfig.groups config) g Hg) as Hle.
      cbv beta in Hle. rewrite (matched_copies g r records M) in Hle. lia. }
  destruct (ambiguous_records config records) as [|record rest] eqn:E; [destruct Hamb|].
  exists record. split; [left; reflexivity|].
  intros log. rewrite score_eval. unfold score_outcome. rewrite E. reflexivity.
Qed.

(** ** [score], its logger and the store *)

Lemma score_decide (config : ScoringConfig.t) (records : list LabResultRecord.t) :
  score config records
  = lbind (lift (RecordGroupMatching.create config records)) (decide config).
Proof. reflexivity. Qed.

Lemma append_at_length {A : Type} (r : Store.ref) (x : A) (lists : list (list A)) :
  List.length (Store.append_at r x lists) = List.length lists.
Proof.
  revert r. induction lists as [|l lists IH]; intros r; [reflexivity|].
  destruct r; cbn [Store.append_at List.length]; [reflexivity | rewrite IH; reflexivity].
Qed.

Lemma append_at_same {A : Type} (r : Store.ref) (x : A) (lists : list (list A)) :
  (r < List.length lists)%nat ->
  nth r (Store.append_at r x lists) [] = nth r lists [] ++ [x].
Proof.
  revert r. induction lists as [|l lists IH]; intros r Hr; [simpl in Hr; lia|].
  destruct r; cbn [Store.append_at nth]; [reflexivity|].
  apply IH. simpl in Hr. lia.
Qed.

Lemma append_at_other {A : Type} (r r' : Store.ref) (x : A) (lists : list (list A)) :
  r' <> r -> nth r' (Store.append_at r x lists) [] = nth r' lists [].
Proof.
  revert r r'. induction lists as [|l lists IH]; intros r r' Hr; [reflexivity|].
  destruct r, r'; cbn [Store.append_at nth]; try reflexivity; [contradiction|].
  apply IH. congruence.
Qed.

(** Appending to an object keeps the objects before it. *)
Lemma append_at_app {A : Type} (r : Store.ref) (x : A) (old new : list (list A)) :
  (List.length old <= r)%nat ->
  Store.append_at r x (old ++ new) = old ++ Store.append_at (r - List.length old)%nat x new.
Proof.
  revert r. induction old as [|l old IH]; intros r Hr; cbn [app List.length].
  - rewrite Nat.sub_0_r. reflexivity.
  - destruct r; [simpl in Hr; lia|]. cbn [Store.append_at Nat.sub].
    rewrite IH; [reflexivity | simpl in Hr; lia].
Qed.

Section DictOfRefs.

Context {K A : Type}.
Variable key_eqb : K -> K -> bool.

Lemma dict_get_value (lists : list (list A)) (d : dict K Store.ref) (k : K) :
  dict_get key_eqb (dict_value lists d) k
  = match dict_get key_eqb d k with
    | Ok r => Ok (nth r lists [])
    | Err e => Err e
    end.
Proof.
  induction d as [|[k0 r0] d IH]; cbn [dict_value map dict_get fst snd]; [reflexivity|].
  destruct (key_eqb k0 k); [reflexivity | exact IH].
Qed.

Lemma dict_get_In (d : dict K Store.ref) (k : K) (r : Store.ref) :
  dict_get key_eqb d k = Ok r -> In r (map snd d).
Proof.
  induction d as [|[k0 r0] d IH]; cbn [dict_get map snd]; [discriminate|].
  destruct (key_eqb k0 k); [intros [= ->]; left; reflexivity | intros H; right; auto].
Qed.

(** Two keys never share a list object: an append to the list of one
    key is an update of that key alone. *)
Lemma dict_append_value (lists : list (list A)) (d : dict K Store.ref) (k : K)
    (r : Store.ref) (x : A) :
  NoDup (map snd d) ->
  (forall r', In r' (map snd d) -> (r' < List.length lists)%nat) ->
  dict_get key_eqb d k = Ok r ->
  dict_append key_eqb (dict_value lists d) k x
  = Ok (dict_value (Store.append_at r x lists) d).
Proof.
  unfold dict_append. intros Hnd Hin Hget. rewrite dict_get_value, Hget. cbn [bind].
  f_equal. revert Hnd Hin Hget.
  induction d as [|[k0 r0] d IH]; cbn [dict_get]; [discriminate|].
  cbn [map snd]. intros Hnd Hin Hget. inversion Hnd as [|? ? Hout Hnd']; subst.
  cbn [dict_value map dict_set fst snd].
  destruct (key_eqb k0 k).
  - injection Hget as ->. rewrite append_at_same by (apply Hin; left; reflexivity).
    f_equal. apply map_ext_in. intros [k1 r1] H1. cbn [fst snd].
    rewrite append_at_other; [reflexivity|].
    intros ->. apply Hout. apply in_map_iff. exists (k1, r). auto.
  - rewrite append_at_other.
    + f_equal. apply IH; [assumption | intros; apply Hin; right; assumption | assumption].
    + intros ->. apply Hout. eapply dict_get_In. exact Hget.
Qed.

Lemma dict_set_keys {V : Type} (d : dict K V) (k : K) (v : V) :
  map fst (dict_set key_eqb d k v)
  = if existsb (fun k' => key_eqb k' k) (map fst d) then map fst d else map fst d ++ [k].
Proof.
  induction d as [|[k0 v0] d IH]; cbn [dict_set map fst existsb]; [reflexivity|].
  destruct (key_eqb k0 k); cbn [orb map fst]; [reflexivity|].
  rewrite IH. destruct (existsb _ (map fst d)); reflexivity.
Qed.

Lemma dict_set_values (d : dict K Store.ref) (k : K) (r : Store.ref) :
  NoDup (map snd d) -> ~ In r (map snd d) ->
  NoDup (map snd (dict_set key_eqb d k r))
  /\ forall r', In r' (map snd (dict_set key_eqb d k r)) -> r' = r \/ In r' (map snd d).
Proof.
  induction d as [|[k0 r0] d IH]; cbn [dict_set map snd]; intros Hnd Hout.
  - split; [repeat constructor; intros [] | intros r' [<-|[]]; auto].
  - inversion Hnd as [|? ? Hout0 Hnd']; subst.
    destruct (key_eqb k0 k); cbn [map snd].
    + split.
      * constructor; [|assumption]. intros H. apply Hout. right. exact H.
      * intros r' [<-|H]; [left; reflexivity | right; right; exact H].
    + destruct IH as [IH1 IH2]; [assumption | intros H; apply Hout; right; exact H|].
      split.
      * constructor; [|assumption]. intros H. destruct (IH2 _ H) as [->|H'].
        -- apply Hout. left. reflexivity.
        -- contradiction.
      * intros r' [<-|H]; [right; left; reflexivity|].
        destruct (IH2 _ H) as [->|H']; [left; reflexivity | right; right; exact H'].
Qed.

End DictOfRefs.

Lemma fresh_refs_set {K : Type} (key_eqb : K -> K -> bool) (base size : nat)
    (d : dict K Store.ref) (k : K) :
  (base <= size)%nat ->
  fresh_refs base size d -> fresh_refs base (S size) (dict_set key_eqb d k size).
Proof.
  intros Hb [Hnd Hin].
  destruct (dict_set_values key_eqb d k size Hnd) as [H1 H2].
  { intros H. apply Hin in H. lia. }
  split; [exact H1|]. intros r Hr. destruct (H2 r Hr) as [->|H]; [lia|].
  apply Hin in H. lia.
Qed.

Lemma nth_new_lists {A : Type} (old : list (list A)) (n r : nat) :
  (List.length old <= r)%nat -> nth r (old ++ repeat [] n) [] = [].
Proof.
  intros H. rewrite app_nth2 by lia.
  destruct (Nat.lt_ge_cases (r - List.length old) n) as [L|L].
  - apply nth_repeat_lt. exact L.
  - apply nth_overflow. rewrite repeat_length. exact L.
Qed.

Lemma new_group_dict {K : Type} (key_eqb : K -> K -> bool) (keys : list K) :
  forall (d : dict K Store.ref) (st : Store.t) (base : nat),
    (base <= List.length (Store.group_lists st))%nat ->
    fresh_refs base (List.length (Store.group_lists st)) d ->
    exists d',
      Store.new_dict key_eqb Store.new_group_list keys d st
      = (Ok d',
         Store.mk (Store.record_lists st)
                  (Store.group_lists st ++ repeat [] (List.length keys))
                  (Store.category_lists st))
      /\ map fst d' = seen_keys key_eqb keys (map fst d)
      /\ fresh_refs base (List.length (Store.group_lists st) + List.length keys) d'.
Proof.
  induction keys as [|k keys IH]; intros d st base Hb Hd.
  - exists d. cbn [Store.new_dict repeat List.length]. unfold Store.sret.
    rewrite app_nil_r, Nat.add_0_r. destruct st. auto.
  - cbn [Store.new_dict]. unfold Store.sbind.
    set (st1 := Store.mk (Store.record_lists st) (Store.group_lists st ++ [[]])
                         (Store.category_lists st)).
    change (Store.new_group_list st) with (Ok (List.length (Store.group_lists st)), st1).
    cbv beta iota.
    destruct (IH (dict_set key_eqb d k (List.length (Store.group_lists st))) st1 base)
      as [d' [E [Hk Hf]]].
    + unfold st1. cbn [Store.group_lists]. rewrite length_app. lia.
    + unfold st1. cbn [Store.group_lists]. rewrite length_app, Nat.add_1_r.
      apply fresh_refs_set; assumption.
    + exists d'. rewrite E. unfold st1.
      cbn [Store.group_lists Store.record_lists Store.category_lists repeat List.length].
      rewrite <- app_assoc. cbn [app]. split; [reflexivity|]. split.
      * rewrite Hk, dict_set_keys. reflexivity.
      * unfold st1 in Hf. cbn [Store.group_lists] in Hf.
        rewrite length_app in Hf. cbn [List.length] in Hf.
        replace (List.length (Store.group_lists st) + S (List.length keys))%nat
          with (List.length (Store.group_lists st) + 1 + List.length keys)%nat by lia.
        exact Hf.
Qed.

Lemma new_record_dict {K : Type} (key_eqb : K -> K -> bool) (keys : list K) :
  forall (d : dict K Store.ref) (st : Store.t) (base : nat),
    (base <= List.length (Store.record_lists st))%nat ->
    fresh_refs base (List.length (Store.record_lists st)) d ->
    exists d',
      Store.new_dict key_eqb Store.new_record_list keys d st
      = (Ok d',
         Store.mk (Store.record_lists st ++ repeat [] (List.length keys))
                  (Store.group_lists st)
                  (Store.category_lists st))
      /\ map fst d' = seen_keys key_eqb keys (map fst d)
      /\ fresh_refs base (List.length (Store.record_lists st) + List.length keys) d'.
Proof.
  induction keys as [|k keys IH]; intros d st base Hb Hd.
  - exists d. cbn [Store.new_dict repeat List.length]. unfold Store.sret.
    rewrite app_nil_r, Nat.add_0_r. destruct st. auto.
  - cbn [Store.new_dict]. unfold Store.sbind.
    set (st1 := Store.mk (Store.record_lists st ++ [[]]) (Store.group_lists st)
                         (Store.category_lists st)).
    change (Store.new_record_list st) with (Ok (List.length (Store.record_lists st)), st1).
    cbv beta iota.
    destruct (IH (dict_set key_eqb d k (List.length (Store.record_lists st))) st1 base)
      as [d' [E [Hk Hf]]].
    + unfold st1. cbn [Store.record_lists]. rewrite length_app. lia.
    + unfold st1. cbn [Store.record_lists]. rewrite length_app, Nat.add_1_r.
      apply fresh_refs_set; assumption.
    + exists d'. rewrite E. unfold st1.
      cbn [Store.group_lists Store.record_lists Store.category_lists repeat List.length].
      rewrite <- app_assoc. cbn [app]. split; [reflexivity|]. split.
      * rewrite Hk, dict_set_keys. reflexivity.
      * unfold st1 in Hf. cbn [Store.record_lists] in Hf.
        rewrite length_app in Hf. cbn [List.length] in Hf.
        replace (List.length (Store.record_lists st) + S (List.length keys))%nat
          with (List.length (Store.record_lists st) + 1 + List.length keys)%nat by lia.
        exact Hf.
Qed.

(** A dict of new lists holds the empty list under every key. *)
Lemma dict_value_new {K A : Type} (key_eqb : K -> K -> bool) (old : list (list A))
    (n : nat) (keys : list K) (d : dict K Store.ref) :
  map fst d = seen_keys key_eqb keys [] ->
  fresh_refs (List.length old) (List.length old + n) d ->
  dict_value (old ++ repeat [] n) d = dict_from_keys key_eqb keys [].
Proof.
  intros Hk [_ Hin]. rewrite dict_from_keys_nil.
  change (first_occurrences key_eqb keys) with (seen_keys key_eqb keys []).
  rewrite <- Hk. unfold dict_value. rewrite map_map.
  apply map_ext_in. intros [k r] H. cbn [fst snd]. f_equal.
  apply nth_new_lists. apply (Hin r). apply in_map_iff. exists (k, r). auto.
Qed.

Lemma unchanged_refl (st : Store.t) : Store.unchanged st st.
Proof.
  split; [exists []; rewrite app_nil_r; reflexivity|].
  split; [exists []; rewrite app_nil_r; reflexivity | reflexivity].
Qed.

Lemma unchanged_trans (a b c : Store.t) :
  Store.unchanged a b -> Store.unchanged b c -> Store.unchanged a c.
Proof.
  intros [[r1 R1] [[g1 G1] C1]] [[r2 R2] [[g2 G2] C2]]. split; [|split].
  - exists (r1 ++ r2). rewrite R2, R1, app_assoc. reflexivity.
  - exists (g1 ++ g2). rewrite G2, G1, app_assoc. reflexivity.
  - congruence.
Qed.

Lemma store_match_record_simulates (st0 st : Store.t) (m : Store.matching)
    (group : CheckGroup.t) (record : LabResultRecord.t) :
  kept st0 st m ->
  simulates st0 m (store_match_record m group record st)
            (match_record group (Store.matching_value st m) record).
Proof.
  intros K. pose proof K as [U [[N1 F1] [N2 F2]]].
  unfold store_match_record, match_record, simulates.
  destruct (CheckGroup.matches group record); [|cbn; auto].
  unfold Store.matching_value.
  cbn [RecordGroupMatching.record_to_groups RecordGroupMatching.group_to_records].
  change (map (fun item => (fst item, nth (snd item) (Store.group_lists st) []))
              (Store.record_to_groups m))
    with (dict_value (Store.group_lists st) (Store.record_to_groups m)).
  change (map (fun item => (fst item, nth (snd item) (Store.record_lists st) []))
              (Store.group_to_records m))
    with (dict_value (Store.record_lists st) (Store.group_to_records m)).
  unfold Store.sbind, Store.slift.
  destruct (dict_get LabResultRecord.eqb (Store.record_to_groups m) record) as [l|e] eqn:E1.
  2:{ cbn [fst snd]. split; [exact U|].
      unfold dict_append. rewrite dict_get_value, E1. reflexivity. }
  rewrite (dict_append_value LabResultRecord.eqb _ _ _ l group N1
             (fun r H => proj2 (F1 r H)) E1).
  cbn [bind]. unfold Store.append_group. cbv beta iota.
  cbn [Store.record_lists Store.group_lists Store.category_lists].
  pose proof (F1 l (dict_get_In _ _ _ _ E1)) as Hl.
  assert (U1 : Store.unchanged st0
                 (Store.mk (Store.record_lists st)
                    (Store.append_at l group (Store.group_lists st))
                    (Store.category_lists st))).
  { destruct U as [UR [[g UG] UC]]. split; [exact UR|]. split; [|exact UC].
    cbn [Store.group_lists]. rewrite UG, append_at_app by lia. eauto. }
  destruct (dict_get CheckGroup.eqb (Store.group_to_records m) group) as [l'|e] eqn:E2.
  2:{ cbn [fst snd]. split; [exact U1|].
      unfold dict_append. rewrite dict_get_value, E2. reflexivity. }
  rewrite (dict_append_value CheckGroup.eqb _ _ _ l' record N2
             (fun r H => proj2 (F2 r H)) E2).
  cbn [bind]. unfold Store.append_record. cbv beta iota.
  cbn [Store.record_lists Store.group_lists Store.category_lists fst snd].
  pose proof (F2 l' (dict_get_In _ _ _ _ E2)) as Hl'.
  split; [|reflexivity]. split; [|split].
  - destruct U1 as [[r UR] [UG UC]]. split; [|split; [exact UG | exact UC]].
    cbn [Store.record_lists] in *. rewrite UR, append_at_app by lia. eauto.
  - cbn [Store.group_lists]. rewrite append_at_length. split; assumption.
  - cbn [Store.record_lists]. rewrite append_at_length. split; assumption.
Qed.

Lemma records_loop_simulates (st0 : Store.t) (m : Store.matching) (group : CheckGroup.t)
    (items : list LabResultRecord.t) :
  forall st,
    kept st0 st m ->
    simulates st0 m (Store.sfor items (store_match_record m group) st)
              (for_fold (match_record group) items (Store.matching_value st m)).
Proof.
  induction items as [|record items IH]; intros st K.
  - cbn. auto.
  - cbn [Store.sfor for_fold]. unfold Store.sbind.
    pose proof (store_match_record_simulates st0 st m group record K) as S.
    unfold simulates in S.
    destruct (store_match_record m group record st) as [[[]|e] st1]; cbn [fst snd] in S.
    + destruct S as [K1 ->]. cbn [bind]. apply IH. exact K1.
    + destruct S as [U ->]. cbn [bind]. split; [exact U | reflexivity].
Qed.

Lemma groups_loop_simulates (st0 : Store.t) (m : Store.matching) (records : Store.ref)
    (groups : list CheckGroup.t) :
  (records < List.length (Store.record_lists st0))%nat ->
  forall st,
    kept st0 st m ->
    simulates st0 m
      (Store.sfor groups
         (fun group =>
            Store.sbind (Store.read_records records)
              (fun items => Store.sfor items (store_match_record m group))) st)
      (for_fold
         (fun matching group =>
            for_fold (match_record group) (Store.records_value st0 records) matching)
         groups (Store.matching_value st m)).
Proof.
  intros Hr. induction groups as [|group groups IH]; intros st K.
  - cbn. auto.
  - cbn [Store.sfor for_fold]. unfold Store.sbind at 1.
    assert (R : Store.read_records records st = (Ok (Store.records_value st0 records), st)).
    { unfold Store.read_records, Store.records_value. f_equal. f_equal.
      destruct K as [[[r UR] _] _]. rewrite UR. apply app_nth1. exact Hr. }
    unfold Store.sbind at 1. rewrite R. cbv beta iota.
    pose proof (records_loop_simulates st0 m group (Store.records_value st0 records) st K)
      as S.
    unfold simulates in S.
    destruct (Store.sfor _ (store_match_record m group) st) as [[[]|e] st1];
      cbn [fst snd] in S.
    + destruct S as [K1 ->]. cbn [bind]. apply IH. exact K1.
    + destruct S as [U ->]. cbn [bind]. split; [exact U | reflexivity].
Qed.

Lemma config_groups_value (st : Store.t) (config : Store.config) :
  Store.config_groups config st
  = (Ok (ScoringConfig.groups (Store.config_value st config)), st).
Proof.
  unfold Store.config_groups, Store.sbind, Store.read_categories. cbv beta iota.
  assert (M : forall cats,
    Store.smapM (fun category => Store.read_groups (Store.groups category)) cats st
    = (Ok (map (fun c => nth (Store.groups c) (Store.group_lists st) []) cats), st)).
  { induction cats as [|c cats IH]; cbn [Store.smapM map]; [reflexivity|].
    unfold Store.sbind, Store.read_groups at 1. cbv beta iota. rewrite IH. reflexivity. }
  rewrite M. unfold Store.sret, ScoringConfig.groups, Store.config_value.
  cbn [ScoringConfig.categories]. rewrite flat_map_concat_map, map_map. reflexivity.
Qed.

(** A store that keeps the objects of [st] holds the same configuration
    and the same records. *)
Lemma values_unchanged (st st' : Store.t) (config : Store.config) (records : Store.ref) :
  Store.holds st config records -> Store.unchanged st st' ->
  Store.holds st' config records
  /\ Store.config_value st' config = Store.config_value st config
  /\ Store.records_value st' records = Store.records_value st records.
Proof.
  intros [Hr [Hc Hg]] [[r UR] [[g UG] UC]].
  assert (G : forall c, In c (nth (Store.categories config) (Store.category_lists st) []) ->
                nth (Store.groups c) (Store.group_lists st') []
                = nth (Store.groups c) (Store.group_lists st) []).
  { intros c Hin. rewrite UG. apply app_nth1. apply Hg. exact Hin. }
  split; [|split].
  - split; [rewrite UR, length_app; lia|]. split; [rewrite UC; exact Hc|].
    rewrite UC. intros c Hin. rewrite UG, length_app. specialize (Hg c Hin). lia.
  - unfold Store.config_value. rewrite UC. f_equal. apply map_ext_in. intros c Hin.
    unfold Store.category_value. rewrite (G c Hin). reflexivity.
  - unfold Store.records_value. rewrite UR. apply app_nth1. exact Hr.
Qed.

(** [create] in the store: it returns the matching that [create] on the
    values of the configuration and of the records returns, in lists that
    are all new, and no object that there was is changed. *)
Lemma store_create (st : Store.t) (config : Store.config) (records : Store.ref) :
  Store.holds st config records ->
  exists m st',
    Store.create config records st = (Ok m, st')
    /\ Store.unchanged st st'
    /\ RecordGroupMatching.create (Store.config_value st config)
         (Store.records_value st records)
       = Ok (Store.matching_value st' m).
Proof.
  intros H. pose proof H as [Hr _].
  set (recs := Store.records_value st records).
  set (cfg := Store.config_value st config).
  unfold Store.create. unfold Store.sbind at 1.
  change (Store.read_records records st) with (Ok recs, st). cbv beta iota.
  destruct (new_group_dict LabResultRecord.eqb recs [] st
              (List.length (Store.group_lists st)) (le_n _))
    as [r2g [E1 [K1 F1]]].
  { split; [constructor | intros r []]. }
  unfold Store.sbind at 1. rewrite E1. cbv beta iota.
  set (st1 := Store.mk _ _ _).
  assert (U1 : Store.unchanged st st1).
  { unfold st1. split; [exists []; rewrite app_nil_r; reflexivity|].
    split; [eexists; reflexivity | reflexivity]. }
  destruct (values_unchanged st st1 config records H U1) as [H1 [C1 _]].
  unfold Store.sbind at 1. rewrite config_groups_value, C1. fold cfg. cbv beta iota.
  destruct (new_record_dict CheckGroup.eqb (ScoringConfig.groups cfg) [] st1
              (List.length (Store.record_lists st1)) (le_n _))
    as [g2r [E2 [K2 F2]]].
  { split; [constructor | intros r []]. }
  unfold Store.sbind at 1. rewrite E2. cbv beta iota.
  set (st2 := Store.mk _ _ _).
  assert (U2 : Store.unchanged st st2).
  { unfold st2, st1. cbn [Store.record_lists Store.group_lists Store.category_lists].
    split; [eexists; reflexivity|]. split; [eexists; reflexivity | reflexivity]. }
  destruct (values_unchanged st st2 config records H U2) as [H2 [C2 _]].
  unfold Store.sbind at 1. rewrite config_groups_value, C2. fold cfg. cbv beta iota.
  set (m := Store.mk_matching r2g g2r).
  assert (K : kept st st2 m).
  { split; [exact U2|]. unfold st2, st1.
    cbn [Store.record_lists Store.group_lists Store.category_lists
         Store.record_to_groups Store.group_to_records m]. rewrite !length_app, !repeat_length.
    split; assumption. }
  assert (V : Store.matching_value st2 m
              = RecordGroupMatching.mk (dict_from_keys LabResultRecord.eqb recs [])
                  (dict_from_keys CheckGroup.eqb (ScoringConfig.groups cfg) [])).
  { unfold Store.matching_value, st2, st1.
    cbn [Store.record_lists Store.group_lists Store.category_lists
         Store.record_to_groups Store.group_to_records m].
    f_equal.
    - apply (dict_value_new LabResultRecord.eqb); assumption.
    - apply (dict_value_new CheckGroup.eqb); assumption. }
  pose proof (groups_loop_simulates st m records (ScoringConfig.groups cfg) Hr st2 K) as S.
  unfold simulates in S. rewrite V in S. fold recs in S.
  change (for_fold _ (ScoringConfig.groups cfg) _)
    with (RecordGroupMatching.create cfg recs) in S.
  pose proof (create_spec cfg recs) as P. cbv zeta in P.
  unfold Store.sbind at 1.
  change (Store.sfor (ScoringConfig.groups cfg) _ st2)
    with (Store.sfor (ScoringConfig.groups cfg)
            (fun group =>
               Store.sbind (Store.read_records records)
                 (fun items => Store.sfor items (store_match_record m group))) st2).
  destruct (Store.sfor _ _ st2) as [[[]|e] st3]; cbn [fst snd] in S.
  - destruct S as [[U3 _] E]. exists m, st3. split; [reflexivity|]. split; assumption.
  - destruct S as [_ E]. rewrite P in E. discriminate E.
Qed.

(** [score] in the store returns what [score] on the values of its
    arguments returns and logs what it logs. *)
Lemma store_score (st : Store.t) (config : Store.config) (records : Store.ref)
    (log : list message) :
  Store.holds st config records ->
  exists st',
    Store.score config records st log
    = (fst (score (Store.config_value st config) (Store.records_value st records) log),
       st',
       snd (score (Store.config_value st config) (Store.records_value st records) log))
    /\ Store.unchanged st st'.
Proof.
  intros H. destruct (store_create st config records H) as [m [st' [E [U P]]]].
  exists st'. split; [|exact U].
  unfold Store.score. rewrite E.
  destruct (values_unchanged st st' config records H U) as [_ [-> _]].
  rewrite score_decide. unfold lbind, lift. rewrite P.
  destruct (decide _ _ log) as [outcome log']. reflexivity.
Qed.

(** What [score] writes: nothing with a result, two lines with a
    [ValueError], and it raises nothing else. *)
Lemma score_writes (config : ScoringConfig.t) (records : list LabResultRecord.t) :
  exists outcome written,
    (forall log, score config records log = (outcome, log ++ written))
    /\ (forall r, outcome = Ok r -> written = [])
    /\ (forall e, outcome = Err e ->
          exists msg heading offenders,
            e = ValueError msg /\ written = [heading; offenders]).
Proof.
  exists (fst (score_outcome config records)), (snd (score_outcome config records)).
  split; [intros log; apply score_eval|].
  unfold score_outcome.
  destruct (ambiguous_records config records);
    [destruct (unmatched_records config records);
       [destruct (unused_groups config records)|]|]; cbn [fst snd];
    (split; [intros r0 E; try discriminate E; reflexivity|]);
    intros e E; try discriminate E; injection E as <-; eauto.
Qed.

(** C9 (as amended).  A call of [score] on a configuration and a list of
    records that are objects of the store changes no list object that was
    there before it, its arguments among them: the lists it appends to are
    lists it has made.  What it returns and what it writes to the logger
    are what [score] makes of the values of its arguments, so that a second
    call on the same arguments, in the store and after the log that the
    first call has left, returns the same and writes the same.  It is free
    of side effects when it returns a result; when it raises, which is
    always a [ValueError], it has written two lines to the logger. *)
Theorem score_is_a_function_of_its_inputs (st : Store.t) (config : Store.config)
    (records : Store.ref) (log : list message) :
  Store.holds st config records ->
  exists outcome written st1,
    Store.score config records st log = (outcome, st1, log ++ written)
    /\ Store.unchanged st st1
    /\ Store.config_value st1 config = Store.config_value st config
    /\ Store.records_value st1 records = Store.records_value st records
    /\ (forall log',
          score (Store.config_value st config) (Store.records_value st records) log'
          = (outcome, log' ++ written))
    /\ (exists st2,
          Store.score config records st1 (log ++ written)
          = (outcome, st2, (log ++ written) ++ written)
          /\ Store.unchanged st1 st2)
    /\ (forall r, outcome = Ok r -> written = [])
    /\ (forall e, outcome = Err e ->
          exists msg heading offenders,
            e = ValueError msg /\ written = [heading; offenders]).
Proof.
  intros H.
  destruct (score_writes (Store.config_value st config) (Store.records_value st records))
    as [outcome [written [W [W1 W2]]]].
  destruct (store_score st config records log H) as [st1 [E1 U1]].
  destruct (values_unchanged st st1 config records H U1) as [H1 [C1 R1]].
  destruct (store_score st1 config records (log ++ written) H1) as [st2 [E2 U2]].
  rewrite C1, R1, W in E2. rewrite W in E1. cbn [fst snd] in E1, E2.
  exists outcome, written, st1. repeat split; try assumption.
  - apply U1.
  - apply U1.
  - apply U1.
  - exists st2. split; assumption.
Qed.

Lemma sample_store_holds : Store.holds sample_store (Store.mk_config 0%nat) 0%nat.
Proof.
  split; [cbn; lia|]. split; [cbn; lia|].
  intros c [<-|[]]. cbn. lia.
Defined.

Lemma score_is_a_function_of_its_inputs_witness :
  Store.holds sample_store (Store.mk_config 0%nat) 0%nat
  /\ exists outcome written st1,
       Store.score (Store.mk_config 0%nat) 0%nat sample_store [] = (outcome, st1, [] ++ written)
       /\ Store.unchanged sample_store st1.
Proof.
  split; [exact sample_store_holds|].
  destruct (score_is_a_function_of_its_inputs sample_store (Store.mk_config 0%nat) 0%nat []
              sample_store_holds) as [outcome [written [st1 [E [U _]]]]].
  exists outcome, written, st1. split; assumption.
Defined.

(** C9 as stated fails: a call that raises is not free of side effects.
    With one ping record and the groups ping and ssh, [score] raises for
    the group that has no record, and the logger holds two lines more. *)
Lemma score_logs_before_it_raises :
  exists st1,
    Store.score (Store.mk_config 0%nat) 0%nat sample_store []
    = (Err (ValueError (msg_without_records ssh_group)),
       st1,
       [ [Text "The following check groups don't match any CSV records:"];
         CheckGroup.repr ssh_group ])
    /\ Store.config_value sample_store (Store.mk_config 0%nat) = two_group_config
    /\ Store.records_value sample_store 0%nat = [ping_record].
Proof. eexists. split; [reflexivity|]. split; reflexivity. Qed.

(** ** Duplicate records *)

Lemma Matches_literal_String (c : ascii) (rest p after : string) :
  Matches (literal (String c rest)) p after -> exists p', p = String c p'.
Proof.
  simpl. intros H. inversion H as [| | | | ? ? s1 s2 ? H1 H2 | | | |]; subst.
  inversion H1; subst. simpl. eauto.
Qed.

Lemma pattern_match_literal_String (c : ascii) (rest s : string) :
  pattern_match (literal (String c rest)) s = true -> exists s', s = String c s'.
Proof.
  intros H. apply pattern_match_spec in H as [p [tail [-> H]]].
  apply Matches_literal_String in H as [p' ->]. simpl. eauto.
Qed.

(** C10.  There is a valid configuration of two groups whose patterns
    match no common description, and a list in which a record occurs
    twice, such that the matching has one key for the two occurrences, the
    key holds the group twice, and [score] raises the error of a record
    that matches multiple groups. *)
Theorem duplicate_record_is_reported_as_ambiguous :
  exists (config : ScoringConfig.t) (records : list LabResultRecord.t)
         (record : LabResultRecord.t) (group : CheckGroup.t) (matching : RecordGroupMatching.t),
    ScoringConfig.new (ScoringConfig.categories config) = Ok config
    /\ (exists other, records = [record; record; other])
    /\ (forall g, In g (ScoringConfig.groups config) ->
                  (CheckGroup.matches g record = true <-> g = group))
    /\ (forall g1 g2 r,
          In g1 (ScoringConfig.groups config) -> In g2 (ScoringConfig.groups config) ->
          CheckGroup.matches g1 r = true -> CheckGroup.matches g2 r = true -> g1 = g2)
    /\ RecordGroupMatching.create config records = Ok matching
    /\ List.length (RecordGroupMatching.record_to_groups matching) = 2%nat
    /\ dict_get LabResultRecord.eqb (RecordGroupMatching.record_to_groups matching) record
       = Ok [group; group]
    /\ forall log,
         fst (score config records log) = Err (ValueError (msg_multiple record [group; group])).
Proof.
  exists two_group_config, [ping_record; ping_record; ssh_record], ping_record, ping_group.
  eexists. split; [reflexivity|]. split; [eexists; reflexivity|].
  split; [|split; [|split; [vm_compute; reflexivity|]]].
  - intros g [<-|[<-|[]]]; split; intros H; try reflexivity; discriminate.
  - assert (Hdisj : forall r, CheckGroup.matches ping_group r = true ->
                              CheckGroup.matches ssh_group r = true -> False).
    { intros r Hp Hs. apply pattern_match_literal_String in Hp as [s1 E1].
      apply pattern_match_literal_String in Hs as [s2 E2]. congruence. }
    intros g1 g2 r [<-|[<-|[]]] [<-|[<-|[]]] H1 H2;
      try reflexivity; exfalso; eauto.
  - split; [reflexivity|]. split; [reflexivity|]. intros log. reflexivity.
Qed.

(** C2 at its failing input.  Each record is matched by exactly one
    group and the group matches a record, yet [score] raises; with one
    occurrence of the record it returns a result. *)
Theorem score_rejects_repeated_record :
  ScoringConfig.new (ScoringConfig.categories ping_only_config) = Ok ping_only_config
  /\ each_record_has_one_group ping_only_config [ping_record; ping_record]
  /\ each_group_has_a_record ping_only_config [ping_record; ping_record]
  /\ fst (score ping_only_config [ping_record; ping_record] [])
     = Err (ValueError (msg_multiple ping_record [ping_group; ping_group]))
  /\ (exists result, fst (score ping_only_config [ping_record] []) = Ok result).
Proof.
  split; [reflexivity|]. split; [|split; [|split]].
  - intros r [<-|[<-|[]]]; reflexivity.
  - intros g [<-|[]]. exists ping_record. split; [left|]; reflexivity.
  - reflexivity.
  - eexists. reflexivity.
Qed.

(** ** The scenarios of the specification *)

Example scenario_1_points :
  (exists earned, GroupResult.earned_points scenario_1 = Ok (PyFloat earned)
                  /\ earned == 40 # 3)
  /\ GroupResult.max_points scenario_1 = PyInt 20
  /\ (exists p, GroupResult.earned_points_percentage scenario_1 = Ok (fin p)
                /\ p == 200 # 3).
Proof. repeat split; eexists; split; reflexivity. Qed.

Example scenario_2_points :
  GroupResult.earned_points scenario_2 = Ok (PyInt 15)
  /\ GroupResult.max_points scenario_2 = PyInt 20.
Proof. split; reflexivity. Qed.

Example scenario_3_points :
  GroupResult.earned_points (scenario_3 true) = Ok (PyInt 8)
  /\ GroupResult.max_points (scenario_3 true) = PyInt 8
  /\ GroupResult.earned_points (scenario_3 false) = Ok (PyInt 0)
  /\ GroupResult.max_points (scenario_3 false) = PyInt 8.
Proof. repeat split; reflexivity. Qed.

Example scenario_4_record_matching_two_groups :
  fst (score overlapping_config [ping_record] [])
  = Err (ValueError (msg_multiple ping_record [ping_group; p_group])).
Proof. reflexivity. Qed.

Example scenario_5_group_without_record :
  fst (score two_group_config [ping_record] [])
  = Err (ValueError (msg_without_records ssh_group)).
Proof. reflexivity. Qed.

(** A category whose groups are all worth zero points has no percentage. *)
Example zero_points_category_has_no_percentage :
  CategoryResult.earned_points_percentage
    (CategoryResult.mk
       (GroupCategory.mk "connectivity" (PyInt 0) [ping_group])
       [GroupResult.mk
          (CheckGroup.mk "ping" GroupType.EACH (literal "ping") (PyInt 0) connectivity)
          [ping_record]])
  = Ok nan.
Proof. reflexivity. Qed.

(* ===================================================================== *)
(** * Further properties *)
(* ===================================================================== *)

(** ** The strategies on their edge inputs *)

Lemma mul_never_divides (a b : Binary64.number) :
  Binary64.mul a b <> Err ZeroDivisionError.
Proof.
  unfold Binary64.mul, Binary64.to_float, Binary64.of_int, Binary64.finite_or_overflow.
  destruct a as [x|x], b as [y|y]; cbn [bind]; try discriminate;
    repeat match goal with
           | |- context [binary_normalize ?p ?e ?m ?x ?z] =>
               destruct (binary_normalize p e m x z); cbn [bind]
           end; discriminate.
Qed.

Lemma float_to_int_never_divides (to_int : Q -> Z) (x : spec_float) :
  (z <- Binary64.float_to_int to_int x ;; Ok (Binary64.Int z)) <> Err ZeroDivisionError.
Proof. destruct x; cbn [Binary64.float_to_int bind]; discriminate. Qed.

Lemma int_truediv_divides (a b : Z) :
  Binary64.int_truediv a b = Err ZeroDivisionError <-> b = 0.
Proof.
  unfold Binary64.int_truediv, Binary64.finite_or_overflow.
  destruct (Z.eqb_spec b 0) as [->|Hb]; [tauto|].
  split; [|contradiction]. destruct (SFdiv _ _ _ _); discriminate.
Qed.

(** X1.  [calculate_earned_points] on the floats of the machine raises
    [ZeroDivisionError] exactly when the list of records is empty and the
    strategy is one of the three linear ones.  It can raise otherwise: the
    int weight [10 ** 400] under LINEAR does not fit a float.  ALL and ANY
    never raise.  Without records EACH earns [w * 0] out of [w * 0], the
    int 0 for an int weight; ALL earns the whole weight, since none of no
    records failed; ANY earns the int 0. *)
Theorem strategies_without_records (self : GroupType.t) (w : Binary64.number)
    (records : list LabResultRecord.t) :
  (Binary64.calculate_earned_points self w records = Err ZeroDivisionError
   <-> records = []
       /\ (self = GroupType.LINEAR \/ self = GroupType.LINEAR_ROUNDED
           \/ self = GroupType.LINEAR_FLOORED))
  /\ Binary64.calculate_earned_points GroupType.LINEAR (Binary64.Int (10 ^ 400))
       [one_passed]
     = Err OverflowError
  /\ (exists earned,
        Binary64.calculate_earned_points GroupType.ALL w records = Ok earned)
  /\ (exists earned,
        Binary64.calculate_earned_points GroupType.ANY w records = Ok earned)
  /\ Binary64.calculate_earned_points GroupType.EACH w []
     = Binary64.mul w (Binary64.Int 0)
  /\ Binary64.calculate_max_points GroupType.EACH w []
     = Binary64.mul w (Binary64.Int 0)
  /\ (forall z, Binary64.mul (Binary64.Int z) (Binary64.Int 0) = Ok (Binary64.Int 0))
  /\ Binary64.calculate_earned_points GroupType.ALL w [] = Ok w
  /\ Binary64.calculate_earned_points GroupType.ANY w [] = Ok (Binary64.Int 0).
Proof.
  split; [|split; [vm_compute; reflexivity|]].
  - split.
    + intros H.
      assert (L : self = GroupType.LINEAR \/ self = GroupType.LINEAR_ROUNDED
                  \/ self = GroupType.LINEAR_FLOORED).
      { destruct self; auto; exfalso; revert H; cbn -[Binary64.mul];
          try discriminate; apply mul_never_divides. }
      split; [|exact L].
      assert (D : Binary64.int_truediv (GroupType.count_passed records) (len records)
                  = Err ZeroDivisionError).
      { revert H. unfold Binary64.calculate_earned_points.
        destruct (Binary64.int_truediv _ _) as [ratio|x] eqn:E; cbn [bind].
        - intros H. exfalso. revert H.
          pose proof (mul_never_divides (Binary64.Float ratio) w) as M.
          destruct (Binary64.mul _ w) as [[z|y]|x]; cbn [bind];
            destruct L as [-> | [-> | ->]];
            try discriminate; try (intros H; apply M; exact H);
            apply float_to_int_never_divides.
        - destruct L as [-> | [-> | ->]]; intros [= ->]; reflexivity. }
      apply int_truediv_divides in D. destruct records; [reflexivity|].
      unfold len in D. cbn [List.length] in D. lia.
    + intros [-> [-> | [-> | ->]]]; reflexivity.
  - split; [eexists; reflexivity|]. split; [eexists; reflexivity|].
    repeat split; try reflexivity. intros z. cbn. rewrite Z.mul_0_r. reflexivity.
Qed.

Lemma count_passed_all (records : list LabResultRecord.t) :
  (GroupType.count_passed records =? len records)%Z = forallb LabResultRecord.passed records.
Proof.
  rewrite count_passed_filter. unfold len.
  induction records as [|r records IH]; [reflexivity|].
  cbn [filter forallb]. pose proof (filter_length_le LabResultRecord.passed records) as Hle.
  destruct (LabResultRecord.passed r); cbn [andb List.length].
  - rewrite <- IH.
    destruct (Z.eqb_spec (Z.of_nat (List.length (filter LabResultRecord.passed records)))
                         (Z.of_nat (List.length records)));
      [apply Z.eqb_eq | apply Z.eqb_neq]; lia.
  - apply Z.eqb_neq. lia.
Qed.

Lemma count_passed_any (records : list LabResultRecord.t) :
  (GroupType.count_passed records >=? 1)%Z = existsb LabResultRecord.passed records.
Proof.
  rewrite count_passed_filter. unfold len.
  induction records as [|r records IH]; [reflexivity|].
  cbn [filter existsb].
  destruct (LabResultRecord.passed r); cbn [orb List.length]; [|exact IH].
  rewrite Z.geb_leb. apply Z.leb_le. lia.
Qed.

(** X2.  ALL earns the whole weight when every record passed and the int
    [0] as soon as one failed; ANY earns the whole weight when some record
    passed and the int [0] when none did.  The weight is returned as it is,
    with its type. *)
Theorem all_and_any (w : number) (records : list LabResultRecord.t) :
  GroupType.calculate_earned_points GroupType.ALL w records
  = Ok (if forallb LabResultRecord.passed records then w else PyInt 0)
  /\ GroupType.calculate_earned_points GroupType.ANY w records
     = Ok (if existsb LabResultRecord.passed records then w else PyInt 0).
Proof.
  unfold GroupType.calculate_earned_points.
  rewrite count_passed_all, count_passed_any. split; reflexivity.
Qed.

(** ** Bounds and monotonicity of the earned points *)

Lemma round_half_even_mono (x y : Q) (a b : Z) :
  (x <= y)%Q -> is_round_half_even x a -> is_round_half_even y b -> a <= b.
Proof.
  unfold is_round_half_even. intros Hxy [Ha Ea] [Hb Eb].
  apply Qabs_Qle_condition in Ha, Hb.
  assert (Hab : (inject_Z a <= inject_Z b + 1)%Q) by lra.
  change 1%Q with (inject_Z 1) in Hab.
  rewrite <- inject_Z_plus, <- Zle_Qle in Hab.
  destruct (Z.eq_dec a (b + 1)) as [E|]; [exfalso|lia].
  subst a. rewrite inject_Z_plus in *. change (inject_Z 1) with 1%Q in *.
  assert (Pa : Z.even (b + 1) = true) by (apply Ea; apply Qabs_case; intros; lra).
  assert (Pb : Z.even b = true) by (apply Eb; apply Qabs_case; intros; lra).
  rewrite Z.even_add, Pb in Pa. discriminate.
Qed.

Lemma py_round_mono (x y : Q) : (x <= y)%Q -> py_round x <= py_round y.
Proof.
  intros H. apply (round_half_even_mono x y); [assumption | apply py_round_spec ..].
Qed.

Lemma ratio_mono (k1 k2 n : Z) :
  k1 <= k2 -> 1 <= n -> (inject_Z k1 / inject_Z n <= inject_Z k2 / inject_Z n)%Q.
Proof.
  intros Hk Hn.
  assert (Hn' : (0 < inject_Z n)%Q) by (change 0%Q with (inject_Z 0); rewrite <- Zlt_Qlt; lia).
  assert (Hk' : (inject_Z k1 <= inject_Z k2)%Q) by (rewrite <- Zle_Qle; lia).
  unfold Qdiv. apply Qmult_le_compat_r; [assumption|].
  apply Qlt_le_weak, Qinv_lt_0_compat. assumption.
Qed.

(** With a weight [w >= 0] and at least one record, no strategy earns a
    negative number of points. *)
Lemma calculate_earned_points_lower (self : GroupType.t) (w : number)
    (records : list LabResultRecord.t) :
  (0 <= to_Q w)%Q ->
  records <> [] ->
  exists earned,
    GroupType.calculate_earned_points self w records = Ok earned
    /\ num_le (PyInt 0) earned.
Proof.
  intros Hw Hne.
  pose proof (count_passed_bounds records) as Hk.
  pose proof (len_pos records Hne) as Hn.
  pose proof (LINEAR_formula_bounds _ _ w Hk Hn Hw) as [Hl0 _].
  unfold LINEAR_formula in Hl0.
  unfold GroupType.calculate_earned_points, num_le.
  rewrite (int_truediv_ok _ _ Hn). cbn [bind].
  set (linear := (inject_Z (GroupType.count_passed records) / inject_Z (len records)
                  * to_Q w)%Q) in *.
  change (to_Q (PyInt 0)) with 0%Q.
  destruct self; (eexists; split; [reflexivity|]).
  - rewrite to_Q_num_mul. cbn [to_Q].
    assert ((0 <= inject_Z (GroupType.count_passed records))%Q)
      by (change 0%Q with (inject_Z 0); rewrite <- Zle_Qle; lia).
    nra.
  - exact Hl0.
  - cbn [to_Q]. change 0%Q with (inject_Z 0). rewrite <- Zle_Qle.
    change 0 with (py_round 0). apply py_round_mono. exact Hl0.
  - cbn [to_Q]. change 0%Q with (inject_Z 0). rewrite <- Zle_Qle.
    change 0 with (Qfloor 0). apply Qfloor_resp_le. exact Hl0.
  - destruct (GroupType.count_passed records =? len records)%Z; cbn [to_Q]; [lra|].
    change (inject_Z 0) with 0%Q. lra.
  - destruct (GroupType.count_passed records >=? 1)%Z; cbn [to_Q]; [lra|].
    change (inject_Z 0) with 0%Q. lra.
Qed.

(** X3.  For a weight [w >= 0] and two lists of the same positive length,
    the list with at least as many passed records earns at least as many
    points, under every strategy: a check that turns from failed to passed
    never lowers the score. *)
Theorem earned_points_monotone (self : GroupType.t) (w : number)
    (records1 records2 : list LabResultRecord.t) :
  (0 <= to_Q w)%Q ->
  records1 <> [] ->
  len records1 = len records2 ->
  GroupType.count_passed records1 <= GroupType.count_passed records2 ->
  exists earned1 earned2,
    GroupType.calculate_earned_points self w records1 = Ok earned1
    /\ GroupType.calculate_earned_points self w records2 = Ok earned2
    /\ num_le earned1 earned2.
Proof.
  intros Hw Hne Hlen Hk.
  pose proof (count_passed_bounds records1) as Hk1.
  pose proof (count_passed_bounds records2) as Hk2.
  pose proof (len_pos records1 Hne) as Hn.
  pose proof (ratio_mono _ _ (len records1) Hk Hn) as Hr.
  unfold GroupType.calculate_earned_points, num_le.
  rewrite <- Hlen.
  set (k1 := GroupType.count_passed records1) in *.
  set (k2 := GroupType.count_passed records2) in *.
  rewrite (int_truediv_ok k1 _ Hn), (int_truediv_ok k2 _ Hn). cbn [bind].
  assert (Hlin : (inject_Z k1 / inject_Z (len records1) * to_Q w
                  <= inject_Z k2 / inject_Z (len records1) * to_Q w)%Q).
  { apply Qmult_le_compat_r; assumption. }
  destruct self; (eexists; eexists; split; [reflexivity|split; [reflexivity|]]).
  - rewrite !to_Q_num_mul. cbn [to_Q].
    assert ((inject_Z k1 <= inject_Z k2)%Q) by (rewrite <- Zle_Qle; lia).
    nra.
  - exact Hlin.
  - cbn [to_Q]. rewrite <- Zle_Qle. apply py_round_mono. exact Hlin.
  - cbn [to_Q]. rewrite <- Zle_Qle. apply Qfloor_resp_le. exact Hlin.
  - destruct (Z.eqb_spec k1 (len records1)) as [E1|E1].
    + replace (k2 =? len records1)%Z with true; [lra|].
      symmetry. apply Z.eqb_eq. lia.
    + destruct (k2 =? len records1)%Z; cbn [to_Q]; change (inject_Z 0) with 0%Q; lra.
  - rewrite !Z.geb_leb.
    destruct (Z.leb_spec 1 k1) as [E1|E1].
    + replace (1 <=? k2)%Z with true; [lra|]. symmetry. apply Z.leb_le. lia.
    + destruct (1 <=? k2)%Z; cbn [to_Q]; change (inject_Z 0) with 0%Q; lra.
Qed.

Lemma earned_points_monotone_witness :
  (0 <= to_Q (PyInt 7))%Q
  /\ one_of_two <> []
  /\ len one_of_two = len [one_passed; one_passed]
  /\ GroupType.count_passed one_of_two <= GroupType.count_passed [one_passed; one_passed]
  /\ exists earned1 earned2,
       GroupType.calculate_earned_points GroupType.LINEAR_ROUNDED (PyInt 7) one_of_two
       = Ok earned1
       /\ GroupType.calculate_earned_points GroupType.LINEAR_ROUNDED (PyInt 7)
            [one_passed; one_passed]
          = Ok earned2
       /\ num_le earned1 earned2.
Proof.
  split; [vm_compute; discriminate|]. split; [discriminate|].
  split; [reflexivity|]. split; [vm_compute; discriminate|].
  apply (earned_points_monotone GroupType.LINEAR_ROUNDED (PyInt 7) one_of_two
           [one_passed; one_passed]).
  - vm_compute; discriminate.
  - discriminate.
  - reflexivity.
  - vm_compute; discriminate.
Defined.

(** ** Percentages of a group result *)

(** X4.  For an EACH or a LINEAR group with a weight other than zero and
    at least one record, the percentage is the pass ratio, [k / n * 100],
    whatever the weight is: the two strategies differ in their points and
    agree on their percentage. *)
Theorem percentage_is_pass_ratio (g : GroupResult.t) :
  CheckGroup.type (GroupResult.group g) = GroupType.EACH
  \/ CheckGroup.type (GroupResult.group g) = GroupType.LINEAR ->
  GroupResult.records g <> [] ->
  ~ to_Q (weight g) == 0 ->
  exists p,
    GroupResult.earned_points_percentage g = Ok (fin p)
    /\ p == (inject_Z (GroupResult.passed_checks_count g)
             / inject_Z (GroupResult.total_checks_count g) * 100)%Q.
Proof.
  intros Ht Hne Hw.
  pose proof (len_pos _ Hne) as Hn.
  assert (Hn' : ~ inject_Z (len (GroupResult.records g)) == 0).
  { change 0%Q with (inject_Z 0). rewrite inject_Z_injective. lia. }
  unfold GroupResult.earned_points_percentage, GroupResult.earned_points,
    GroupResult.max_points, GroupResult.passed_checks_count,
    GroupResult.total_checks_count.
  fold (weight g). fold (GroupType.count_passed (GroupResult.records g)).
  unfold GroupType.calculate_earned_points, GroupType.calculate_max_points.
  rewrite (int_truediv_ok _ _ Hn).
  set (k := GroupType.count_passed (GroupResult.records g)).
  set (n := len (GroupResult.records g)) in *.
  unfold _calc_percentage, num_truediv.
  destruct Ht as [-> | ->]; cbn [bind].
  - assert (Hz : is_zero (num_mul (weight g) (PyInt n)) = false).
    { apply not_true_is_false. rewrite is_zero_spec, to_Q_num_mul. cbn [to_Q].
      intros H. apply Qmult_integral in H. tauto. }
    rewrite Hz. cbn [bind]. eexists. split; [reflexivity|].
    rewrite !to_Q_num_mul. cbn [to_Q]. field. split; assumption.
  - assert (Hz : is_zero (weight g) = false).
    { apply not_true_is_false. rewrite is_zero_spec. assumption. }
    rewrite Hz. cbn [bind]. eexists. split; [reflexivity|].
    cbn [to_Q]. field. split; assumption.
Qed.

Lemma percentage_is_pass_ratio_witness :
  (CheckGroup.type (GroupResult.group scenario_1) = GroupType.EACH
   \/ CheckGroup.type (GroupResult.group scenario_1) = GroupType.LINEAR)
  /\ GroupResult.records scenario_1 <> []
  /\ ~ to_Q (weight scenario_1) == 0
  /\ exists p,
       GroupResult.earned_points_percentage scenario_1 = Ok (fin p)
       /\ p == (inject_Z (GroupResult.passed_checks_count scenario_1)
                / inject_Z (GroupResult.total_checks_count scenario_1) * 100)%Q.
Proof.
  assert (H1 : CheckGroup.type (GroupResult.group scenario_1) = GroupType.EACH
               \/ CheckGroup.type (GroupResult.group scenario_1) = GroupType.LINEAR)
    by (right; reflexivity).
  assert (H2 : GroupResult.records scenario_1 <> []) by discriminate.
  assert (H3 : ~ to_Q (weight scenario_1) == 0) by (vm_compute; discriminate).
  split; [exact H1|]. split; [exact H2|]. split; [exact H3|].
  exact (percentage_is_pass_ratio scenario_1 H1 H2 H3).
Defined.





(** ** Bounds at every level *)

(** The earned points of a strategy are at most its maximum points, for
    a weight [w >= 0] that is whole when the strategy rounds. *)
Lemma calculate_earned_points_upper (self : GroupType.t) (w : number)
    (records : list LabResultRecord.t) :
  (0 <= to_Q w)%Q ->
  records <> [] ->
  (self = GroupType.LINEAR_ROUNDED -> integral w) ->
  exists earned,
    GroupType.calculate_earned_points self w records = Ok earned
    /\ (to_Q earned <= to_Q (GroupType.calculate_max_points self w records))%Q.
Proof.
  intros Hw Hne Hint.
  pose proof (count_passed_bounds records) as Hk.
  pose proof (len_pos records Hne) as Hn.
  pose proof (LINEAR_formula_bounds _ _ w Hk Hn Hw) as [Hl0 Hl1].
  unfold LINEAR_formula in Hl0, Hl1.
  unfold GroupType.calculate_earned_points, GroupType.calculate_max_points.
  rewrite (int_truediv_ok _ _ Hn). cbn [bind].
  set (linear := (inject_Z (GroupType.count_passed records) / inject_Z (len records)
                  * to_Q w)%Q) in *.
  destruct self; (eexists; split; [reflexivity|]); cbn [to_Q].
  - rewrite !to_Q_num_mul. cbn [to_Q].
    assert ((inject_Z (GroupType.count_passed records) <= inject_Z (len records))%Q)
      by (rewrite <- Zle_Qle; lia).
    nra.
  - exact Hl1.
  - destruct (Hint eq_refl) as [W HW].
    destruct (py_round_spec linear) as [Hr _].
    apply Qabs_Qle_condition in Hr.
    generalize dependent (py_round linear). intros z Hr.
    assert (Hz : (inject_Z z < inject_Z W + 1)%Q) by lra.
    change 1%Q with (inject_Z 1) in Hz.
    rewrite <- inject_Z_plus, <- Zlt_Qlt in Hz.
    rewrite HW, <- Zle_Qle. lia.
  - pose proof (Qfloor_le linear). unfold py_floor. lra.
  - destruct (GroupType.count_passed records =? len records)%Z; cbn [to_Q]; [lra|].
    change (inject_Z 0) with 0%Q. lra.
  - destruct (GroupType.count_passed records >=? 1)%Z; cbn [to_Q]; [lra|].
    change (inject_Z 0) with 0%Q. lra.
Qed.

(** Summing the results of a comprehension keeps a bound that holds
    of each of them. *)
Lemma mapM_sum_ge {A : Type} (f : A -> result number) (lo : A -> Q) (l : list A) :
  (forall a, In a l -> exists e, f a = Ok e /\ (lo a <= to_Q e)%Q) ->
  exists es, mapM f l = Ok es /\ (Qsum (map lo l) <= to_Q (py_sum es))%Q.
Proof.
  intros H.
  assert (G : exists es, mapM f l = Ok es /\ (Qsum (map lo l) <= Qsum (map to_Q es))%Q).
  { induction l as [|a l IH]; cbn [mapM map Qsum].
    - exists []. split; [reflexivity|]. cbn [map Qsum]. lra.
    - destruct (H a (or_introl eq_refl)) as [e [-> He]].
      destruct IH as [es [-> Hes]]; [intros a' Ha'; apply H; right; assumption|].
      cbn [bind]. exists (e :: es). split; [reflexivity|]. cbn [map Qsum]. lra. }
  destruct G as [es [E B]]. exists es. split; [exact E|]. rewrite py_sum_Qsum. exact B.
Qed.

Lemma mapM_sum_le {A : Type} (f : A -> result number) (hi : A -> Q) (l : list A) :
  (forall a, In a l -> exists e, f a = Ok e /\ (to_Q e <= hi a)%Q) ->
  exists es, mapM f l = Ok es /\ (to_Q (py_sum es) <= Qsum (map hi l))%Q.
Proof.
  intros H.
  assert (G : exists es, mapM f l = Ok es /\ (Qsum (map to_Q es) <= Qsum (map hi l))%Q).
  { induction l as [|a l IH]; cbn [mapM map Qsum].
    - exists []. split; [reflexivity|]. cbn [map Qsum]. lra.
    - destruct (H a (or_introl eq_refl)) as [e [-> He]].
      destruct IH as [es [-> Hes]]; [intros a' Ha'; apply H; right; assumption|].
      cbn [bind]. exists (e :: es). split; [reflexivity|]. cbn [map Qsum]. lra. }
  destruct G as [es [E B]]. exists es. split; [exact E|]. rewrite py_sum_Qsum. exact B.
Qed.

Lemma Qsum_zeros {A : Type} (l : list A) : Qsum (map (fun _ => 0%Q) l) == 0.
Proof. induction l as [|a l IH]; cbn [map Qsum]; [reflexivity | rewrite IH; lra]. Qed.

Lemma Qsum_map_map {A : Type} (f : A -> number) (l : list A) :
  Qsum (map (fun a => to_Q (f a)) l) = Qsum (map to_Q (map f l)).
Proof. rewrite map_map. reflexivity. Qed.

Lemma percentage_bounds (earned max : number) (p : Q) :
  (0 <= to_Q earned <= to_Q max)%Q ->
  _calc_percentage earned max = Ok (fin p) ->
  (0 <= p <= 100)%Q.
Proof.
  intros [H0 H1]. unfold _calc_percentage, num_truediv.
  destruct (is_zero max) eqn:Z; [discriminate|]. cbn [bind]. intros [= <-].
  assert (Hm : (0 < to_Q max)%Q).
  { assert (~ to_Q max == 0) by (intros E; apply is_zero_spec in E; congruence). lra. }
  assert (Hr : (0 <= to_Q earned / to_Q max <= 1)%Q).
  { split.
    - apply Qle_shift_div_l; [assumption | lra].
    - apply Qle_shift_div_r; [assumption | lra]. }
  lra.
Qed.

Lemma all_groups_category (r : ScoringResult.t) (c : CategoryResult.t) (g : GroupResult.t) :
  In c (ScoringResult.categories r) -> In g (CategoryResult.groups c) -> In g (all_groups r).
Proof. intros Hc Hg. unfold all_groups. apply in_flat_map. eauto. Qed.

Lemma group_not_negative (g : GroupResult.t) :
  GroupResult.records g <> [] -> (0 <= to_Q (weight g))%Q ->
  exists earned, GroupResult.earned_points g = Ok earned /\ (0 <= to_Q earned)%Q.
Proof.
  intros Hne Hw.
  destruct (calculate_earned_points_lower (CheckGroup.type (GroupResult.group g))
              (weight g) (GroupResult.records g) Hw Hne) as [e [He Hle]].
  exists e. split; [exact He | exact Hle].
Qed.

Lemma category_not_negative (c : CategoryResult.t) :
  (forall g, In g (CategoryResult.groups c) ->
     GroupResult.records g <> [] /\ (0 <= to_Q (weight g))%Q) ->
  exists earned, CategoryResult.earned_points c = Ok earned /\ (0 <= to_Q earned)%Q.
Proof.
  intros H. unfold CategoryResult.earned_points.
  destruct (mapM_sum_ge GroupResult.earned_points (fun _ => 0%Q) (CategoryResult.groups c))
    as [es [-> B]].
  - intros g Hg. destruct (H g Hg) as [Hne Hw]. apply group_not_negative; assumption.
  - cbn [bind]. eexists. split; [reflexivity|]. rewrite Qsum_zeros in B. exact B.
Qed.

Lemma scoring_not_negative (r : ScoringResult.t) :
  (forall g, In g (all_groups r) ->
     GroupResult.records g <> [] /\ (0 <= to_Q (weight g))%Q) ->
  exists earned, ScoringResult.earned_points r = Ok earned /\ (0 <= to_Q earned)%Q.
Proof.
  intros H. unfold ScoringResult.earned_points.
  destruct (mapM_sum_ge CategoryResult.earned_points (fun _ => 0%Q)
              (ScoringResult.categories r)) as [es [-> B]].
  - intros c Hc. apply category_not_negative. intros g Hg.
    apply H. exact (all_groups_category r c g Hc Hg).
  - cbn [bind]. eexists. split; [reflexivity|]. rewrite Qsum_zeros in B. exact B.
Qed.

(** X6.  With weights [>= 0] and at least one record in every group, no
    level of the result earns a negative number of points: no group, no
    category, and not the whole result.  Numbers are exact here: a weight
    that does not fit a float, for which the code raises [OverflowError],
    is outside. *)
Theorem earned_points_not_negative (r : ScoringResult.t) :
  (forall g, In g (all_groups r) ->
     GroupResult.records g <> [] /\ (0 <= to_Q (weight g))%Q) ->
  (forall g, In g (all_groups r) ->
     exists earned, GroupResult.earned_points g = Ok earned /\ num_le (PyInt 0) earned)
  /\ (forall c, In c (ScoringResult.categories r) ->
        exists earned, CategoryResult.earned_points c = Ok earned /\ num_le (PyInt 0) earned)
  /\ exists earned, ScoringResult.earned_points r = Ok earned /\ num_le (PyInt 0) earned.
Proof.
  intros H. unfold num_le. change (to_Q (PyInt 0)) with 0%Q. split; [|split].
  - intros g Hg. destruct (H g Hg) as [Hne Hw]. apply group_not_negative; assumption.
  - intros c Hc. apply category_not_negative. intros g Hg.
    apply H. exact (all_groups_category r c g Hc Hg).
  - apply scoring_not_negative. exact H.
Qed.

Lemma earned_points_not_negative_witness :
  (forall g, In g (all_groups linear_result) ->
     GroupResult.records g <> [] /\ (0 <= to_Q (weight g))%Q)
  /\ exists earned,
       ScoringResult.earned_points linear_result = Ok earned /\ num_le (PyInt 0) earned.
Proof.
  assert (H : forall g, In g (all_groups linear_result) ->
                GroupResult.records g <> [] /\ (0 <= to_Q (weight g))%Q).
  { intros g [<-|[]]. split; [discriminate | vm_compute; discriminate]. }
  split; [exact H|]. exact (proj2 (proj2 (earned_points_not_negative linear_result H))).
Defined.

Lemma group_within_maximum (g : GroupResult.t) :
  GroupResult.records g <> [] -> (0 <= to_Q (weight g))%Q ->
  (CheckGroup.type (GroupResult.group g) = GroupType.LINEAR_ROUNDED -> integral (weight g)) ->
  exists earned,
    GroupResult.earned_points g = Ok earned
    /\ (to_Q earned <= to_Q (GroupResult.max_points g))%Q.
Proof.
  intros Hne Hw Hint.
  exact (calculate_earned_points_upper (CheckGroup.type (GroupResult.group g))
           (weight g) (GroupResult.records g) Hw Hne Hint).
Qed.

Lemma category_within_maximum (c : CategoryResult.t) :
  (forall g, In g (CategoryResult.groups c) ->
     GroupResult.records g <> [] /\ (0 <= to_Q (weight g))%Q
     /\ (CheckGroup.type (GroupResult.group g) = GroupType.LINEAR_ROUNDED
         -> integral (weight g))) ->
  exists earned,
    CategoryResult.earned_points c = Ok earned
    /\ (0 <= to_Q earned <= to_Q (CategoryResult.max_points c))%Q.
Proof.
  intros H.
  destruct (category_not_negative c) as [e [He H0]].
  { intros g Hg. destruct (H g Hg) as [Hne [Hw _]]. auto. }
  exists e. split; [exact He|]. split; [exact H0|].
  unfold CategoryResult.earned_points in He. unfold CategoryResult.max_points.
  destruct (mapM_sum_le GroupResult.earned_points
              (fun g => to_Q (GroupResult.max_points g)) (CategoryResult.groups c))
    as [es [E B]].
  { intros g Hg. destruct (H g Hg) as [Hne [Hw Hint]]. apply group_within_maximum; assumption. }
  rewrite E in He. cbn [bind] in He. injection He as <-.
  rewrite (py_sum_Qsum (map GroupResult.max_points _)), <- Qsum_map_map. exact B.
Qed.

Lemma scoring_within_maximum (r : ScoringResult.t) :
  (forall g, In g (all_groups r) ->
     GroupResult.records g <> [] /\ (0 <= to_Q (weight g))%Q
     /\ (CheckGroup.type (GroupResult.group g) = GroupType.LINEAR_ROUNDED
         -> integral (weight g))) ->
  exists earned,
    ScoringResult.earned_points r = Ok earned
    /\ (0 <= to_Q earned <= to_Q (ScoringResult.max_points r))%Q.
Proof.
  intros H.
  destruct (scoring_not_negative r) as [e [He H0]].
  { intros g Hg. destruct (H g Hg) as [Hne [Hw _]]. auto. }
  exists e. split; [exact He|]. split; [exact H0|].
  unfold ScoringResult.earned_points in He. unfold ScoringResult.max_points.
  destruct (mapM_sum_le CategoryResult.earned_points
              (fun c => to_Q (CategoryResult.max_points c)) (ScoringResult.categories r))
    as [es [E B]].
  { intros c Hc. destruct (category_within_maximum c) as [e' [He' [_ H1]]].
    - intros g Hg. apply H. exact (all_groups_category r c g Hc Hg).
    - eauto. }
  rewrite E in He. cbn [bind] in He. injection He as <-.
  rewrite (py_sum_Qsum (map CategoryResult.max_points _)), <- Qsum_map_map. exact B.
Qed.

(** X7.  With weights [>= 0] that are whole for the groups that round,
    and at least one record in every group, the earned points stay within
    the maximum points at the level of a category and of the whole result,
    and every percentage that is a number, at any of the three levels, lies
    between 0 and 100. *)
Theorem earned_points_within_maximum (r : ScoringResult.t) :
  (forall g, In g (all_groups r) ->
     GroupResult.records g <> [] /\ (0 <= to_Q (weight g))%Q
     /\ (CheckGroup.type (GroupResult.group g) = GroupType.LINEAR_ROUNDED
         -> integral (weight g))) ->
  (forall g p, In g (all_groups r) ->
     GroupResult.earned_points_percentage g = Ok (fin p) -> (0 <= p <= 100)%Q)
  /\ (forall c, In c (ScoringResult.categories r) ->
        exists earned,
          CategoryResult.earned_points c = Ok earned
          /\ num_le earned (CategoryResult.max_points c)
          /\ forall p, CategoryResult.earned_points_percentage c = Ok (fin p) ->
                       (0 <= p <= 100)%Q)
  /\ exists earned,
       ScoringResult.earned_points r = Ok earned
       /\ num_le earned (ScoringResult.max_points r)
       /\ forall p, ScoringResult.earned_points_percentage r = Ok (fin p) ->
                    (0 <= p <= 100)%Q.
Proof.
  intros H. split; [|split].
  - intros g p Hg. destruct (H g Hg) as [Hne [Hw Hint]].
    destruct (group_not_negative g Hne Hw) as [e [He H0]].
    destruct (group_within_maximum g Hne Hw Hint) as [e' [He' H1]].
    rewrite He in He'. injection He' as <-.
    unfold GroupResult.earned_points_percentage. rewrite He. cbn [bind].
    apply percentage_bounds. split; assumption.
  - intros c Hc. destruct (category_within_maximum c) as [e [He B]].
    { intros g Hg. apply H. exact (all_groups_category r c g Hc Hg). }
    exists e. split; [exact He|]. split; [exact (proj2 B)|].
    intros p. unfold CategoryResult.earned_points_percentage. rewrite He. cbn [bind].
    apply percentage_bounds. exact B.
  - destruct (scoring_within_maximum r H) as [e [He B]].
    exists e. split; [exact He|]. split; [exact (proj2 B)|].
    intros p. unfold ScoringResult.earned_points_percentage. rewrite He. cbn [bind].
    apply percentage_bounds. exact B.
Qed.

Lemma earned_points_within_maximum_witness :
  (forall g, In g (all_groups linear_result) ->
     GroupResult.records g <> [] /\ (0 <= to_Q (weight g))%Q
     /\ (CheckGroup.type (GroupResult.group g) = GroupType.LINEAR_ROUNDED
         -> integral (weight g)))
  /\ exists earned,
       ScoringResult.earned_points linear_result = Ok earned
       /\ num_le earned (ScoringResult.max_points linear_result)
       /\ forall p, ScoringResult.earned_points_percentage linear_result = Ok (fin p) ->
                    (0 <= p <= 100)%Q.
Proof.
  assert (H : forall g, In g (all_groups linear_result) ->
                GroupResult.records g <> [] /\ (0 <= to_Q (weight g))%Q
                /\ (CheckGroup.type (GroupResult.group g) = GroupType.LINEAR_ROUNDED
                    -> integral (weight g))).
  { intros g [<-|[]]. split; [discriminate|]. split; [vm_compute; discriminate|].
    discriminate. }
  split; [exact H|]. exact (proj2 (proj2 (earned_points_within_maximum linear_result H))).
Defined.

(** ** Counts *)

Lemma Zsum_sub {A : Type} (f g : A -> Z) (l : list A) :
  Zsum (map (fun a => f a - g a) l) = Zsum (map f l) - Zsum (map g l).
Proof. induction l as [|a l IH]; cbn [map Zsum]; lia. Qed.

Lemma Zsum_bounds {A : Type} (f g : A -> Z) (l : list A) :
  (forall a, In a l -> 0 <= f a <= g a) -> 0 <= Zsum (map f l) <= Zsum (map g l).
Proof.
  induction l as [|a l IH]; intros H; cbn [map Zsum]; [lia|].
  pose proof (H a (or_introl eq_refl)).
  assert (0 <= Zsum (map f l) <= Zsum (map g l))
    by (apply IH; intros; apply H; right; assumption).
  lia.
Qed.

Lemma group_counts (g : GroupResult.t) :
  0 <= GroupResult.passed_checks_count g <= GroupResult.total_checks_count g.
Proof. apply count_passed_bounds. Qed.

Lemma category_counts (c : CategoryResult.t) :
  CategoryResult.failed_check_count c
  = CategoryResult.total_checks_count c - CategoryResult.passed_checks_count c
  /\ 0 <= CategoryResult.passed_checks_count c <= CategoryResult.total_checks_count c.
Proof.
  unfold CategoryResult.failed_check_count, CategoryResult.total_checks_count,
    CategoryResult.passed_checks_count.
  rewrite !py_sum_int_Zsum. split.
  - apply (Zsum_sub GroupResult.total_checks_count GroupResult.passed_checks_count).
  - apply Zsum_bounds. intros g _. apply group_counts.
Qed.

(** X8.  At the level of a category and of the whole result, where the
    three counts are three separate sums over the children, the failed
    count is the total count minus the passed count, and the passed count
    lies between zero and the total. *)
Theorem counts_add_up :
  (forall c : CategoryResult.t,
     CategoryResult.failed_check_count c
     = CategoryResult.total_checks_count c - CategoryResult.passed_checks_count c
     /\ 0 <= CategoryResult.passed_checks_count c <= CategoryResult.total_checks_count c)
  /\ (forall r : ScoringResult.t,
     ScoringResult.failed_check_count r
     = ScoringResult.total_checks_count r - ScoringResult.passed_checks_count r
     /\ 0 <= ScoringResult.passed_checks_count r <= ScoringResult.total_checks_count r).
Proof.
  split; [exact category_counts|]. intros r.
  unfold ScoringResult.failed_check_count, ScoringResult.total_checks_count,
    ScoringResult.passed_checks_count.
  rewrite !py_sum_int_Zsum. split.
  - rewrite <- (Zsum_sub CategoryResult.total_checks_count CategoryResult.passed_checks_count).
    f_equal. apply map_ext. intros c. apply category_counts.
  - apply Zsum_bounds. intros c _. apply category_counts.
Qed.

(** ** The two directions of the matching *)

Lemma CheckGroup_eqb_matches (a b : CheckGroup.t) (r : LabResultRecord.t) :
  CheckGroup.eqb a b = true -> CheckGroup.matches a r = CheckGroup.matches b r.
Proof.
  unfold CheckGroup.eqb, CheckGroup.matches. rewrite !andb_true_iff.
  intros [[[[_ _] R] _] _]. apply regex_eqb_eq in R. rewrite R. reflexivity.
Qed.

Lemma In_groups_appended (groups : list CheckGroup.t) (records : list LabResultRecord.t)
    (r : LabResultRecord.t) (g : CheckGroup.t) :
  In g (groups_appended groups records r)
  <-> In g groups /\ In r records /\ CheckGroup.matches g r = true.
Proof.
  unfold groups_appended. rewrite in_flat_map. split.
  - intros [g' [Hg' H]]. apply in_flat_map in H as [r' [Hr' H]].
    destruct (CheckGroup.matches g' r') eqn:M; [|destruct H].
    destruct (LabResultRecord.eqb r r') eqn:E; [|destruct H].
    apply LabResultRecord_eqb_eq in E as <-. destruct H as [<-|[]]. auto.
  - intros [Hg [Hr M]]. exists g. split; [assumption|].
    apply in_flat_map. exists r. split; [assumption|].
    rewrite M, LabResultRecord_eqb_refl. left. reflexivity.
Qed.

Lemma In_records_appended (groups : list CheckGroup.t) (records : list LabResultRecord.t)
    (g : CheckGroup.t) (r : LabResultRecord.t) :
  In g groups ->
  (In r (records_appended groups records g)
   <-> In r records /\ CheckGroup.matches g r = true).
Proof.
  intros Hg. unfold records_appended. rewrite in_flat_map. split.
  - intros [g' [Hg' H]]. destruct (CheckGroup.eqb g g') eqn:E; [|destruct H].
    apply filter_In in H as [Hr M]. rewrite (CheckGroup_eqb_matches g g' r E). auto.
  - intros [Hr M]. exists g. split; [assumption|].
    rewrite CheckGroup_eqb_refl. apply filter_In. auto.
Qed.

(** X9.  [create] never raises: every list it extends is found under its
    key.  In the matching it returns, every record of the input is a key
    of [record_to_groups], every group of the configuration is a key of
    [group_to_records], and the two dicts hold the same association: the
    list of a record holds a group exactly when the list of the group
    holds the record, which is exactly when the group matches the record.
    This holds of every configuration and every list of records, repeated
    ones included. *)
Theorem matching_holds_both_directions (config : ScoringConfig.t)
    (records : list LabResultRecord.t) :
  exists matching,
    RecordGroupMatching.create config records = Ok matching
    /\ forall record group,
         In record records ->
         In group (ScoringConfig.groups config) ->
         exists groups_of_record records_of_group,
           dict_get LabResultRecord.eqb
             (RecordGroupMatching.record_to_groups matching) record = Ok groups_of_record
           /\ dict_get CheckGroup.eqb
                (RecordGroupMatching.group_to_records matching) group = Ok records_of_group
           /\ (In group groups_of_record <-> CheckGroup.matches group record = true)
           /\ (In record records_of_group <-> CheckGroup.matches group record = true).
Proof.
  eexists. split; [apply create_spec|]. cbv zeta.
  intros record group Hr Hg.
  cbn [RecordGroupMatching.record_to_groups RecordGroupMatching.group_to_records].
  destruct (first_occurrences_spec LabResultRecord.eqb LabResultRecord_eqb_refl
              LabResultRecord_eqb_trans records) as [_ [_ P1]].
  destruct (first_occurrences_spec CheckGroup.eqb CheckGroup_eqb_refl
              CheckGroup_eqb_trans (ScoringConfig.groups config)) as [_ [_ P2]].
  destruct (dict_get_map (A := CheckGroup.t) LabResultRecord.eqb
              (first_occurrences LabResultRecord.eqb records)
              (fun k => groups_appended (ScoringConfig.groups config) records k) record
              (P1 record Hr)) as [k1 [_ [E1 G1]]].
  destruct (dict_get_map (A := LabResultRecord.t) CheckGroup.eqb
              (first_occurrences CheckGroup.eqb (ScoringConfig.groups config))
              (fun k => records_appended (ScoringConfig.groups config) records k) group
              (P2 group Hg)) as [k2 [_ [E2 G2]]].
  apply LabResultRecord_eqb_eq in E1. subst k1.
  rewrite (records_appended_congr _ _ k2 group E2) in G2.
  eexists. eexists. split; [exact G1|]. split; [exact G2|]. split.
  - rewrite In_groups_appended. tauto.
  - rewrite (In_records_appended _ _ group record Hg). tauto.
Qed.

(** X10.  For a configuration that passed its validation and whose groups
    refer to their own category, the list of each group in the matching
    is the sub-list of the input records that the group matches, in the
    order of the input and with its repetitions. *)
Theorem group_holds_the_records_it_matches (config : ScoringConfig.t)
    (records : list LabResultRecord.t) (group : CheckGroup.t) :
  ScoringConfig.__post_init__ config = Ok tt ->
  well_referenced config ->
  In group (ScoringConfig.groups config) ->
  exists matching,
    RecordGroupMatching.create config records = Ok matching
    /\ dict_get CheckGroup.eqb (RecordGroupMatching.group_to_records matching) group
       = Ok (filter (CheckGroup.matches group) records).
Proof.
  intros Hv Hw Hg.
  pose proof (validated_groups_distinct config Hv Hw) as Hd.
  eexists. split; [apply create_spec|]. cbv zeta.
  cbn [RecordGroupMatching.group_to_records].
  rewrite (first_occurrences_distinct CheckGroup.eqb _ Hd).
  rewrite (dict_get_group _ _ group Hd Hg).
  rewrite (records_appended_distinct _ _ group Hd Hg). reflexivity.
Qed.

Lemma two_group_config_valid :
  ScoringConfig.__post_init__ two_group_config = Ok tt /\ well_referenced two_group_config.
Proof.
  split; [reflexivity|].
  intros category group [<-|[]] [<-|[<-|[]]]; reflexivity.
Defined.

Lemma group_holds_the_records_it_matches_witness :
  ScoringConfig.__post_init__ two_group_config = Ok tt
  /\ well_referenced two_group_config
  /\ In ping_group (ScoringConfig.groups two_group_config)
  /\ exists matching,
       RecordGroupMatching.create two_group_config [ping_record; ssh_record; ping_record]
       = Ok matching
       /\ dict_get CheckGroup.eqb (RecordGroupMatching.group_to_records matching) ping_group
          = Ok (filter (CheckGroup.matches ping_group) [ping_record; ssh_record; ping_record]).
Proof.
  split; [exact (proj1 two_group_config_valid)|].
  split; [exact (proj2 two_group_config_valid)|].
  split; [left; reflexivity|].
  apply (group_holds_the_records_it_matches two_group_config
           [ping_record; ssh_record; ping_record] ping_group
           (proj1 two_group_config_valid) (proj2 two_group_config_valid)).
  left. reflexivity.
Defined.

(** ** The decisions of [score] *)

Lemma find_filter {A : Type} (p : A -> bool) (l : list A) :
  find p l = match filter p l with [] => None | a :: _ => Some a end.
Proof.
  induction l as [|a l IH]; cbn [find filter]; [reflexivity|].
  destruct (p a); [reflexivity | exact IH].
Qed.

Lemma scored_distinct (config : ScoringConfig.t) (records : list LabResultRecord.t) :
  distinct_keys CheckGroup.eqb (ScoringConfig.groups config) ->
  scored config records = expected_result config records.
Proof.
  intros Hd. unfold scored, expected_result. f_equal.
  apply map_ext_in. intros category Hc. f_equal.
  apply map_ext_in. intros group Hg. f_equal.
  apply records_appended_distinct; [assumption|].
  unfold ScoringConfig.groups. apply in_flat_map. eauto.
Qed.

Lemma offenders_distinct (config : ScoringConfig.t) (records : list LabResultRecord.t) :
  NoDup records ->
  distinct_keys CheckGroup.eqb (ScoringConfig.groups config) ->
  ambiguous_records config records
  = filter (fun r => (len (groups_matching config r) >? 1)%Z) records
  /\ unmatched_records config records
     = filter (fun r => (len (groups_matching config r) =? 0)%Z) records
  /\ unused_groups config records
     = filter (fun g => (len (filter (CheckGroup.matches g) records) =? 0)%Z)
              (ScoringConfig.groups config).
Proof.
  intros Hr Hd. unfold ambiguous_records, unmatched_records, unused_groups.
  rewrite (first_occurrences_distinct LabResultRecord.eqb records
             (NoDup_distinct_records _ Hr)).
  rewrite (first_occurrences_distinct CheckGroup.eqb _ Hd).
  split; [|split]; apply filter_ext_in.
  - intros r Hin. rewrite groups_appended_distinct; auto.
  - intros r Hin. rewrite groups_appended_distinct; auto.
  - intros g Hin. rewrite records_appended_distinct; auto.
Qed.

(** X11.  What [score] does with pairwise distinct records and a
    validated configuration whose groups refer to their own category.  The
    three checks are made in this order, and each names the first offender
    in the order of the input: first a record that several groups match,
    shown with all of these groups; else a record that no group matches;
    else a group that matches no record.  Only when there is none of them
    is the result returned: one category result per category and one group
    result per group, in the order of the configuration, each group with
    the records it matches. *)
Theorem score_decision (config : ScoringConfig.t) (records : list LabResultRecord.t)
    (log : list message) :
  NoDup records ->
  ScoringConfig.__post_init__ config = Ok tt ->
  well_referenced config ->
  fst (score config records log)
  = match find (fun r => (len (groups_matching config r) >? 1)%Z) records with
    | Some r => Err (ValueError (msg_multiple r (groups_matching config r)))
    | None =>
    match find (fun r => (len (groups_matching config r) =? 0)%Z) records with
    | Some r => Err (ValueError (msg_without_group r))
    | None =>
    match find (fun g => (len (filter (CheckGroup.matches g) records) =? 0)%Z)
               (ScoringConfig.groups config) with
    | Some g => Err (ValueError (msg_without_records g))
    | None => Ok (expected_result config records)
    end end end.
Proof.
  intros Hr Hv Hw.
  pose proof (validated_groups_distinct config Hv Hw) as Hd.
  destruct (offenders_distinct config records Hr Hd) as [E1 [E2 E3]].
  rewrite score_eval. cbn [fst]. unfold score_outcome.
  rewrite E1, E2, E3, !find_filter.
  destruct (filter (fun r => (len (groups_matching config r) >? 1)%Z) records)
    as [|r1 l1] eqn:F1.
  - destruct (filter (fun r => (len (groups_matching config r) =? 0)%Z) records)
      as [|r2 l2]; [|reflexivity].
    destruct (filter _ (ScoringConfig.groups config)) as [|g3 l3]; [|reflexivity].
    cbn [fst]. rewrite (scored_distinct config records Hd). reflexivity.
  - cbn [fst]. rewrite groups_appended_distinct; [reflexivity | assumption|].
    assert (H : In r1 (filter (fun r => (len (groups_matching config r) >? 1)%Z) records))
      by (rewrite F1; left; reflexivity).
    apply filter_In in H. tauto.
Qed.

Lemma score_decision_witness :
  NoDup [ping_record; ssh_record]
  /\ ScoringConfig.__post_init__ two_group_config = Ok tt
  /\ well_referenced two_group_config
  /\ fst (score two_group_config [ping_record; ssh_record] [])
     = Ok (expected_result two_group_config [ping_record; ssh_record]).
Proof.
  assert (H : NoDup [ping_record; ssh_record]).
  { repeat constructor; simpl; intuition discriminate. }
  split; [exact H|].
  split; [exact (proj1 two_group_config_valid)|].
  split; [exact (proj2 two_group_config_valid)|].
  exact (score_decision two_group_config [ping_record; ssh_record] [] H
           (proj1 two_group_config_valid) (proj2 two_group_config_valid)).
Defined.

(** ** What [score] logs *)

(** X12.  What [score] writes to the logger, for pairwise distinct
    records and a validated configuration whose groups refer to their own
    category.  When it raises, it has logged two lines before: a heading
    and the list of all the offenders of the check that failed, in the
    order of the input, while the exception names the first of them only.
    The records matched by several groups are listed with their groups.
    When it returns a result it has logged nothing. *)
Theorem score_logs_every_offender (config : ScoringConfig.t)
    (records : list LabResultRecord.t) (log : list message) :
  NoDup records ->
  ScoringConfig.__post_init__ config = Ok tt ->
  well_referenced config ->
  snd (score config records log)
  = log ++
    match filter (fun r => (len (groups_matching config r) >? 1)%Z) records with
    | (_ :: _) as multiple =>
        [ [Text "The following CSV records match multiple checks groups:"];
          join [Text ", "]
            (map (fun r => [Text "["] ++ LabResultRecord.repr r ++ [Text " -> "]
                           ++ repr_groups (groups_matching config r) ++ [Text "]"])
                 multiple) ]
    | [] =>
    match filter (fun r => (len (groups_matching config r) =? 0)%Z) records with
    | (_ :: _) as without_group =>
        [ [Text "The following CSV records don't match any check groups:"];
          join [Text ", "] (map LabResultRecord.repr without_group) ]
    | [] =>
    match filter (fun g => (len (filter (CheckGroup.matches g) records) =? 0)%Z)
                 (ScoringConfig.groups config) with
    | (_ :: _) as without_records =>
        [ [Text "The following check groups don't match any CSV records:"];
          join [Text ", "] (map CheckGroup.repr without_records) ]
    | [] => []
    end end end.
Proof.
  intros Hr Hv Hw.
  pose proof (validated_groups_distinct config Hv Hw) as Hd.
  destruct (offenders_distinct config records Hr Hd) as [E1 [E2 E3]].
  rewrite score_eval. cbn [snd]. f_equal. unfold score_outcome.
  rewrite E1, E2, E3.
  destruct (filter (fun r => (len (groups_matching config r) >? 1)%Z) records)
    as [|r1 l1] eqn:F1.
  - destruct (filter (fun r => (len (groups_matching config r) =? 0)%Z) records)
      as [|r2 l2]; [|reflexivity].
    destruct (filter _ (ScoringConfig.groups config)) as [|g3 l3]; reflexivity.
  - cbn [snd]. f_equal. f_equal. f_equal. apply map_ext_in. intros r Hin.
    rewrite groups_appended_distinct; [reflexivity | assumption|].
    rewrite <- F1 in Hin. apply filter_In in Hin. tauto.
Qed.

Lemma score_logs_every_offender_witness :
  NoDup [ping_record; ssh_record; LabResultRecord.mk "ftp" true ""; one_failed]
  /\ ScoringConfig.__post_init__ overlapping_config = Ok tt
  /\ well_referenced overlapping_config
  /\ snd (score overlapping_config
            [ping_record; ssh_record; LabResultRecord.mk "ftp" true ""; one_failed] [])
     = [ [Text "The following CSV records match multiple checks groups:"];
         join [Text ", "]
           (map (fun r => [Text "["] ++ LabResultRecord.repr r ++ [Text " -> "]
                          ++ repr_groups (groups_matching overlapping_config r)
                          ++ [Text "]"])
                [ping_record; one_failed]) ].
Proof.
  assert (H : NoDup [ping_record; ssh_record; LabResultRecord.mk "ftp" true ""; one_failed]).
  { repeat constructor; simpl; intuition discriminate. }
  assert (V : ScoringConfig.__post_init__ overlapping_config = Ok tt) by reflexivity.
  assert (W : well_referenced overlapping_config).
  { intros category group [<-|[]] [<-|[<-|[]]]; reflexivity. }
  split; [exact H|]. split; [exact V|]. split; [exact W|].
  exact (score_logs_every_offender overlapping_config
           [ping_record; ssh_record; LabResultRecord.mk "ftp" true ""; one_failed] [] H V W).
Defined.

(** ** What a returned result says about the input *)

Lemma score_ok_outcome (config : ScoringConfig.t) (records : list LabResultRecord.t)
    (log : list message) (scoring_result : ScoringResult.t) :
  fst (score config records log) = Ok scoring_result ->
  ambiguous_records config records = []
  /\ unmatched_records config records = []
  /\ unused_groups config records = []
  /\ scoring_result = scored config records.
Proof.
  rewrite score_eval. cbn [fst]. unfold score_outcome.
  destruct (ambiguous_records config records); [|discriminate].
  destruct (unmatched_records config records); [|discriminate].
  destruct (unused_groups config records); [|discriminate].
  cbn [fst]. intros [= <-]. auto.
Qed.

Lemma In_first_occurrences_record (records : list LabResultRecord.t) (r : LabResultRecord.t) :
  In r records -> In r (first_occurrences LabResultRecord.eqb records).
Proof.
  intros Hin.
  destruct (first_occurrences_spec LabResultRecord.eqb LabResultRecord_eqb_refl
              LabResultRecord_eqb_trans records) as [_ [_ P]].
  destruct (P r Hin) as [k [Hk Ek]]. apply LabResultRecord_eqb_eq in Ek as <-. exact Hk.
Qed.

Lemma NoDup_single_copies (records : list LabResultRecord.t) :
  (forall r, In r records ->
     (List.length (filter (LabResultRecord.eqb r) records) <= 1)%nat) ->
  NoDup records.
Proof.
  induction records as [|a records IH]; intros H; constructor.
  - intros Hin. specialize (H a (or_introl eq_refl)).
    cbn [filter] in H. rewrite LabResultRecord_eqb_refl in H. cbn [List.length] in H.
    assert (Ha : In a (filter (LabResultRecord.eqb a) records)).
    { apply filter_In. split; [assumption | apply LabResultRecord_eqb_refl]. }
    destruct (filter (LabResultRecord.eqb a) records); [destruct Ha | simpl in H; lia].
  - apply IH. intros r Hr. specialize (H r (or_intror Hr)). cbn [filter] in H.
    destruct (LabResultRecord.eqb r a); cbn [List.length] in H; lia.
Qed.

Lemma matched_by_a_group (config : ScoringConfig.t) (records : list LabResultRecord.t)
    (r : LabResultRecord.t) :
  unmatched_records config records = [] -> In r records ->
  exists g, In g (ScoringConfig.groups config) /\ CheckGroup.matches g r = true.
Proof.
  intros Hu Hin. unfold unmatched_records in Hu.
  pose proof (proj1 (filter_nil_iff _ _) Hu r (In_first_occurrences_record records r Hin)) as H.
  cbv beta in H.
  destruct (groups_appended (ScoringConfig.groups config) records r) as [|g l] eqn:E;
    [discriminate H|].
  assert (Hg : In g (groups_appended (ScoringConfig.groups config) records r))
    by (rewrite E; left; reflexivity).
  apply In_groups_appended in Hg. exists g. tauto.
Qed.

Lemma accepted_records_distinct (config : ScoringConfig.t)
    (records : list LabResultRecord.t) :
  ambiguous_records config records = [] ->
  unmatched_records config records = [] ->
  NoDup records.
Proof.
  intros Ha Hu. apply NoDup_single_copies. intros r Hin.
  destruct (matched_by_a_group config records r Hu Hin) as [g [Hg M]].
  unfold ambiguous_records in Ha.
  pose proof (proj1 (filter_nil_iff _ _) Ha r (In_first_occurrences_record records r Hin)) as H.
  cbv beta in H. rewrite Z.gtb_ltb in H. apply Z.ltb_ge in H.
  pose proof (flat_map_length_ge
                (fun g => flat_map
                            (fun r' => if CheckGroup.matches g r' && LabResultRecord.eqb r r'
                                       then [g] else []) records)
                (ScoringConfig.groups config) g Hg) as Hle.
  cbv beta in Hle. rewrite (matched_copies g r records M) in Hle.
  unfold groups_appended, len in H. lia.
Qed.

Lemma accepted_each_record_has_one_group (config : ScoringConfig.t)
    (records : list LabResultRecord.t) :
  ambiguous_records config records = [] ->
  unmatched_records config records = [] ->
  each_record_has_one_group config records.
Proof.
  intros Ha Hu r Hin.
  pose proof (accepted_records_distinct config records Ha Hu) as Hnd.
  pose proof (In_first_occurrences_record records r Hin) as Hk.
  unfold ambiguous_records in Ha. unfold unmatched_records in Hu.
  pose proof (proj1 (filter_nil_iff _ _) Ha r Hk) as H1.
  pose proof (proj1 (filter_nil_iff _ _) Hu r Hk) as H2.
  cbv beta in H1, H2. rewrite (groups_appended_distinct _ _ r Hnd Hin) in H1, H2.
  unfold len in H1, H2. lia.
Qed.

Lemma accepted_each_group_has_a_record (config : ScoringConfig.t)
    (records : list LabResultRecord.t) :
  unused_groups config records = [] ->
  each_group_has_a_record config records.
Proof.
  intros Hu g Hg. unfold unused_groups in Hu.
  destruct (first_occurrences_spec CheckGroup.eqb CheckGroup_eqb_refl
              CheckGroup_eqb_trans (ScoringConfig.groups config)) as [_ [_ P]].
  destruct (P g Hg) as [k [Hk Ek]].
  pose proof (proj1 (filter_nil_iff _ _) Hu k Hk) as H. cbv beta in H.
  rewrite (records_appended_congr _ _ k g Ek) in H.
  destruct (records_appended (ScoringConfig.groups config) records g) as [|r l] eqn:E;
    [discriminate H|].
  assert (Hr : In r (records_appended (ScoringConfig.groups config) records g))
    by (rewrite E; left; reflexivity).
  apply (In_records_appended _ _ g r Hg) in Hr. exists r. exact Hr.
Qed.

(** Groups that each match a record, no record being matched twice, are
    pairwise different. *)
Lemma matched_once_distinct (groups : list CheckGroup.t) (records : list LabResultRecord.t) :
  (forall g, In g groups -> exists r, In r records /\ CheckGroup.matches g r = true) ->
  (forall r, In r records ->
     (List.length (filter (fun g => CheckGroup.matches g r) groups) <= 1)%nat) ->
  distinct_keys CheckGroup.eqb groups.
Proof.
  unfold distinct_keys.
  induction groups as [|a groups IH]; intros Hg Hr; constructor.
  - apply Forall_forall. intros b Hb. apply not_true_is_false. intros E.
    destruct (Hg b (or_intror Hb)) as [r [Hin M]].
    specialize (Hr r Hin). cbn [filter] in Hr.
    rewrite (CheckGroup_eqb_matches a b r E), M in Hr. cbn [List.length] in Hr.
    assert (Hb' : In b (filter (fun g => CheckGroup.matches g r) groups))
      by (apply filter_In; auto).
    destruct (filter (fun g => CheckGroup.matches g r) groups);
      [destruct Hb' | simpl in Hr; lia].
  - apply IH.
    + intros g Hin. apply Hg. right. exact Hin.
    + intros r Hin. specialize (Hr r Hin). cbn [filter] in Hr.
      destruct (CheckGroup.matches a r); cbn [List.length] in Hr; lia.
Qed.

Lemma accepted_groups_distinct (config : ScoringConfig.t)
    (records : list LabResultRecord.t) :
  each_record_has_one_group config records ->
  each_group_has_a_record config records ->
  distinct_keys CheckGroup.eqb (ScoringConfig.groups config).
Proof.
  intros H1 H2. apply (matched_once_distinct _ records); [exact H2|].
  intros r Hin. rewrite (H1 r Hin). lia.
Qed.

Lemma score_ok_facts (config : ScoringConfig.t) (records : list LabResultRecord.t)
    (log : list message) (scoring_result : ScoringResult.t) :
  fst (score config records log) = Ok scoring_result ->
  NoDup records
  /\ each_record_has_one_group config records
  /\ each_group_has_a_record config records
  /\ scoring_result = expected_result config records.
Proof.
  intros H. apply score_ok_outcome in H as [Ha [Hu [Hg ->]]].
  pose proof (accepted_each_record_has_one_group config records Ha Hu) as H1.
  pose proof (accepted_each_group_has_a_record config records Hg) as H2.
  split; [exact (accepted_records_distinct config records Ha Hu)|].
  split; [exact H1|]. split; [exact H2|].
  apply scored_distinct. exact (accepted_groups_distinct config records H1 H2).
Qed.

(** X13.  When exactly [score] returns a result, for any configuration
    (validated or not), any list of records and any state of the logger:
    the records are pairwise distinct, every record is matched by exactly
    one group and every group matches a record.  The result is then the
    tree of the configuration, each group with the records it matches, in
    the order of the input.  In every other case an exception is raised. *)
Theorem score_returns_iff (config : ScoringConfig.t) (records : list LabResultRecord.t)
    (log : list message) (scoring_result : ScoringResult.t) :
  fst (score config records log) = Ok scoring_result
  <-> NoDup records
      /\ each_record_has_one_group config records
      /\ each_group_has_a_record config records
      /\ scoring_result = expected_result config records.
Proof.
  split; [apply score_ok_facts|].
  intros [Hnd [H1 [H2 ->]]].
  pose proof (accepted_groups_distinct config records H1 H2) as Hd.
  destruct (score_accepts_iff config records Hnd Hd) as [Hok _].
  rewrite (Hok (conj H1 H2) log). reflexivity.
Qed.

(** ** The counts of a returned result *)

Lemma Zsum_flat_map {A B : Type} (f : B -> Z) (h : A -> list B) (l : list A) :
  Zsum (map f (flat_map h l)) = Zsum (map (fun a => Zsum (map f (h a))) l).
Proof.
  induction l as [|a l IH]; cbn [flat_map map Zsum]; [reflexivity|].
  rewrite map_app, <- IH. clear IH.
  induction (map f (h a)) as [|x xs IHx]; cbn [app Zsum]; lia.
Qed.

Lemma len_filter_cons {A : Type} (p : A -> bool) (a : A) (l : list A) :
  len (filter p (a :: l)) = (if p a then 1 else 0) + len (filter p l).
Proof. unfold len. cbn [filter]. destruct (p a); cbn [List.length]; lia. Qed.

(** Counting the matching pairs group by group or record by record. *)
Lemma Zsum_filter_swap {A B : Type} (m : A -> B -> bool) (l : list A) (l' : list B) :
  Zsum (map (fun a => len (filter (m a) l')) l)
  = Zsum (map (fun b => len (filter (fun a => m a b) l)) l').
Proof.
  induction l as [|a l IH]; cbn [map Zsum].
  - induction l' as [|b l' IH']; cbn [map Zsum]; [reflexivity|].
    rewrite <- IH'. reflexivity.
  - rewrite IH. clear IH.
    induction l' as [|b l' IH']; cbn [map Zsum]; [reflexivity|].
    rewrite !len_filter_cons, <- IH'. lia.
Qed.

Lemma matched_once_count {A B : Type} (m : A -> B -> bool) (l : list A) (l' : list B) :
  (forall b, In b l' -> List.length (filter (fun a => m a b) l) = 1%nat) ->
  Zsum (map (fun a => len (filter (m a) l')) l) = len l'.
Proof.
  intros H. rewrite Zsum_filter_swap, <- Zsum_ones.
  f_equal. apply map_ext_in. intros b Hb. unfold len. rewrite (H b Hb). reflexivity.
Qed.

Lemma filter_comm {A : Type} (p q : A -> bool) (l : list A) :
  filter p (filter q l) = filter q (filter p l).
Proof.
  induction l as [|a l IH]; cbn [filter]; [reflexivity|].
  destruct (p a) eqn:P, (q a) eqn:Q; cbn [filter]; rewrite ?P, ?Q, IH; reflexivity.
Qed.

(** The sum, over the groups of the result, of the number of records of
    the group that satisfy [p]. *)
Lemma expected_result_count (config : ScoringConfig.t) (records : list LabResultRecord.t)
    (p : LabResultRecord.t -> bool) :
  each_record_has_one_group config records ->
  Zsum (map (fun c => Zsum (map (fun g => len (filter p (GroupResult.records g)))
                                (CategoryResult.groups c)))
            (ScoringResult.categories (expected_result config records)))
  = len (filter p records).
Proof.
  intros H. unfold expected_result. cbn [ScoringResult.categories].
  rewrite map_map. cbn [CategoryResult.groups].
  rewrite (map_ext _ (fun c => Zsum (map (fun g => len (filter (CheckGroup.matches g)
                                                          (filter p records)))
                                         (GroupCategory.groups c)))).
  2:{ intros c. rewrite map_map. cbn [GroupResult.records]. f_equal.
      apply map_ext. intros g. rewrite filter_comm. reflexivity. }
  rewrite <- (Zsum_flat_map (fun g => len (filter (CheckGroup.matches g) (filter p records)))
                GroupCategory.groups).
  apply (matched_once_count (fun g r => CheckGroup.matches g r)).
  intros r Hr. apply filter_In in Hr as [Hr _]. exact (H r Hr).
Qed.

Lemma filter_all {A : Type} (l : list A) : filter (fun _ => true) l = l.
Proof. induction l as [|a l IH]; cbn [filter]; [reflexivity | rewrite IH; reflexivity]. Qed.

Lemma len_filter_negb {A : Type} (p : A -> bool) (l : list A) :
  len (filter (fun a => negb (p a)) l) = len l - len (filter p l).
Proof.
  unfold len. induction l as [|a l IH]; cbn [filter]; [reflexivity|].
  destruct (p a); cbn [negb List.length]; lia.
Qed.

(** X14.  In a result that [score] returns every record of the input is
    counted once: the total count of the result is the number of records,
    the passed count is the number of passed records and the failed count
    the number of the others, whatever the distribution of the records
    over the groups and categories. *)
Theorem every_record_is_counted_once (config : ScoringConfig.t)
    (records : list LabResultRecord.t) (log : list message)
    (scoring_result : ScoringResult.t) :
  fst (score config records log) = Ok scoring_result ->
  ScoringResult.total_checks_count scoring_result = len records
  /\ ScoringResult.passed_checks_count scoring_result
     = len (filter LabResultRecord.passed records)
  /\ ScoringResult.failed_check_count scoring_result
     = len (filter (fun record => negb (LabResultRecord.passed record)) records).
Proof.
  intros H. apply score_ok_facts in H as [_ [H1 [_ ->]]].
  assert (T : ScoringResult.total_checks_count (expected_result config records)
              = len records).
  { unfold ScoringResult.total_checks_count. rewrite py_sum_int_Zsum.
    rewrite <- (filter_all records) at 2.
    rewrite <- (expected_result_count config records (fun _ => true) H1).
    f_equal. apply map_ext. intros c. unfold CategoryResult.total_checks_count.
    rewrite py_sum_int_Zsum. f_equal. apply map_ext. intros g.
    rewrite filter_all. reflexivity. }
  assert (P : ScoringResult.passed_checks_count (expected_result config records)
              = len (filter LabResultRecord.passed records)).
  { unfold ScoringResult.passed_checks_count. rewrite py_sum_int_Zsum.
    rewrite <- (expected_result_count config records LabResultRecord.passed H1).
    f_equal. apply map_ext. intros c. unfold CategoryResult.passed_checks_count.
    rewrite py_sum_int_Zsum. f_equal. apply map_ext. intros g.
    unfold GroupResult.passed_checks_count. rewrite py_sum_int_Zsum. apply Zsum_ones. }
  split; [exact T|]. split; [exact P|].
  rewrite len_filter_negb, <- T, <- P.
  unfold ScoringResult.failed_check_count, ScoringResult.total_checks_count,
    ScoringResult.passed_checks_count.
  rewrite !py_sum_int_Zsum.
  rewrite <- (Zsum_sub CategoryResult.total_checks_count CategoryResult.passed_checks_count).
  f_equal. apply map_ext. intros c. apply category_counts.
Qed.

Lemma every_record_is_counted_once_witness :
  fst (score two_group_config [ping_record; ssh_record] [])
  = Ok (expected_result two_group_config [ping_record; ssh_record])
  /\ ScoringResult.total_checks_count
       (expected_result two_group_config [ping_record; ssh_record]) = 2.
Proof.
  assert (H : fst (score two_group_config [ping_record; ssh_record] [])
              = Ok (expected_result two_group_config [ping_record; ssh_record]))
    by reflexivity.
  split; [exact H|].
  exact (proj1 (every_record_is_counted_once two_group_config [ping_record; ssh_record] []
                  _ H)).
Defined.

(** ** [score], then [format_result] *)

Lemma expected_result_groups (config : ScoringConfig.t) (records : list LabResultRecord.t)
    (g : GroupResult.t) :
  In g (all_groups (expected_result config records)) ->
  In (GroupResult.group g) (ScoringConfig.groups config)
  /\ GroupResult.records g = filter (CheckGroup.matches (GroupResult.group g)) records.
Proof.
  unfold all_groups, expected_result. cbn [ScoringResult.categories].
  rewrite in_flat_map. intros [c [Hc Hg]].
  apply in_map_iff in Hc as [category [<- Hcat]]. cbn [CategoryResult.groups] in Hg.
  apply in_map_iff in Hg as [group [<- Hgroup]].
  cbn [GroupResult.group GroupResult.records]. split; [|reflexivity].
  unfold ScoringConfig.groups. apply in_flat_map. eauto.
Qed.

Lemma format_result_ok (r : ScoringResult.t) (show_all : bool) :
  no_empty_group r -> exists lines, format_result r show_all = Ok lines.
Proof.
  intros H. unfold format_result.
  destruct (any_earned_float_ok (all_groups r) H) as [use_float [Eu _]].
  fold (all_groups r). rewrite Eu. cbn [bind].
  destruct (scoring_earned_points_ok r H) as [earned Ee].
  unfold ScoringResult.earned_points_percentage. rewrite Ee. cbn [bind].
  destruct (_calc_percentage_spec earned (ScoringResult.max_points r)) as [percentage [-> _]].
  cbn [bind].
  set (shown := if show_all then _ else _).
  assert (Hshown : forall c, In c shown -> In c (ScoringResult.categories r)).
  { intros c. unfold shown. destruct show_all; [auto|]. intros Hc.
    apply filter_In in Hc. tauto. }
  set (body := fun category : CategoryResult.t => _).
  destruct (mapM_ok body shown) as [blocks Eb].
  { intros c Hc. unfold body.
    destruct (category_lines_ok use_float (len shown >? 1) c) as [ls ->].
    - eapply no_empty_group_category; eauto.
    - simpl. eauto. }
  rewrite Eb. cbn [bind]. eauto.
Qed.

(** X15.  A result returned by [score] can always be handed to
    [format_result]: it has the categories of the configuration, in their
    order, and in each of them the groups of the category, in their order;
    no group result is without records, so none of the divisions by the
    number of records fails, and the report is produced, with or without
    the hidden categories.  Numbers are exact here: a weight that does not
    fit a float, for which the code raises [OverflowError], is outside. *)
Theorem scored_result_is_formatted (config : ScoringConfig.t)
    (records : list LabResultRecord.t) (log : list message)
    (scoring_result : ScoringResult.t) (show_all : bool) :
  fst (score config records log) = Ok scoring_result ->
  map CategoryResult.category (ScoringResult.categories scoring_result)
  = ScoringConfig.categories config
  /\ (forall c, In c (ScoringResult.categories scoring_result) ->
        map GroupResult.group (CategoryResult.groups c)
        = GroupCategory.groups (CategoryResult.category c))
  /\ no_empty_group scoring_result
  /\ exists lines, format_result scoring_result show_all = Ok lines.
Proof.
  intros H. apply score_ok_facts in H as [_ [_ [H2 ->]]].
  assert (N : no_empty_group (expected_result config records)).
  { intros g Hg. apply expected_result_groups in Hg as [Hin ->].
    destruct (H2 _ Hin) as [r [Hr M]].
    assert (Hr' : In r (filter (CheckGroup.matches (GroupResult.group g)) records))
      by (apply filter_In; auto).
    intros E. rewrite E in Hr'. destruct Hr'. }
  split; [|split; [|split; [exact N | exact (format_result_ok _ show_all N)]]].
  - unfold expected_result. cbn [ScoringResult.categories]. rewrite map_map.
    cbn [CategoryResult.category]. apply map_id.
  - unfold expected_result. cbn [ScoringResult.categories]. intros c Hc.
    apply in_map_iff in Hc as [category [<- _]].
    cbn [CategoryResult.groups CategoryResult.category]. rewrite map_map.
    cbn [GroupResult.group]. apply map_id.
Qed.

Lemma scored_result_is_formatted_witness :
  fst (score two_group_config [ping_record; ssh_record] [])
  = Ok (expected_result two_group_config [ping_record; ssh_record])
  /\ exists lines,
       format_result (expected_result two_group_config [ping_record; ssh_record]) false
       = Ok lines.
Proof.
  assert (H : fst (score two_group_config [ping_record; ssh_record] [])
              = Ok (expected_result two_group_config [ping_record; ssh_record]))
    by reflexivity.
  split; [exact H|].
  exact (proj2 (proj2 (proj2
           (scored_result_is_formatted two_group_config [ping_record; ssh_record] []
              _ false H)))).
Defined.

(** ** [score] on empty inputs *)

Lemma first_occurrences_head {K : Type} (key_eqb : K -> K -> bool) (k : K) (keys : list K) :
  exists rest, first_occurrences key_eqb (k :: keys) = k :: rest.
Proof.
  unfold first_occurrences. cbn [fold_left existsb app].
  assert (G : forall seen : list K, exists rest,
    fold_left (fun seen k => if existsb (fun k' => key_eqb k' k) seen then seen else seen ++ [k])
              keys seen = seen ++ rest).
  { induction keys as [|a keys IH]; intros seen; cbn [fold_left].
    - exists []. rewrite app_nil_r. reflexivity.
    - destruct (existsb (fun k' => key_eqb k' a) seen).
      + apply IH.
      + destruct (IH (seen ++ [a])) as [rest ->]. rewrite <- app_assoc. eauto. }
  destruct (G [k]) as [rest ->]. exists rest. reflexivity.
Qed.

Lemma filter_all_true {A : Type} (p : A -> bool) (l : list A) :
  (forall a, p a = true) -> filter p l = l.
Proof.
  intros H. induction l as [|a l IH]; cbn [filter]; [reflexivity|].
  rewrite H, IH. reflexivity.
Qed.

Lemma records_appended_nil (groups : list CheckGroup.t) (k : CheckGroup.t) :
  records_appended groups [] k = [].
Proof.
  unfold records_appended. induction groups as [|g groups IH]; cbn [flat_map];
    [reflexivity|].
  rewrite IH. destruct (CheckGroup.eqb k g); reflexivity.
Qed.

(** X16.  [score] on empty inputs, for any configuration.  Without
    records, the first group of the configuration is reported as matching
    no record; only a configuration without any group is scored, to a
    result without group results.  Without groups, the first record is
    reported as unmatched. *)
Theorem score_on_empty_inputs (config : ScoringConfig.t) (log : list message) :
  fst (score config [] log)
  = match ScoringConfig.groups config with
    | [] => Ok (expected_result config [])
    | group :: _ => Err (ValueError (msg_without_records group))
    end
  /\ forall record records,
       ScoringConfig.groups config = [] ->
       fst (score config (record :: records) log)
       = Err (ValueError (msg_without_group record)).
Proof.
  split.
  - rewrite score_eval. cbn [fst]. unfold score_outcome.
    unfold ambiguous_records, unmatched_records, unused_groups.
    cbn [first_occurrences fold_left filter].
    rewrite (filter_all_true
               (fun k => (len (records_appended (ScoringConfig.groups config) [] k) =? 0)%Z)).
    2:{ intros k. rewrite records_appended_nil. reflexivity. }
    destruct (ScoringConfig.groups config) as [|g groups] eqn:E.
    + cbn [first_occurrences fold_left fst]. rewrite scored_distinct; [reflexivity|].
      rewrite E. constructor.
    + destruct (first_occurrences_head CheckGroup.eqb g groups) as [rest ->]. reflexivity.
  - intros record records E. rewrite score_eval. cbn [fst]. unfold score_outcome.
    unfold ambiguous_records, unmatched_records. rewrite E.
    cbn [groups_appended flat_map].
    destruct (first_occurrences_head LabResultRecord.eqb record records) as [rest ->].
    replace (filter (fun _ : LabResultRecord.t => (len (@nil CheckGroup.t) >? 1)%Z)
               (record :: rest)) with (@nil LabResultRecord.t).
    2:{ symmetry. apply filter_nil_iff. reflexivity. }
    rewrite (filter_all_true (fun _ : LabResultRecord.t => (len (@nil CheckGroup.t) =? 0)%Z));
      reflexivity.
Qed.

(** ** The order of the records *)

Lemma map_Forall2 {A B : Type} (R : A -> A -> Prop) (f : A -> B) (l l' : list A) :
  (forall a a', R a a' -> f a = f a') -> Forall2 R l l' -> map f l = map f l'.
Proof.
  intros H. induction 1 as [|a a' l l' Ha _ IH]; cbn [map]; [reflexivity|].
  rewrite (H a a' Ha), IH. reflexivity.
Qed.

Lemma mapM_Forall2_eq {A B : Type} (R : A -> A -> Prop) (f : A -> result B) (l l' : list A) :
  (forall a a', R a a' -> f a = f a') -> Forall2 R l l' -> mapM f l = mapM f l'.
Proof.
  intros H. induction 1 as [|a a' l l' Ha _ IH]; cbn [mapM]; [reflexivity|].
  rewrite (H a a' Ha), IH. reflexivity.
Qed.

Lemma Forall2_map_same {A B : Type} (R : B -> B -> Prop) (f f' : A -> B) (l : list A) :
  (forall a, In a l -> R (f a) (f' a)) -> Forall2 R (map f l) (map f' l).
Proof.
  induction l as [|a l IH]; intros H; cbn [map]; constructor.
  - apply H. left. reflexivity.
  - apply IH. intros a' Ha'. apply H. right. assumption.
Qed.

Lemma Forall2_flat_map {A B : Type} (R : A -> A -> Prop) (S : B -> B -> Prop)
    (f : A -> list B) (l l' : list A) :
  (forall a a', R a a' -> Forall2 S (f a) (f a')) ->
  Forall2 R l l' -> Forall2 S (flat_map f l) (flat_map f l').
Proof.
  intros H. induction 1 as [|a a' l l' Ha _ IH]; cbn [flat_map]; [constructor|].
  apply Forall2_app; [apply H; assumption | exact IH].
Qed.

Lemma Forall2_filter {A : Type} (R : A -> A -> Prop) (p : A -> bool) (l l' : list A) :
  (forall a a', R a a' -> p a = p a') ->
  Forall2 R l l' -> Forall2 R (filter p l) (filter p l').
Proof.
  intros H. induction 1 as [|a a' l l' Ha _ IH]; cbn [filter]; [constructor|].
  rewrite <- (H a a' Ha). destruct (p a); [constructor|]; assumption.
Qed.

Lemma filter_Permutation {A : Type} (p : A -> bool) (l l' : list A) :
  Permutation l l' -> Permutation (filter p l) (filter p l').
Proof.
  induction 1 as [|a l l' _ IH|a b l|l1 l2 l3 _ IH1 _ IH2]; cbn [filter].
  - constructor.
  - destruct (p a); [constructor|]; assumption.
  - destruct (p a), (p b); try apply Permutation_refl. constructor.
  - eapply Permutation_trans; eassumption.
Qed.

Lemma Permutation_len {A : Type} (l l' : list A) : Permutation l l' -> len l = len l'.
Proof. intros H. unfold len. rewrite (Permutation_length H). reflexivity. Qed.

Lemma similar_group_earned (g g' : GroupResult.t) :
  similar_group g g' -> GroupResult.earned_points g = GroupResult.earned_points g'.
Proof.
  intros [E [L C]]. unfold GroupResult.earned_points, GroupType.calculate_earned_points.
  rewrite E, L, C. reflexivity.
Qed.

Lemma similar_group_max (g g' : GroupResult.t) :
  similar_group g g' -> GroupResult.max_points g = GroupResult.max_points g'.
Proof.
  intros [E [L C]]. unfold GroupResult.max_points, GroupType.calculate_max_points.
  rewrite E, L. reflexivity.
Qed.

Lemma similar_group_line (use_float : bool) (g g' : GroupResult.t) :
  similar_group g g' -> group_line use_float g = group_line use_float g'.
Proof.
  intros H. unfold group_line, GroupResult.earned_points_percentage.
  rewrite (similar_group_earned g g' H), (similar_group_max g g' H).
  destruct H as [-> _]. reflexivity.
Qed.

Lemma similar_category_earned (c c' : CategoryResult.t) :
  similar_category c c' -> CategoryResult.earned_points c = CategoryResult.earned_points c'.
Proof.
  intros [_ H]. unfold CategoryResult.earned_points.
  rewrite (mapM_Forall2_eq similar_group GroupResult.earned_points _ _
             similar_group_earned H). reflexivity.
Qed.

Lemma similar_category_max (c c' : CategoryResult.t) :
  similar_category c c' -> CategoryResult.max_points c = CategoryResult.max_points c'.
Proof.
  intros [_ H]. unfold CategoryResult.max_points.
  rewrite (map_Forall2 similar_group GroupResult.max_points _ _ similar_group_max H).
  reflexivity.
Qed.

Lemma similar_category_lines (use_float display : bool) (c c' : CategoryResult.t) :
  similar_category c c' ->
  category_lines use_float display c = category_lines use_float display c'.
Proof.
  intros H. unfold category_lines, CategoryResult.earned_points_percentage.
  rewrite (similar_category_earned c c' H), (similar_category_max c c' H).
  destruct H as [-> H].
  rewrite (mapM_Forall2_eq similar_group (group_line use_float) _ _
             (similar_group_line use_float) H). reflexivity.
Qed.

Lemma similar_any_earned_float (groups groups' : list GroupResult.t) :
  Forall2 similar_group groups groups' ->
  any_earned_float groups = any_earned_float groups'.
Proof.
  induction 1 as [|g g' l l' Hg _ IH]; cbn [any_earned_float]; [reflexivity|].
  rewrite (similar_group_earned g g' Hg), IH. reflexivity.
Qed.

Lemma similar_result_earned (r r' : ScoringResult.t) :
  similar_result r r' -> ScoringResult.earned_points r = ScoringResult.earned_points r'.
Proof.
  intros H. unfold ScoringResult.earned_points.
  rewrite (mapM_Forall2_eq similar_category CategoryResult.earned_points _ _
             similar_category_earned H). reflexivity.
Qed.

Lemma similar_result_max (r r' : ScoringResult.t) :
  similar_result r r' -> ScoringResult.max_points r = ScoringResult.max_points r'.
Proof.
  intros H. unfold ScoringResult.max_points.
  rewrite (map_Forall2 similar_category CategoryResult.max_points _ _
             similar_category_max H). reflexivity.
Qed.

Lemma similar_result_report (r r' : ScoringResult.t) (show_all : bool) :
  similar_result r r' -> format_result r show_all = format_result r' show_all.
Proof.
  intros H. unfold format_result, ScoringResult.earned_points_percentage.
  rewrite (similar_result_earned r r' H), (similar_result_max r r' H).
  rewrite (similar_any_earned_float
             (flat_map CategoryResult.groups (ScoringResult.categories r))
             (flat_map CategoryResult.groups (ScoringResult.categories r'))).
  2:{ apply (Forall2_flat_map similar_category); [|exact H]. intros c c' [_ Hc]. exact Hc. }
  set (shown := if show_all then ScoringResult.categories r else _).
  set (shown' := if show_all then ScoringResult.categories r' else _).
  assert (S : Forall2 similar_category shown shown').
  { unfold shown, shown'. destruct show_all; [exact H|].
    apply Forall2_filter; [|exact H]. intros c c' [-> _]. reflexivity. }
  assert (L : len shown = len shown').
  { unfold len. rewrite (Forall2_length S). reflexivity. }
  rewrite L.
  destruct (any_earned_float _) as [use_float|]; cbn [bind]; [|reflexivity].
  destruct (ScoringResult.earned_points r') as [earned|]; cbn [bind]; [|reflexivity].
  destruct (_calc_percentage earned _) as [percentage|]; cbn [bind]; [|reflexivity].
  rewrite (mapM_Forall2_eq similar_category
             (fun category =>
                bind (category_lines use_float (len shown' >? 1)%Z category)
                     (fun ls => Ok ([Text ""] :: ls))) shown shown').
  - reflexivity.
  - intros c c' Hc. rewrite (similar_category_lines _ _ c c' Hc). reflexivity.
  - exact S.
Qed.

Lemma expected_result_similar (config : ScoringConfig.t)
    (records records' : list LabResultRecord.t) :
  Permutation records records' ->
  similar_result (expected_result config records) (expected_result config records').
Proof.
  intros P. unfold similar_result, expected_result. cbn [ScoringResult.categories].
  apply Forall2_map_same. intros category _. split; [reflexivity|].
  cbn [CategoryResult.groups]. apply Forall2_map_same. intros group _.
  split; [reflexivity|]. cbn [GroupResult.records]. split.
  - apply Permutation_len, filter_Permutation, P.
  - rewrite !count_passed_filter. apply Permutation_len.
    apply filter_Permutation, filter_Permutation, P.
Qed.

(** X17.  The scores do not depend on the order of the records: when
    [score] returns a result for a list of records, it returns one for
    every reordering of the list, with the same earned points, maximum
    points and counts, and [format_result] gives the same report for the
    two results, line by line. *)
Theorem score_ignores_record_order (config : ScoringConfig.t)
    (records records' : list LabResultRecord.t) (log : list message)
    (scoring_result : ScoringResult.t) :
  Permutation records records' ->
  fst (score config records log) = Ok scoring_result ->
  exists scoring_result',
    fst (score config records' log) = Ok scoring_result'
    /\ ScoringResult.earned_points scoring_result'
       = ScoringResult.earned_points scoring_result
    /\ ScoringResult.max_points scoring_result' = ScoringResult.max_points scoring_result
    /\ forall show_all,
         format_result scoring_result' show_all = format_result scoring_result show_all.
Proof.
  intros P H. apply score_ok_facts in H as [Hnd [H1 [H2 ->]]].
  assert (Hnd' : NoDup records') by (eapply Permutation_NoDup; eassumption).
  assert (H1' : each_record_has_one_group config records').
  { intros r Hr. apply H1. eapply Permutation_in; [apply Permutation_sym|]; eassumption. }
  assert (H2' : each_group_has_a_record config records').
  { intros g Hg. destruct (H2 g Hg) as [r [Hr M]]. exists r. split; [|exact M].
    eapply Permutation_in; eassumption. }
  pose proof (accepted_groups_distinct config records H1 H2) as Hd.
  destruct (score_accepts_iff config records' Hnd' Hd) as [Hok _].
  exists (expected_result config records').
  rewrite (Hok (conj H1' H2') log).
  pose proof (expected_result_similar config records' records (Permutation_sym P)) as S.
  split; [reflexivity|]. split; [exact (similar_result_earned _ _ S)|].
  split; [exact (similar_result_max _ _ S)|].
  intros show_all. exact (similar_result_report _ _ show_all S).
Qed.

Lemma score_ignores_record_order_witness :
  Permutation [ping_record; ssh_record] [ssh_record; ping_record]
  /\ fst (score two_group_config [ping_record; ssh_record] [])
     = Ok (expected_result two_group_config [ping_record; ssh_record])
  /\ exists scoring_result',
       fst (score two_group_config [ssh_record; ping_record] []) = Ok scoring_result'
       /\ ScoringResult.earned_points scoring_result'
          = ScoringResult.earned_points
              (expected_result two_group_config [ping_record; ssh_record])
       /\ ScoringResult.max_points scoring_result'
          = ScoringResult.max_points
              (expected_result two_group_config [ping_record; ssh_record])
       /\ forall show_all,
            format_result scoring_result' show_all
            = format_result (expected_result two_group_config [ping_record; ssh_record])
                show_all.
Proof.
  assert (P : Permutation [ping_record; ssh_record] [ssh_record; ping_record])
    by apply perm_swap.
  assert (H : fst (score two_group_config [ping_record; ssh_record] [])
              = Ok (expected_result two_group_config [ping_record; ssh_record]))
    by reflexivity.
  split; [exact P|]. split; [exact H|].
  exact (score_ignores_record_order two_group_config [ping_record; ssh_record]
           [ssh_record; ping_record] [] _ P H).
Defined.

(** ** [category_of] *)

Lemma category_of_loop (categories : list GroupCategory.t) (category : GroupCategory.t)
    (group : CheckGroup.t) :
  NoDup (map GroupCategory.name categories) ->
  (forall c g, In c categories -> In g (GroupCategory.groups c) ->
     CheckGroup.category g = GroupCategory.ref c) ->
  In category categories ->
  In group (GroupCategory.groups category) ->
  ScoringConfig.category_of (ScoringConfig.mk categories) group = Ok category.
Proof.
  unfold ScoringConfig.category_of. cbn [ScoringConfig.categories].
  induction categories as [|c categories IH]; intros Hn Hw Hc Hg; [destruct Hc|].
  inversion Hn as [|? ? Hout Hn']; subst.
  destruct Hc as [->|Hc].
  - replace (existsb (fun g => CheckGroup.eqb g group) (GroupCategory.groups category))
      with true; [reflexivity|].
    symmetry. apply existsb_exists. exists group. split; [assumption|].
    apply CheckGroup_eqb_refl.
  - replace (existsb (fun g => CheckGroup.eqb g group) (GroupCategory.groups c)) with false.
    + apply IH; auto. intros c' g' Hc' Hg'. apply Hw; [right|]; assumption.
    + symmetry. apply not_true_is_false. intros E.
      apply existsb_exists in E as [g [Hin E]].
      unfold CheckGroup.eqb, CategoryRef.eqb in E. rewrite !andb_true_iff in E.
      destruct E as [_ [N _]]. apply String.eqb_eq in N.
      rewrite (Hw c g (or_introl eq_refl) Hin) in N.
      rewrite (Hw category group (or_intror Hc) Hg) in N.
      cbn [GroupCategory.ref CategoryRef.name] in N.
      apply Hout. rewrite N. apply in_map. exact Hc.
Qed.

Lemma category_of_foreign (categories : list GroupCategory.t) (group : CheckGroup.t) :
  (forall c g, In c categories -> In g (GroupCategory.groups c) ->
     CheckGroup.category g = GroupCategory.ref c) ->
  ~ In (CategoryRef.name (CheckGroup.category group)) (map GroupCategory.name categories) ->
  ScoringConfig.category_of (ScoringConfig.mk categories) group
  = Err (ValueError ScoringConfig.msg_not_among).
Proof.
  unfold ScoringConfig.category_of. cbn [ScoringConfig.categories].
  induction categories as [|c categories IH]; intros Hw Hout; [reflexivity|].
  replace (existsb (fun g => CheckGroup.eqb g group) (GroupCategory.groups c)) with false.
  - apply IH.
    + intros c' g' Hc' Hg'. apply Hw; [right|]; assumption.
    + intros H. apply Hout. right. exact H.
  - symmetry. apply not_true_is_false. intros E.
    apply existsb_exists in E as [g [Hin E]].
    unfold CheckGroup.eqb, CategoryRef.eqb in E. rewrite !andb_true_iff in E.
    destruct E as [_ [N _]]. apply String.eqb_eq in N.
    rewrite (Hw c g (or_introl eq_refl) Hin) in N.
    cbn [GroupCategory.ref CategoryRef.name] in N.
    apply Hout. left. exact N.
Qed.

(** X18.  In a validated configuration whose groups refer to their own
    category, [category_of] gives back, for each group of the
    configuration, the category that holds it, and never another category
    that comes before; for a group whose category has a name that no
    category of the configuration has, it raises the [ValueError]. *)
Theorem category_of_finds_the_category (config : ScoringConfig.t) :
  ScoringConfig.__post_init__ config = Ok tt ->
  well_referenced config ->
  (forall category group,
     In category (ScoringConfig.categories config) ->
     In group (GroupCategory.groups category) ->
     ScoringConfig.category_of config group = Ok category)
  /\ (forall group,
        ~ In (CategoryRef.name (CheckGroup.category group))
             (map GroupCategory.name (ScoringConfig.categories config)) ->
        ScoringConfig.category_of config group
        = Err (ValueError ScoringConfig.msg_not_among)).
Proof.
  intros Hv Hw. apply post_init_ok in Hv as [Hn _].
  destruct config as [categories]. cbn [ScoringConfig.categories] in *. split.
  - intros category group Hc Hg. apply category_of_loop; assumption.
  - intros group Hout. apply category_of_foreign; assumption.
Qed.

Lemma two_category_config_valid :
  ScoringConfig.__post_init__ two_category_config = Ok tt
  /\ well_referenced two_category_config.
Proof.
  split; [reflexivity|].
  intros category group [<-|[<-|[]]]; cbn [GroupCategory.groups].
  - intros [<-|[<-|[]]]; reflexivity.
  - intros [<-|[]]. reflexivity.
Defined.

Lemma category_of_finds_the_category_witness :
  ScoringConfig.__post_init__ two_category_config = Ok tt
  /\ well_referenced two_category_config
  /\ ScoringConfig.category_of two_category_config ospf_group
     = Ok (GroupCategory.mk "routing" (PyInt 1) [ospf_group]).
Proof.
  split; [exact (proj1 two_category_config_valid)|].
  split; [exact (proj2 two_category_config_valid)|].
  apply (proj1 (category_of_finds_the_category two_category_config
                  (proj1 two_category_config_valid) (proj2 two_category_config_valid))).
  - right. left. reflexivity.
  - left. reflexivity.
Defined.

(** ** The layout of the report *)





